(** * Relationship graph, record cache and fetch manager of ember-data

    A shallow embedding of
    - [packages/record-data/addon/-private/record-data.ts]      (module [RecordData]),
    - [packages/record-data/addon/-private/relationships/state/has-many.ts]
      and the [Graph] class that follows it                     (module [RelationshipGraph]),
    - [packages/store/addon/-private/network/fetch-manager.ts]  (module [Fetch]),
    together with the properties the design document states about them, and
    of further methods of the same files (modules [RecordDataLifecycle],
    [GraphMaintenance], [HasManyRemoval] and [RelatedRecords]) with
    properties read off the code.

    JavaScript objects are mutable and shared; every method is therefore a
    computation over the state of the object it belongs to, which can return
    or throw (a failed [assert] of [@ember/debug] throws). *)

From Stdlib Require Import ZArith.
From stdpp Require Import base option list strings gmap.

Set Default Proof Using "Type".
Local Open Scope string_scope.
Local Open Scope list_scope.

(** ** Computations over an object's state *)

(** What a JavaScript call can throw in the modelled code. *)
Inductive Exception : Type :=
| AssertionFailed (msg : string)
| JsError (msg : string).

(** A call either returns a value or throws; in both cases the mutations made
    so far stay (there is no roll-back in JavaScript). *)
Inductive Outcome (S A : Type) : Type :=
| Returned (a : A) (s : S)
| Threw (e : Exception) (s : S).
Arguments Returned {S A} a s.
Arguments Threw {S A} e s.

Definition Eff (S A : Type) : Type := S -> Outcome S A.

Definition ret {S A} (a : A) : Eff S A := fun s => Returned a s.

Definition bind {S A B} (m : Eff S A) (k : A -> Eff S B) : Eff S B :=
  fun s => match m s with
           | Returned a s' => k a s'
           | Threw e s' => Threw e s'
           end.

Definition throw {S A} (e : Exception) : Eff S A := fun s => Threw e s.
Definition gets {S A} (f : S -> A) : Eff S A := fun s => Returned (f s) s.
Definition modify {S} (f : S -> S) : Eff S unit := fun s => Returned tt (f s).

(** [assert(msg, test)] of [@ember/debug]. *)
Definition assert {S} (msg : string) (test : bool) : Eff S unit :=
  if test then ret tt else throw (AssertionFailed msg).

Notation "'let!' x ':=' m 'in' k" := (bind m (fun x => k))
  (at level 10, x pattern, m at level 100, k at level 200).
Notation "m '>>' k" := (bind m (fun _ => k))
  (at level 90, right associativity).

(** [for (let i = 0; i < xs.length; i++) body(xs[i])] over an array that the
    body does not change. *)
Fixpoint forEach {S A} (xs : list A) (body : A -> Eff S unit) : Eff S unit :=
  match xs with
  | [] => ret tt
  | x :: rest => body x >> forEach rest body
  end.

Definition state_of {S A} (o : Outcome S A) : S :=
  match o with Returned _ s => s | Threw _ s => s end.

Definition returned {S A} (o : Outcome S A) : bool :=
  match o with Returned _ _ => true | Threw _ _ => false end.

(** ** JavaScript values and dictionaries *)

(** Attribute values.  Numbers are the integers and [NaN]; an object is its
    reference. *)
Inductive JSValue : Type :=
| JSUndefined
| JSNull
| JSBool (b : bool)
| JSNumber (n : Z)
| JSNaN
| JSString (s : string)
| JSObject (ref : nat).

#[global] Instance JSValue_eq_dec : EqDecision JSValue.
Proof. solve_decision. Defined.

(** [a === b]. *)
Definition strict_equals (a b : JSValue) : bool :=
  match a, b with
  | JSNaN, _ | _, JSNaN => false
  | _, _ => bool_decide (a = b)
  end.

(** [!!a]. *)
Definition truthy (a : JSValue) : bool :=
  match a with
  | JSUndefined | JSNull | JSNaN => false
  | JSBool b => b
  | JSNumber n => negb (n =? 0)%Z
  | JSString s => negb (bool_decide (s = ""))
  | JSObject _ => true
  end.

(** An object used as a dictionary ([Object.create(null)]): its own
    properties, in the order in which they were added (the keys of the modelled
    dictionaries are names and ids; that JavaScript lists integer keys first
    plays no part in what follows). *)
Module Dict.
Definition t (V : Type) : Type := list (string * V).

Definition empty {V} : t V := [].

(** The own property [k], if there is one. *)
Fixpoint get {V} (k : string) (d : t V) : option V :=
  match d with
  | [] => None
  | (k', v) :: rest => if bool_decide (k = k') then Some v else get k rest
  end.

(** [k in d]. *)
Definition has {V} (k : string) (d : t V) : bool :=
  match get k d with Some _ => true | None => false end.

(** [d[k] = v]: an existing property keeps its place, a new one goes last. *)
Fixpoint set {V} (k : string) (v : V) (d : t V) : t V :=
  match d with
  | [] => [(k, v)]
  | (k', v') :: rest =>
      if bool_decide (k = k') then (k', v) :: rest else (k', v') :: set k v rest
  end.

(** [delete d[k]]. *)
Fixpoint delete {V} (k : string) (d : t V) : t V :=
  match d with
  | [] => []
  | (k', v') :: rest =>
      if bool_decide (k = k') then delete k rest else (k', v') :: delete k rest
  end.

(** [Object.keys(d)]. *)
Definition keys {V} (d : t V) : list string := map fst d.

(** [Object.assign(target, source)]: every own key of the source is read
    from the source and written to the target. *)
Definition assign {V} (target source : t V) : t V :=
  fold_left (fun acc k => match get k source with
                          | Some v => set k v acc
                          | None => acc
                          end)
    (keys source) target.

End Dict.

(** [d[k]] read as a value: an absent property reads [undefined]. *)
Definition prop (k : string) (d : Dict.t JSValue) : JSValue :=
  default JSUndefined (Dict.get k d).


(** ** Identifiers and graph operations *)

(** [StableRecordIdentifier].  Identifiers are interned by the identifier
    cache, so that comparing two of them by reference is comparing these
    records. *)
Record StableRecordIdentifier : Type := {
  type : string;
  id : option string;
  lid : string;
}.

#[global] Instance StableRecordIdentifier_eq_dec : EqDecision StableRecordIdentifier.
Proof. solve_decision. Defined.

#[global] Instance StableRecordIdentifier_countable : Countable StableRecordIdentifier.
Proof.
  refine (inj_countable' (fun i => (type i, id i, lid i))
            (fun t => {| type := t.1.1; id := t.1.2; lid := t.2 |}) _).
  intros []; reflexivity.
Defined.

(** The [op] field of an operation; the last constructor is an
    [UnknownOperation]. *)
Inductive OperationName : Type :=
| OpUpdateRelationship
| OpDeleteRecord
| OpReplaceRelatedRecord
| OpAddToRelatedRecords
| OpRemoveFromRelatedRecords
| OpReplaceRelatedRecords
| OpUnknown (name : string).

#[global] Instance OperationName_eq_dec : EqDecision OperationName.
Proof. solve_decision. Defined.

Inductive OperationValue : Type :=
| NoValue
| RelationshipPayload (payload : JSValue)
| RelatedRecord (r : option StableRecordIdentifier)
| RelatedRecords (rs : list StableRecordIdentifier).

(** An operation handed to the graph.  A [deleteRecord] operation has no
    field: its [field] is the empty string. *)
Record Operation : Type := {
  op : OperationName;
  record : StableRecordIdentifier;
  field : string;
  value : OperationValue;
  index : option nat;
}.

(** ** The record cache: record-data.ts *)

Module RecordData.

Record JsonApiValidationError : Type := {
  title : string;
  detail : string;
  pointer : string;
}.

(** [JsonApiResource], the payload of [pushData]. *)
Record JsonApiResource : Type := {
  resource_id : option string;
  attributes : option (Dict.t JSValue);
  relationships : option (Dict.t JSValue);
}.

(** The calls a record cache makes on its collaborators: the notifications of
    the store wrapper, and the operations it pushes to the graph of that
    wrapper. *)
Inductive WrapperCall : Type :=
| notifyPropertyChange (type : string) (id : option string) (lid : string) (key : option string)
| notifyStateChange (modelName : string) (id : option string) (lid : string)
| notifyErrorsChange (modelName : string) (id : option string) (lid : string)
| graph_push (o : Operation).

Definition is_notifyStateChange (c : WrapperCall) : bool :=
  match c with notifyStateChange _ _ _ => true | _ => false end.

(** The fields of [RecordDataDefault].  [storeWrapper] is the collaborator,
    represented by the calls it has received, oldest first. *)
Record RecordDataDefault : Type := {
  identifier : StableRecordIdentifier;
  isDestroyed : bool;
  _isNew : bool;
  _isDeleted : bool;
  __attributes : option (Dict.t JSValue);
  __inFlightAttributes : option (Dict.t JSValue);
  __data : option (Dict.t JSValue);
  _errors : option (list JsonApiValidationError);
  storeWrapper : list WrapperCall;
}.

Definition with__isNew (b : bool) (rd : RecordDataDefault) : RecordDataDefault :=
  {| identifier := identifier rd; isDestroyed := isDestroyed rd; _isNew := b;
     _isDeleted := _isDeleted rd; __attributes := __attributes rd;
     __inFlightAttributes := __inFlightAttributes rd; __data := __data rd;
     _errors := _errors rd; storeWrapper := storeWrapper rd |}.

Definition with___attributes (v : option (Dict.t JSValue)) (rd : RecordDataDefault) : RecordDataDefault :=
  {| identifier := identifier rd; isDestroyed := isDestroyed rd; _isNew := _isNew rd;
     _isDeleted := _isDeleted rd; __attributes := v;
     __inFlightAttributes := __inFlightAttributes rd; __data := __data rd;
     _errors := _errors rd; storeWrapper := storeWrapper rd |}.

Definition with___inFlightAttributes (v : option (Dict.t JSValue)) (rd : RecordDataDefault) : RecordDataDefault :=
  {| identifier := identifier rd; isDestroyed := isDestroyed rd; _isNew := _isNew rd;
     _isDeleted := _isDeleted rd; __attributes := __attributes rd;
     __inFlightAttributes := v; __data := __data rd;
     _errors := _errors rd; storeWrapper := storeWrapper rd |}.

Definition with___data (v : option (Dict.t JSValue)) (rd : RecordDataDefault) : RecordDataDefault :=
  {| identifier := identifier rd; isDestroyed := isDestroyed rd; _isNew := _isNew rd;
     _isDeleted := _isDeleted rd; __attributes := __attributes rd;
     __inFlightAttributes := __inFlightAttributes rd; __data := v;
     _errors := _errors rd; storeWrapper := storeWrapper rd |}.

Definition with__errors (v : option (list JsonApiValidationError)) (rd : RecordDataDefault) : RecordDataDefault :=
  {| identifier := identifier rd; isDestroyed := isDestroyed rd; _isNew := _isNew rd;
     _isDeleted := _isDeleted rd; __attributes := __attributes rd;
     __inFlightAttributes := __inFlightAttributes rd; __data := __data rd;
     _errors := v; storeWrapper := storeWrapper rd |}.

(** A call on the store wrapper. *)
Definition call (c : WrapperCall) (rd : RecordDataDefault) : RecordDataDefault :=
  {| identifier := identifier rd; isDestroyed := isDestroyed rd; _isNew := _isNew rd;
     _isDeleted := _isDeleted rd; __attributes := __attributes rd;
     __inFlightAttributes := __inFlightAttributes rd; __data := __data rd;
     _errors := _errors rd; storeWrapper := storeWrapper rd ++ [c] |}.

Definition RD (A : Type) : Type := Eff RecordDataDefault A.

(** [constructor], which ends in [reset()]. *)
Definition new (identifier : StableRecordIdentifier) : RecordDataDefault :=
  {| identifier := identifier; isDestroyed := false; _isNew := false; _isDeleted := false;
     __attributes := None; __inFlightAttributes := None; __data := None;
     _errors := None; storeWrapper := [] |}.

(** The getters [_attributes], [_inFlightAttributes] and [_data]: a bucket
    that is [null] becomes an empty dictionary when it is read. *)
Definition _attributes : RD (Dict.t JSValue) :=
  fun rd => let d := default Dict.empty (__attributes rd) in
            Returned d (with___attributes (Some d) rd).

Definition _inFlightAttributes : RD (Dict.t JSValue) :=
  fun rd => let d := default Dict.empty (__inFlightAttributes rd) in
            Returned d (with___inFlightAttributes (Some d) rd).

Definition _data : RD (Dict.t JSValue) :=
  fun rd => let d := default Dict.empty (__data rd) in
            Returned d (with___data (Some d) rd).

Definition notifyStateChange_ : RD unit :=
  modify (fun rd => call (notifyStateChange (type (identifier rd)) (id (identifier rd))
                            (lid (identifier rd))) rd).

Definition isNew : RD bool := gets _isNew.


Definition willCommit : RD unit :=
  let! attrs := _attributes in
  modify (with___inFlightAttributes (Some attrs)) >>
  modify (with___attributes None).

Definition hasChangedAttributes : RD bool :=
  gets (fun rd => match __attributes rd with
                  | Some d => negb (bool_decide (length (Dict.keys d) = 0))
                  | None => false
                  end).

Definition getErrors : RD (list JsonApiValidationError) :=
  gets (fun rd => default [] (_errors rd)).

(** [_notifyAttributes(keys)] with an array of keys. *)
Definition _notifyAttributes (keys : list string) : RD unit :=
  forEach keys (fun key =>
    modify (fun rd => call (notifyPropertyChange (type (identifier rd)) (id (identifier rd))
                              (lid (identifier rd)) (Some key)) rd)).

(** [changedAttributes()]: for each key of [{...inFlightData, ...currentData}],
    the pair of the confirmed and of the new value. *)
Definition changedAttributes : RD (Dict.t (JSValue * JSValue)) :=
  let! oldData := _data in
  let! currentData := _attributes in
  let! inFlightData := _inFlightAttributes in
  let newData := Dict.assign (Dict.assign Dict.empty inFlightData) currentData in
  ret (fold_left (fun diffData key => Dict.set key (prop key oldData, prop key newData) diffData)
         (Dict.keys newData) Dict.empty).

Definition _updateChangedAttributes : RD unit :=
  let! changed := changedAttributes in
  let changedAttributeNames := Dict.keys changed in
  let! _ := _attributes in
  forEach changedAttributeNames (fun attribute =>
    match Dict.get attribute changed with
    | Some (oldData, newData) =>
        if strict_equals oldData newData
        then let! attrs := _attributes in
             modify (with___attributes (Some (Dict.delete attribute attrs)))
        else ret tt
    | None => ret tt
    end) >>
  _notifyAttributes changedAttributeNames.

Section Collaborators.
(** [isEqual] of [@ember/utils]. *)
Variable isEqual : JSValue -> JSValue -> bool.
(** The keys of [storeWrapper.relationshipsDefinitionFor(modelName)]. *)
Variable relationshipsDefinitionFor : string -> list string.

Definition _changedKeys (updates : option (Dict.t JSValue)) : RD (list string) :=
  match updates with
  | Some updates =>
      let keys := Dict.keys updates in
      let! hasAttrs := hasChangedAttributes in
      let! attrs := (if hasAttrs then _attributes else ret Dict.empty) in
      let! data := _data in
      let! inFlight := gets __inFlightAttributes in
      let original := Dict.assign (Dict.assign Dict.empty data) (default Dict.empty inFlight) in
      ret (List.filter (fun key =>
                          if hasAttrs && negb (strict_equals (prop key attrs) JSUndefined)
                          then false
                          else negb (isEqual (prop key original) (prop key updates)))
             keys)
  | None => ret []
  end.

Definition _setupRelationships (data : Dict.t JSValue) : RD unit :=
  let! keys := gets (fun rd => relationshipsDefinitionFor (type (identifier rd))) in
  forEach keys (fun relationshipName =>
    if truthy (prop relationshipName data)
    then modify (fun rd =>
           call (graph_push {| op := OpUpdateRelationship; record := identifier rd;
                               field := relationshipName;
                               value := RelationshipPayload (prop relationshipName data);
                               index := None |}) rd)
    else ret tt).

Definition pushData (data : JsonApiResource) (calculateChange : bool) : RD (option (list string)) :=
  let! isNew := gets _isNew in
  (if isNew then modify (with__isNew false) >> notifyStateChange_ else ret tt) >>
  let! changedKeys :=
    (if calculateChange
     then let! keys := _changedKeys (attributes data) in ret (Some keys)
     else ret None) in
  let! d := _data in
  modify (with___data (Some (Dict.assign d (default Dict.empty (attributes data))))) >>
  let! attrs := gets __attributes in
  (match attrs with
   | Some _ => _updateChangedAttributes
   | None => ret tt
   end) >>
  (match relationships data with
   | Some rels => _setupRelationships rels
   | None => ret tt
   end) >>
  (match changedKeys with
   | Some (k :: ks) => _notifyAttributes (k :: ks)
   | _ => ret tt
   end) >>
  ret changedKeys.

End Collaborators.

Definition commitWasRejected (errors : option (list JsonApiValidationError)) : RD unit :=
  let! inFlight := _inFlightAttributes in
  let keys := Dict.keys inFlight in
  (if bool_decide (0 < length keys)
   then let! _ := _attributes in
        forEach keys (fun key =>
          let! attrs := _attributes in
          if strict_equals (prop key attrs) JSUndefined
          then let! inFlight := _inFlightAttributes in
               modify (with___attributes (Some (Dict.set key (prop key inFlight) attrs)))
          else ret tt)
   else ret tt) >>
  modify (with___inFlightAttributes None) >>
  (match errors with
   | Some errors => modify (with__errors (Some errors))
   | None => ret tt
   end) >>
  modify (fun rd => call (notifyErrorsChange (type (identifier rd)) (id (identifier rd))
                            (lid (identifier rd))) rd).

Definition setDirtyAttribute (key : string) (value : JSValue) : RD unit :=
  modify (fun rd => call (notifyPropertyChange (type (identifier rd)) (id (identifier rd))
                            (lid (identifier rd)) (Some key)) rd) >>
  let! attrs := _attributes in
  modify (with___attributes (Some (Dict.set key value attrs))) >>
  let! inFlight := _inFlightAttributes in
  let! originalValue :=
    (if Dict.has key inFlight then ret (prop key inFlight)
     else let! data := _data in ret (prop key data)) in
  if strict_equals value originalValue
  then let! attrs := _attributes in
       modify (with___attributes (Some (Dict.delete key attrs)))
  else ret tt.

Definition getAttr (key : string) : RD JSValue :=
  let! attrs := _attributes in
  if Dict.has key attrs then ret (prop key attrs)
  else let! inFlight := _inFlightAttributes in
       if Dict.has key inFlight then ret (prop key inFlight)
       else let! data := _data in ret (prop key data).

End RecordData.

(** ** Relationship edges and the graph: has-many.ts and the Graph class *)

Module RelationshipGraph.

Inductive RelationshipKind : Type := KindBelongsTo | KindHasMany | KindImplicit.

#[global] Instance RelationshipKind_eq_dec : EqDecision RelationshipKind.
Proof. solve_decision. Defined.

(** Modelled from the spec: the edge definition ([UpgradedMeta] of
    graph/-edge-definition.ts, which is not under src/), with the fields the
    design document lists. *)
Record UpgradedMeta : Type := {
  kind : RelationshipKind;
  definition_type : string;
  key : string;
  inverseKey : string;
  inverseIsAsync : bool;
  inverseIsImplicit : bool;
  isAsync : bool;
  isImplicit : bool;
  isCollection : bool;
}.

(** Modelled from the spec: the state flags of an edge ([RelationshipState]
    of graph/-state.ts, which is not under src/). *)
Record RelationshipState : Type := {
  hasReceivedData : bool;
  isEmpty : bool;
  isStale : bool;
  hasDematerializedInverse : bool;
}.

(** The fields of [ManyRelationship], without the back references [graph] and
    [store].  A [Set] is the list of its elements in insertion order. *)
Record ManyRelationship : Type := {
  definition : UpgradedMeta;
  identifier : StableRecordIdentifier;
  _state : option RelationshipState;
  transactionRef : nat;
  members : list StableRecordIdentifier;
  canonicalMembers : list StableRecordIdentifier;
  meta : option (Dict.t JSValue);
  links : option (Dict.t JSValue);
  canonicalState : list StableRecordIdentifier;
  currentState : list StableRecordIdentifier;
  _willUpdateManyArray : bool;
  _pendingManyArrayUpdates : JSValue;
}.

(** [CollectionResourceRelationship]: each key of the payload is there or not. *)
Record CollectionResourceRelationship : Type := {
  payload_data : option (list StableRecordIdentifier);
  payload_links : option (Dict.t JSValue);
  payload_meta : option (Dict.t JSValue);
}.

Definition new_ManyRelationship (definition : UpgradedMeta) (identifier : StableRecordIdentifier)
  : ManyRelationship :=
  {| definition := definition; identifier := identifier; _state := None; transactionRef := 0;
     members := []; canonicalMembers := []; meta := None; links := None;
     canonicalState := []; currentState := [];
     _willUpdateManyArray := false; _pendingManyArrayUpdates := JSNull |}.

Definition with__state (s : option RelationshipState) (r : ManyRelationship) : ManyRelationship :=
  {| definition := definition r; identifier := identifier r; _state := s;
     transactionRef := transactionRef r; members := members r;
     canonicalMembers := canonicalMembers r; meta := meta r; links := links r;
     canonicalState := canonicalState r; currentState := currentState r;
     _willUpdateManyArray := _willUpdateManyArray r;
     _pendingManyArrayUpdates := _pendingManyArrayUpdates r |}.

Definition with_transactionRef (n : nat) (r : ManyRelationship) : ManyRelationship :=
  {| definition := definition r; identifier := identifier r; _state := _state r;
     transactionRef := n; members := members r;
     canonicalMembers := canonicalMembers r; meta := meta r; links := links r;
     canonicalState := canonicalState r; currentState := currentState r;
     _willUpdateManyArray := _willUpdateManyArray r;
     _pendingManyArrayUpdates := _pendingManyArrayUpdates r |}.

(** [forAllMembers(callback)].  The callback is a function of the caller: it
    runs over the objects that it reaches, of which the edge is one, so that
    it can change the edge; [Heap] is the state of these objects and [this s]
    is the edge as it is in the state [s].  Each of the two loops reads the
    length of its array and the element at the index [i] from the edge
    afresh at every step.  [seen] is the local dictionary of the lids already
    walked.  [rounds] bounds the steps of a loop; [None] is a loop that has
    not come to its end within the bound. *)
Section ForAllMembers.
Context {Heap : Type}.
Variable this : Heap -> ManyRelationship.
Variable callback : StableRecordIdentifier -> Eff Heap unit.


End ForAllMembers.

Definition clear : Eff ManyRelationship unit :=
  modify (fun r =>
    {| definition := definition r; identifier := identifier r; _state := _state r;
       transactionRef := transactionRef r; members := [];
       canonicalMembers := []; meta := meta r; links := links r;
       canonicalState := []; currentState := [];
       _willUpdateManyArray := _willUpdateManyArray r;
       _pendingManyArrayUpdates := _pendingManyArrayUpdates r |}).

Section Edge.
(** The flags [createState()] of graph/-state.ts gives a fresh edge. *)
Variable createState : RelationshipState.

(** The getter [state]: the flags are created when they are first read. *)
Definition state : Eff ManyRelationship RelationshipState :=
  fun r => let s := default createState (_state r) in
           Returned s (with__state (Some s) r).

Definition getData : Eff ManyRelationship CollectionResourceRelationship :=
  let! st := state in
  let! data := (if hasReceivedData st
                then let! current := gets currentState in ret (Some current)
                else ret None) in
  let! links := gets links in
  let! meta := gets meta in
  ret {| payload_data := data;
         payload_links := match links with Some l => Some l | None => None end;
         payload_meta := match meta with Some m => Some m | None => None end |}.
End Edge.

(** Modelled from the spec: the fields of a belongsTo edge
    (relationships/state/belongs-to.ts is not under src/): a local and a
    remote state, each a single nullable identifier, next to the fields every
    edge has. *)
Record BelongsToRelationship : Type := {
  belongsTo_definition : UpgradedMeta;
  belongsTo_identifier : StableRecordIdentifier;
  belongsTo_state : option RelationshipState;
  belongsTo_transactionRef : nat;
  localState : option StableRecordIdentifier;
  remoteState : option StableRecordIdentifier;
  belongsTo_meta : option (Dict.t JSValue);
  belongsTo_links : option (Dict.t JSValue);
}.

(** Modelled from the spec: the fields of an implicit edge
    (relationships/state/implicit.ts is not under src/): the inverse-only
    links, as the two member sets the graph walks. *)
Record ImplicitRelationship : Type := {
  implicit_definition : UpgradedMeta;
  implicit_identifier : StableRecordIdentifier;
  implicit_members : list StableRecordIdentifier;
  implicit_canonicalMembers : list StableRecordIdentifier;
}.

Definition new_BelongsToRelationship (definition : UpgradedMeta) (identifier : StableRecordIdentifier)
  : BelongsToRelationship :=
  {| belongsTo_definition := definition; belongsTo_identifier := identifier;
     belongsTo_state := None; belongsTo_transactionRef := 0;
     localState := None; remoteState := None;
     belongsTo_meta := None; belongsTo_links := None |}.

Definition new_ImplicitRelationship (definition : UpgradedMeta) (identifier : StableRecordIdentifier)
  : ImplicitRelationship :=
  {| implicit_definition := definition; implicit_identifier := identifier;
     implicit_members := []; implicit_canonicalMembers := [] |}.

(** [RelationshipEdge = ImplicitRelationship | ManyRelationship | BelongsToRelationship]. *)
Inductive RelationshipEdge : Type :=
| ManyEdge (r : ManyRelationship)
| BelongsToEdge (r : BelongsToRelationship)
| ImplicitEdge (r : ImplicitRelationship).

Definition edge_definition (rel : RelationshipEdge) : UpgradedMeta :=
  match rel with
  | ManyEdge r => definition r
  | BelongsToEdge r => belongsTo_definition r
  | ImplicitEdge r => implicit_definition r
  end.

Definition edge_identifier (rel : RelationshipEdge) : StableRecordIdentifier :=
  match rel with
  | ManyEdge r => identifier r
  | BelongsToEdge r => belongsTo_identifier r
  | ImplicitEdge r => implicit_identifier r
  end.

(** [v.transactionRef = n] on an edge that can be part of a transaction. *)
Definition edge_with_transactionRef (f : nat -> nat) (rel : RelationshipEdge) : RelationshipEdge :=
  match rel with
  | ManyEdge r => ManyEdge (with_transactionRef (f (transactionRef r)) r)
  | BelongsToEdge r =>
      BelongsToEdge
        {| belongsTo_definition := belongsTo_definition r;
           belongsTo_identifier := belongsTo_identifier r;
           belongsTo_state := belongsTo_state r;
           belongsTo_transactionRef := f (belongsTo_transactionRef r);
           localState := localState r; remoteState := remoteState r;
           belongsTo_meta := belongsTo_meta r; belongsTo_links := belongsTo_links r |}
  | ImplicitEdge r => ImplicitEdge r
  end.

(** [isImplicit(relationship)] of graph/-utils.ts, as the graph itself reads
    it in [push]: [relationship.definition.isImplicit]. *)
Definition edge_isImplicit (rel : RelationshipEdge) : bool := isImplicit (edge_definition rel).

(** An edge object is reached through the node and the field it belongs to. *)
Definition EdgeRef : Type := StableRecordIdentifier * string.

(** The methods of the graph that are handed to the scheduler. *)
Inductive GraphMethod : Type := Method_flushRemoteQueue | Method_flushLocalQueue.

(** The calls the graph makes on its store: [backburner.schedule(queue, this,
    method)] on the run loop of the store. *)
Inductive StoreCall : Type :=
| schedule (queue : string) (method : GraphMethod).

Record PushedUpdates : Type := {
  belongsTo : list Operation;
  hasMany : list Operation;
  deletions : list Operation;
}.

(** The fields of [Graph].  [store] is the collaborator, represented by the
    calls it has received, oldest first; the two caches of edge definitions
    are left to [upgradeDefinition] (see [Collaborators] below). *)
Record Graph : Type := {
  identifiers : gmap StableRecordIdentifier (Dict.t RelationshipEdge);
  store : list StoreCall;
  _willSyncRemote : bool;
  _willSyncLocal : bool;
  _pushedUpdates : PushedUpdates;
  _updatedRelationships : list EdgeRef;
  _transaction : option (list EdgeRef);
  _removing : option StableRecordIdentifier;
}.

Definition G (A : Type) : Type := Eff Graph A.

Definition with_identifiers (v : gmap StableRecordIdentifier (Dict.t RelationshipEdge)) (g : Graph) : Graph :=
  {| identifiers := v; store := store g; _willSyncRemote := _willSyncRemote g;
     _willSyncLocal := _willSyncLocal g; _pushedUpdates := _pushedUpdates g;
     _updatedRelationships := _updatedRelationships g; _transaction := _transaction g;
     _removing := _removing g |}.

Definition with_store (v : list StoreCall) (g : Graph) : Graph :=
  {| identifiers := identifiers g; store := v; _willSyncRemote := _willSyncRemote g;
     _willSyncLocal := _willSyncLocal g; _pushedUpdates := _pushedUpdates g;
     _updatedRelationships := _updatedRelationships g; _transaction := _transaction g;
     _removing := _removing g |}.

Definition with__willSyncRemote (v : bool) (g : Graph) : Graph :=
  {| identifiers := identifiers g; store := store g; _willSyncRemote := v;
     _willSyncLocal := _willSyncLocal g; _pushedUpdates := _pushedUpdates g;
     _updatedRelationships := _updatedRelationships g; _transaction := _transaction g;
     _removing := _removing g |}.

Definition with__pushedUpdates (v : PushedUpdates) (g : Graph) : Graph :=
  {| identifiers := identifiers g; store := store g; _willSyncRemote := _willSyncRemote g;
     _willSyncLocal := _willSyncLocal g; _pushedUpdates := v;
     _updatedRelationships := _updatedRelationships g; _transaction := _transaction g;
     _removing := _removing g |}.

Definition with__updatedRelationships (v : list EdgeRef) (g : Graph) : Graph :=
  {| identifiers := identifiers g; store := store g; _willSyncRemote := _willSyncRemote g;
     _willSyncLocal := _willSyncLocal g; _pushedUpdates := _pushedUpdates g;
     _updatedRelationships := v; _transaction := _transaction g;
     _removing := _removing g |}.

Definition with__transaction (v : option (list EdgeRef)) (g : Graph) : Graph :=
  {| identifiers := identifiers g; store := store g; _willSyncRemote := _willSyncRemote g;
     _willSyncLocal := _willSyncLocal g; _pushedUpdates := _pushedUpdates g;
     _updatedRelationships := _updatedRelationships g; _transaction := v;
     _removing := _removing g |}.

Definition with__removing (v : option StableRecordIdentifier) (g : Graph) : Graph :=
  {| identifiers := identifiers g; store := store g; _willSyncRemote := _willSyncRemote g;
     _willSyncLocal := _willSyncLocal g; _pushedUpdates := _pushedUpdates g;
     _updatedRelationships := _updatedRelationships g; _transaction := _transaction g;
     _removing := v |}.

Definition no_updates : PushedUpdates := {| belongsTo := []; hasMany := []; deletions := [] |}.

(** [constructor]. *)
Definition new_Graph : Graph :=
  {| identifiers := ∅; store := []; _willSyncRemote := false; _willSyncLocal := false;
     _pushedUpdates := no_updates; _updatedRelationships := []; _transaction := None;
     _removing := None |}.

(** What the graph module imports from modules that are not under src/:
    the edge definitions, the five operation modules, the payload check of
    debug builds, and the rendering of an identifier in a message.  The two
    helper functions at the end of the graph module, [destroyRelationship]
    and [removeCompletelyFromInverse], walk the related nodes through the
    methods of the belongsTo and implicit edge classes, which are not under
    src/ either; they are taken here as computations over the graph. *)
Record Collaborators : Type := {
  (** [upgradeDefinition(graph, identifier, propertyName)], and then the side
      [isLHS] picks; [None] when no definition is found *)
  definitionFor : StableRecordIdentifier -> string -> option UpgradedMeta;
  assertValidRelationshipPayload : Operation -> G unit;
  updateRelationshipOperation : Operation -> G unit;
  replaceRelatedRecord : Operation -> bool -> G unit;
  addToRelatedRecords : Operation -> bool -> G unit;
  removeFromRelatedRecords : Operation -> bool -> G unit;
  replaceRelatedRecords : Operation -> bool -> G unit;
  destroyRelationship : RelationshipEdge -> G unit;
  removeCompletelyFromInverse : RelationshipEdge -> G unit;
  (** [String(identifier)] *)
  identifier_toString : option StableRecordIdentifier -> string;
}.

Section Methods.
Variable c : Collaborators.

Definition relationships_of (identifier : StableRecordIdentifier) (g : Graph)
  : option (Dict.t RelationshipEdge) :=
  identifiers g !! identifier.

(** [relationships[key] = rel] on the dictionary of a node. *)
Definition set_edge (identifier : StableRecordIdentifier) (key : string)
    (rel : RelationshipEdge) (g : Graph) : Graph :=
  match relationships_of identifier g with
  | Some relationships =>
      with_identifiers (<[identifier := Dict.set key rel relationships]> (identifiers g)) g
  | None => g
  end.

(** [delete relationships[key]] on the dictionary of a node. *)
Definition delete_edge (identifier : StableRecordIdentifier) (key : string) (g : Graph) : Graph :=
  match relationships_of identifier g with
  | Some relationships =>
      with_identifiers (<[identifier := Dict.delete key relationships]> (identifiers g)) g
  | None => g
  end.

Definition has (identifier : StableRecordIdentifier) (propertyName : string) : G bool :=
  gets (fun g => match relationships_of identifier g with
                 | Some relationships => Dict.has propertyName relationships
                 | None => false
                 end).

Definition get (identifier : StableRecordIdentifier) (propertyName : string) : G RelationshipEdge :=
  assert "expected propertyName" (negb (bool_decide (propertyName = ""))) >>
  let! found := gets (relationships_of identifier) in
  let! relationships :=
    (match found with
     | Some relationships => ret relationships
     | None => modify (fun g => with_identifiers (<[identifier := Dict.empty]> (identifiers g)) g) >>
               ret Dict.empty
     end) in
  match Dict.get propertyName relationships with
  | Some relationship => ret relationship
  | None =>
      match definitionFor c identifier propertyName with
      | None =>
          throw (AssertionFailed ("Could not determine relationship information for "
                                    ++ type identifier ++ "." ++ propertyName)%string)
      | Some meta =>
          let relationship :=
            match kind meta with
            | KindHasMany => ManyEdge (new_ManyRelationship meta identifier)
            | KindBelongsTo => BelongsToEdge (new_BelongsToRelationship meta identifier)
            | KindImplicit => ImplicitEdge (new_ImplicitRelationship meta identifier)
            end in
          modify (set_edge identifier propertyName relationship) >>
          ret relationship
      end
  end.

(** The loop of [unload] runs over the keys the dictionary of the node had
    when it started and reads [relationships[key]] from the dictionary as it
    is at that step, since [destroyRelationship] works on the same object.
    The dictionary of a node is identified with the node here: a collaborator
    that takes the node out of [identifiers] during the loop is beyond this
    model, in which the read then finds nothing. *)
Definition unload (identifier : StableRecordIdentifier) : G unit :=
  let! found := gets (relationships_of identifier) in
  match found with
  | Some relationships =>
      forEach (Dict.keys relationships) (fun key =>
        let! now := gets (relationships_of identifier) in
        match Dict.get key (default Dict.empty now) with
        | Some rel =>
            destroyRelationship c rel >>
            if edge_isImplicit rel then modify (delete_edge identifier key) else ret tt
        | None => throw (JsError "TypeError: relationships[key] is undefined")
        end)
  | None => ret tt
  end.

Definition remove (identifier : StableRecordIdentifier) : G unit :=
  let! removing := gets _removing in
  assert ("Cannot remove " ++ identifier_toString c (Some identifier)
            ++ " while still removing " ++ identifier_toString c removing)%string
    (bool_decide (removing = None)) >>
  modify (with__removing (Some identifier)) >>
  unload identifier >>
  modify (fun g => with_identifiers (delete identifier (identifiers g)) g) >>
  modify (with__removing None).

Definition push_belongsTo (o : Operation) (g : Graph) : Graph :=
  with__pushedUpdates
    {| belongsTo := belongsTo (_pushedUpdates g) ++ [o];
       hasMany := hasMany (_pushedUpdates g);
       deletions := deletions (_pushedUpdates g) |} g.

Definition push_hasMany (o : Operation) (g : Graph) : Graph :=
  with__pushedUpdates
    {| belongsTo := belongsTo (_pushedUpdates g);
       hasMany := hasMany (_pushedUpdates g) ++ [o];
       deletions := deletions (_pushedUpdates g) |} g.

Definition push_deletions (o : Operation) (g : Graph) : Graph :=
  with__pushedUpdates
    {| belongsTo := belongsTo (_pushedUpdates g);
       hasMany := hasMany (_pushedUpdates g);
       deletions := deletions (_pushedUpdates g) ++ [o] |} g.

Definition push (o : Operation) : G unit :=
  (match op o with
   | OpDeleteRecord => modify (push_deletions o)
   | OpReplaceRelatedRecord => modify (push_belongsTo o)
   | _ =>
       let! relationship := get (record o) (field o) in
       assert "Cannot push a remote update for an implicit relationship"
         (negb (isImplicit (edge_definition relationship))) >>
       match kind (edge_definition relationship) with
       | KindBelongsTo => modify (push_belongsTo o)
       | KindHasMany => modify (push_hasMany o)
       | KindImplicit => throw (JsError "TypeError: this._pushedUpdates.implicit is undefined")
       end
   end) >>
  let! willSyncRemote := gets _willSyncRemote in
  if negb willSyncRemote
  then modify (with__willSyncRemote true) >>
       modify (fun g => with_store (store g ++ [schedule "coalesce" Method_flushRemoteQueue]) g)
  else ret tt.

Definition update (o : Operation) (isRemote : bool) : G unit :=
  (if bool_decide (op o = OpDeleteRecord) then ret tt
   else let! relationship := get (record o) (field o) in
        assert "Cannot update an implicit relationship" (negb (edge_isImplicit relationship))) >>
  match op o with
  | OpUpdateRelationship =>
      assert "Can only perform the operation updateRelationship on remote state" isRemote >>
      assertValidRelationshipPayload c o >>
      updateRelationshipOperation c o
  | OpDeleteRecord =>
      assert "Can only perform the operation deleteRelationship on remote state" isRemote >>
      let identifier := record o in
      let! found := gets (relationships_of identifier) in
      match found with
      | Some relationships =>
          forEach (Dict.keys relationships) (fun key =>
            let! now := gets (relationships_of identifier) in
            match Dict.get key (default Dict.empty now) with
            | Some rel =>
                modify (delete_edge identifier key) >>
                removeCompletelyFromInverse c rel
            | None => throw (JsError "TypeError: relationship is undefined")
            end) >>
          modify (fun g => with_identifiers (delete identifier (identifiers g)) g)
      | None => ret tt
      end
  | OpReplaceRelatedRecord => replaceRelatedRecord c o isRemote
  | OpAddToRelatedRecords => addToRelatedRecords c o isRemote
  | OpRemoveFromRelatedRecords => removeFromRelatedRecords c o isRemote
  | OpReplaceRelatedRecords => replaceRelatedRecords c o isRemote
  | OpUnknown name =>
      throw (AssertionFailed
               ("No local relationship update operation exists for '" ++ name ++ "'")%string)
  end.

(** [v.transactionRef = n] on the edge object behind a reference. *)
Definition update_edge (ref : EdgeRef) (f : RelationshipEdge -> RelationshipEdge) (g : Graph) : Graph :=
  match relationships_of ref.1 g with
  | Some relationships =>
      match Dict.get ref.2 relationships with
      | Some rel => set_edge ref.1 ref.2 (f rel) g
      | None => g
      end
  | None => g
  end.

Definition _addToTransaction (relationship : EdgeRef) : G unit :=
  let! transaction := gets _transaction in
  match transaction with
  | None => throw (AssertionFailed "expected a transaction")
  | Some touched =>
      modify (update_edge relationship (edge_with_transactionRef S)) >>
      modify (with__transaction
                (Some (if bool_decide (@elem_of _ (list EdgeRef) _ relationship touched)
                       then touched else touched ++ [relationship])))
  end.

Definition _finalize : G unit :=
  let! transaction := gets _transaction in
  match transaction with
  | Some touched =>
      forEach touched (fun v => modify (update_edge v (edge_with_transactionRef (fun _ => 0)))) >>
      modify (with__transaction None)
  | None => ret tt
  end.

Definition _flushRemoteQueue : G unit :=
  let! willSyncRemote := gets _willSyncRemote in
  if negb willSyncRemote then ret tt
  else
    modify (with__transaction (Some [])) >>
    modify (with__willSyncRemote false) >>
    let! pushed := gets _pushedUpdates in
    modify (with__pushedUpdates no_updates) >>
    forEach (deletions pushed) (fun o => update o true) >>
    forEach (hasMany pushed) (fun o => update o true) >>
    forEach (belongsTo pushed) (fun o => update o true) >>
    _finalize.

End Methods.
End RelationshipGraph.

(** ** The fetch manager: fetch-manager.ts *)

Module Fetch.

(** [FindOptions]: an object, or [undefined]. *)
Definition FindOptions : Type := option (Dict.t JSValue).

(** A resource of a normalized document. *)
Record ResourceObject : Type := {
  resource_id : string;
  resource_type : string;
  resource_body : JSValue;
}.


(** What a coalesced fetch resolves a pending fetch with:
    [{ data: payload, included }]. *)
Record SingleResourceDocument : Type := {
  document_data : ResourceObject;
  document_included : list ResourceObject;
}.

Inductive Settlement : Type :=
| Resolved (document : SingleResourceDocument)
| Rejected (error : Exception).

(** An [RSVP.Deferred]: its promise, and how the promise was settled, if it
    was.  A promise is the number it got when it was created. *)
Record Deferred : Type := {
  deferred_promise : nat;
  settlement : option Settlement;
}.


(** [Request], with its one [FindRecordQuery]. *)
Record Request : Type := {
  request_op : string;
  recordIdentifier : StableRecordIdentifier;
  request_options : FindOptions;
}.

Record PendingFetchItem : Type := {
  identifier : StableRecordIdentifier;
  queryRequest : Request;
  resolver : Deferred;
  options : FindOptions;
  promise : nat;
}.


(** The part of a [Snapshot] the fetch manager reads. *)
Record Snapshot : Type := {
  snapshot_id : option string;
  modelName : string;
  snapshot_identifier : StableRecordIdentifier;
  snapshot_options : FindOptions;
}.

Definition new_Snapshot (options : FindOptions) (identifier : StableRecordIdentifier) : Snapshot :=
  {| snapshot_id := id identifier; modelName := type identifier;
     snapshot_identifier := identifier; snapshot_options := options |}.

(** The calls of the fetch manager on its collaborators: the run loop, the
    request cache and the adapter. *)
Inductive CollaboratorCall : Type :=
| schedule (queue : string) (method : string)
| enqueue (promise : nat) (request : Request)
| findRecord (modelName : string) (id : option string) (snapshot : Snapshot)
| findMany (modelName : string) (ids : list (option string)) (snapshots : list Snapshot).

(** The fields of [FetchManager]: [_pendingFetch] is a [Map] from the model
    name, in insertion order; [calls] are the calls made so far, oldest
    first; [promises] counts the promises created so far. *)
Record FetchManager : Type := {
  isDestroyed : bool;
  _pendingFetch : Dict.t (list PendingFetchItem);
  calls : list CollaboratorCall;
  promises : nat;
}.

Definition FM (A : Type) : Type := Eff FetchManager A.

Definition new_FetchManager : FetchManager :=
  {| isDestroyed := false; _pendingFetch := Dict.empty; calls := []; promises := 0 |}.

Definition with__pendingFetch (v : Dict.t (list PendingFetchItem)) (m : FetchManager) : FetchManager :=
  {| isDestroyed := isDestroyed m; _pendingFetch := v; calls := calls m; promises := promises m |}.

Definition call (c : CollaboratorCall) (m : FetchManager) : FetchManager :=
  {| isDestroyed := isDestroyed m; _pendingFetch := _pendingFetch m;
     calls := calls m ++ [c]; promises := promises m |}.

(** A new promise. *)
Definition new_promise : FM nat :=
  fun m => Returned (promises m)
             {| isDestroyed := isDestroyed m; _pendingFetch := _pendingFetch m;
                calls := calls m; promises := S (promises m) |}.

(** [isSameRequest(options = {}, reqOptions = {})]. *)
Definition isSameRequest (options reqOptions : FindOptions) : bool :=
  strict_equals (prop "include" (default Dict.empty options))
                (prop "include" (default Dict.empty reqOptions)).

Definition getPendingFetch (identifier0 : StableRecordIdentifier) (options0 : FindOptions)
  : FM (option nat) :=
  let! pendingFetches := gets (fun m => Dict.get (type identifier0) (_pendingFetch m)) in
  match pendingFetches with
  | Some pendingFetches =>
      match List.find (fun fetch => bool_decide (identifier fetch = identifier0)) pendingFetches with
      | Some matchingPendingFetch =>
          if isSameRequest options0 (options matchingPendingFetch)
          then ret (Some (promise matchingPendingFetch))
          else ret None
      | None => ret None
      end
  | None => ret None
  end.

Definition scheduleFetch (identifier0 : StableRecordIdentifier) (options0 : FindOptions) : FM nat :=
  let queryRequest :=
    {| request_op := "findRecord"; recordIdentifier := identifier0; request_options := options0 |} in
  let! pendingFetch := getPendingFetch identifier0 options0 in
  match pendingFetch with
  | Some pendingFetch => ret pendingFetch
  | None =>
      let modelName := type identifier0 in
      let! resolverPromise := new_promise in
      let resolver := {| deferred_promise := resolverPromise; settlement := None |} in
      let! promise := new_promise in
      let pendingFetchItem :=
        {| identifier := identifier0; queryRequest := queryRequest; resolver := resolver;
           options := options0; promise := promise |} in
      let! size := gets (fun m => length (_pendingFetch m)) in
      (if bool_decide (size = 0)
       then modify (call (schedule "actions" "flushAllPendingFetches"))
       else ret tt) >>
      let! fetches := gets _pendingFetch in
      (if negb (Dict.has modelName fetches)
       then modify (with__pendingFetch (Dict.set modelName [] fetches))
       else ret tt) >>
      let! fetches := gets _pendingFetch in
      modify (with__pendingFetch
                (Dict.set modelName
                   (default [] (Dict.get modelName fetches) ++ [pendingFetchItem]) fetches)) >>
      modify (call (enqueue resolverPromise queryRequest)) >>
      ret promise
  end.

(** All the pending fetches of the table, in the order of the table. *)
Definition pending (m : FetchManager) : list PendingFetchItem :=
  concat (map snd (_pendingFetch m)).













Section Adapter.
(** [!!adapter.findMany && adapter.coalesceFindRequests] of the adapter for a
    model name, and its [groupRecordsForFindMany], when it has one. *)
Variable shouldCoalesce : string -> bool.
Variable groupRecordsForFindMany : string -> option (list Snapshot -> list (list Snapshot)).

(** [_fetchRecord], as far as [calls] keeps account of it: the
    [adapter.findRecord] request for the pending fetch, with the snapshot
    made for it.  The code queues the call for a later microtask
    ([resolve().then]) and hands the resolver the promise of the answer; the
    two asserts on the adapter and the promises made on the way are not
    represented. *)
Definition _fetchRecord (fetchItem : PendingFetchItem) : FM unit :=
  let identifier0 := identifier fetchItem in
  let snapshot := new_Snapshot (options fetchItem) identifier0 in
  modify (call (findRecord (type identifier0) (id identifier0) snapshot)).

(** [_processCoalescedGroup]: one [adapter.findMany] request for a group of
    several snapshots, [_fetchRecord] for a group of one.  [_findMany] throws
    when [adapter.findMany] returns [undefined]; the adapter is taken to
    return a promise, and the promises made of it are not represented. *)
Definition _processCoalescedGroup (seeking0 : Dict.t PendingFetchItem) (group : list Snapshot)
    (modelName0 : string) : FM unit :=
  match group with
  | [] => throw (AssertionFailed
                   "You cannot return an empty array from adapter's method groupRecordsForFindMany")
  | [snapshot] =>
      match Dict.get (default "null" (snapshot_id snapshot)) seeking0 with
      | Some item => _fetchRecord item
      | None => throw (JsError "TypeError: fetchItem is undefined")
      end
  | _ :: _ :: _ => modify (call (findMany modelName0 (map snapshot_id group) group))
  end.

Definition _flushPendingFetchForType (pendingFetchItems : list PendingFetchItem)
    (modelName0 : string) : FM unit :=
  let identifiers := map identifier pendingFetchItems in
  let optionsMap : gmap StableRecordIdentifier FindOptions :=
    fold_left (fun optionsMap pendingItem =>
                 <[identifier pendingItem := options pendingItem]> optionsMap)
      pendingFetchItems ∅ in
  let seeking0 :=
    fold_left (fun seeking0 pendingItem =>
                 Dict.set (default "null" (id (identifier pendingItem))) pendingItem seeking0)
      pendingFetchItems Dict.empty in
  if shouldCoalesce modelName0
  then
    let snapshots :=
      map (fun identifier0 => new_Snapshot (default None (optionsMap !! identifier0)) identifier0)
        identifiers in
    let groups :=
      match groupRecordsForFindMany modelName0 with
      | Some grouping => grouping snapshots
      | None => [snapshots]
      end in
    forEach groups (fun group => _processCoalescedGroup seeking0 group modelName0)
  else forEach pendingFetchItems _fetchRecord.

Definition flushAllPendingFetches : FM unit :=
  let! destroyed := gets isDestroyed in
  if destroyed then ret tt
  else
    let! fetches := gets _pendingFetch in
    forEach fetches (fun entry => _flushPendingFetchForType entry.2 entry.1) >>
    modify (with__pendingFetch Dict.empty).
End Adapter.

End Fetch.

(** ** The record cache: errors, deletion, commit and rollback *)

Module RecordDataLifecycle.
Import RecordData.

Definition with__isDeleted (b : bool) (rd : RecordDataDefault) : RecordDataDefault :=
  {| identifier := identifier rd; isDestroyed := isDestroyed rd; _isNew := _isNew rd;
     _isDeleted := b; __attributes := __attributes rd;
     __inFlightAttributes := __inFlightAttributes rd; __data := __data rd;
     _errors := _errors rd; storeWrapper := storeWrapper rd |}.

Definition _clearErrors : RD unit :=
  let! errors := gets _errors in
  match errors with
  | Some _ =>
      modify (with__errors None) >>
      modify (fun rd => call (notifyErrorsChange (type (identifier rd)) (id (identifier rd))
                                (lid (identifier rd))) rd)
  | None => ret tt
  end.

(** [isEmpty()] reads the three fields themselves, not their getters. *)
Definition isEmpty : RD bool :=
  gets (fun rd => match __attributes rd, __inFlightAttributes rd, __data rd with
                  | None, None, None => true
                  | _, _, _ => false
                  end).

Definition isDeleted : RD bool := gets _isDeleted.

Definition reset : RD unit :=
  modify (with___attributes None) >>
  modify (with___inFlightAttributes None) >>
  modify (with___data None) >>
  modify (with__errors None).

Definition hasAttr (key : string) : RD bool :=
  let! attrs := _attributes in
  if Dict.has key attrs then ret true
  else let! inFlight := _inFlightAttributes in
       if Dict.has key inFlight then ret true
       else let! data := _data in ret (Dict.has key data).

(** The calls of the methods below: those of [WrapperCall], and two more,
    [storeWrapper.setRecordId(modelName, id, lid)] and the [deleteRecord]
    operation that [removeFromInverseRelationships] pushes to the graph,
    which carries the flag [isNew]. *)
Inductive CacheCall : Type :=
| wrapper_call (c : WrapperCall)
| setRecordId (modelName : string) (id : string) (lid : string)
| graph_push_deleteRecord (record : StableRecordIdentifier) (isNew : bool).

(** The record cache with the field [_isDeletionCommited], which the class
    declares and the constructor leaves [undefined], and with all the calls
    made so far, oldest first.  The calls that a method of [RecordData]
    enters in [storeWrapper] of [fields] are moved to [calls] when the method
    is over. *)
Record Cache : Type := {
  fields : RecordDataDefault;
  _isDeletionCommited : option bool;
  calls : list CacheCall;
}.

Definition C (A : Type) : Type := Eff Cache A.

Definition new (identifier : StableRecordIdentifier) : Cache :=
  {| fields := RecordData.new identifier; _isDeletionCommited := None; calls := [] |}.

(** The fields of the record cache, with the calls on the store wrapper
    taken out. *)
Definition taken (rd : RecordDataDefault) : RecordDataDefault :=
  {| identifier := identifier rd; isDestroyed := isDestroyed rd; _isNew := _isNew rd;
     _isDeleted := _isDeleted rd; __attributes := __attributes rd;
     __inFlightAttributes := __inFlightAttributes rd; __data := __data rd;
     _errors := _errors rd; storeWrapper := [] |}.

Definition entered (rd : RecordDataDefault) (s : Cache) : Cache :=
  {| fields := taken rd; _isDeletionCommited := _isDeletionCommited s;
     calls := calls s ++ map wrapper_call (storeWrapper rd) |}.

(** A method of [RecordData], run on the fields of the record cache. *)
Definition lift {A} (m : RD A) : C A :=
  fun s => match m (fields s) with
           | Returned a rd => Returned a (entered rd s)
           | Threw e rd => Threw e (entered rd s)
           end.

Definition log_call (c : CacheCall) (s : Cache) : Cache :=
  {| fields := fields s; _isDeletionCommited := _isDeletionCommited s;
     calls := calls s ++ [c] |}.

Definition with__isDeletionCommited (v : option bool) (s : Cache) : Cache :=
  {| fields := fields s; _isDeletionCommited := v; calls := calls s |}.

Definition isDeletionCommitted : C (option bool) := gets _isDeletionCommited.

Definition with_identifier (v : StableRecordIdentifier) (rd : RecordDataDefault)
  : RecordDataDefault :=
  {| identifier := v; isDestroyed := isDestroyed rd; _isNew := _isNew rd;
     _isDeleted := _isDeleted rd; __attributes := __attributes rd;
     __inFlightAttributes := __inFlightAttributes rd; __data := __data rd;
     _errors := _errors rd; storeWrapper := storeWrapper rd |}.

(** Modelled from the spec: what [storeWrapper.setRecordId(modelName, id,
    lid)] does to the identifier of the record; the store wrapper is not
    under src/.  The design document has an identifier never mutated, except
    for the assignment of its [id] when a client-created record is confirmed:
    an identifier that has no id gets the id, and one that has an id keeps
    it.  The getter [id] of the record cache, and [_notifyAttributes], read
    the identifier each time they are called. *)
Definition assigned (id0 : string) (identifier0 : StableRecordIdentifier)
  : StableRecordIdentifier :=
  match id identifier0 with
  | Some _ => identifier0
  | None => {| type := type identifier0; id := Some id0; lid := lid identifier0 |}
  end.

Definition setRecordId_ (modelName0 id0 lid0 : string) : C unit :=
  modify (log_call (setRecordId modelName0 id0 lid0)) >>
  lift (modify (fun rd => with_identifier (assigned id0 (identifier rd)) rd)).

Definition removeFromInverseRelationships : C unit :=
  let! isNew := lift isNew in
  modify (fun s => log_call (graph_push_deleteRecord (identifier (fields s)) isNew) s).

Definition _deletionConfirmed : C unit := removeFromInverseRelationships.

Definition setIsDeleted (isDeleted : bool) : C unit :=
  lift (modify (with__isDeleted isDeleted)) >>
  let! isNew := lift (gets _isNew) in
  (if isNew then _deletionConfirmed else ret tt) >>
  lift notifyStateChange_.

Definition rollbackAttributes : C (option (list string)) :=
  lift (modify (with__isDeleted false)) >>
  let! changed := lift hasChangedAttributes in
  let! dirtyKeys :=
    (if changed
     then let! attrs := lift _attributes in
          lift (modify (with___attributes None)) >>
          ret (Some (Dict.keys attrs))
     else ret None) in
  let! new := lift isNew in
  (if new
   then removeFromInverseRelationships >>
        lift (modify (with__isDeleted true)) >>
        lift (modify (with__isNew false))
   else ret tt) >>
  lift (modify (with___inFlightAttributes None)) >>
  lift _clearErrors >>
  lift notifyStateChange_ >>
  (match dirtyKeys with
   | Some (k :: ks) => lift (_notifyAttributes (k :: ks))
   | _ => ret tt
   end) >>
  ret dirtyKeys.

Section Collaborators.
Variable isEqual : JSValue -> JSValue -> bool.
Variable relationshipsDefinitionFor : string -> list string.

Definition didCommit (data : option JsonApiResource) : C (list string) :=
  let! deleted := lift (gets _isDeleted) in
  (if deleted
   then _deletionConfirmed >> modify (with__isDeletionCommited (Some true))
   else ret tt) >>
  lift (modify (with__isNew false)) >>
  let! newCanonicalAttributes :=
    (match data with
     | Some data =>
         (match resource_id data with
          | Some id0 =>
              if negb (bool_decide (id0 = ""))
              then let! modelName0 := lift (gets (fun rd => type (identifier rd))) in
                   let! lid0 := lift (gets (fun rd => lid (identifier rd))) in
                   setRecordId_ modelName0 id0 lid0
              else ret tt
          | None => ret tt
          end) >>
         (match relationships data with
          | Some rels => lift (_setupRelationships relationshipsDefinitionFor rels)
          | None => ret tt
          end) >>
         ret (attributes data)
     | None => ret None
     end) in
  let! changedKeys := lift (_changedKeys isEqual newCanonicalAttributes) in
  let! d := lift _data in
  let! inFlight := lift (gets __inFlightAttributes) in
  lift (modify (with___data
                  (Some (Dict.assign (Dict.assign d (default Dict.empty inFlight))
                           (default Dict.empty newCanonicalAttributes))))) >>
  lift (modify (with___inFlightAttributes None)) >>
  lift _updateChangedAttributes >>
  lift (_notifyAttributes changedKeys) >>
  lift _clearErrors >>
  lift notifyStateChange_ >>
  ret changedKeys.

End Collaborators.

End RecordDataLifecycle.

(** ** The graph: release, polymorphic types and the local queue *)

Module GraphMaintenance.
Import RelationshipGraph.

(** The loop of [isReleasable], which returns at the first edge whose
    inverse is async. *)
Fixpoint isReleasable_loop (relationships : Dict.t RelationshipEdge) (keys : list string)
  : G bool :=
  match keys with
  | [] => ret true
  | key :: rest =>
      match Dict.get key relationships with
      | Some relationship =>
          if inverseIsAsync (edge_definition relationship) then ret false
          else isReleasable_loop relationships rest
      | None => throw (AssertionFailed "Expected a relationship")
      end
  end.

Definition isReleasable (identifier : StableRecordIdentifier) : G bool :=
  let! found := gets (relationships_of identifier) in
  match found with
  | None => ret true
  | Some relationships => isReleasable_loop relationships (Dict.keys relationships)
  end.

(** [registerPolymorphicType(type1, type2)], on the field
    [_potentialPolymorphicTypes] of the graph, the only one it reads or
    writes.  [t1] and [t2] are the dictionaries of the cache themselves: what
    is written to them is written to the cache. *)
Definition registerPolymorphicType (type1 type2 : string) : Eff (Dict.t (Dict.t bool)) unit :=
  let! t1 := gets (Dict.get type1) in
  let! t1 := (match t1 with
              | Some t1 => ret t1
              | None => modify (Dict.set type1 Dict.empty) >> ret Dict.empty
              end) in
  modify (Dict.set type1 (Dict.set type2 true t1)) >>
  let! t2 := gets (Dict.get type2) in
  let! t2 := (match t2 with
              | Some t2 => ret t2
              | None => modify (Dict.set type2 Dict.empty) >> ret Dict.empty
              end) in
  modify (Dict.set type2 (Dict.set type1 true t2)).

Definition with__willSyncLocal (v : bool) (g : Graph) : Graph :=
  {| identifiers := identifiers g; store := store g; _willSyncRemote := _willSyncRemote g;
     _willSyncLocal := v; _pushedUpdates := _pushedUpdates g;
     _updatedRelationships := _updatedRelationships g; _transaction := _transaction g;
     _removing := _removing g |}.

(** [this._updatedRelationships.add(relationship)]. *)
Definition add_updated (relationship : EdgeRef) (g : Graph) : Graph :=
  with__updatedRelationships
    (if bool_decide (@elem_of _ (list EdgeRef) _ relationship (_updatedRelationships g))
     then _updatedRelationships g
     else _updatedRelationships g ++ [relationship]) g.

Definition _scheduleLocalSync (relationship : EdgeRef) : G unit :=
  modify (add_updated relationship) >>
  let! willSyncLocal := gets _willSyncLocal in
  if negb willSyncLocal
  then modify (with__willSyncLocal true) >>
       modify (fun g => with_store (store g ++ [schedule "sync" Method_flushLocalQueue]) g)
  else ret tt.

Section LocalQueue.
(** [syncRemoteToLocal] of operations/replace-related-records.ts, which is
    not under src/. *)
Variable syncRemoteToLocal : EdgeRef -> G unit.

Definition _flushLocalQueue : G unit :=
  let! willSyncLocal := gets _willSyncLocal in
  if negb willSyncLocal then ret tt
  else
    modify (with__willSyncLocal false) >>
    let! updated := gets _updatedRelationships in
    modify (with__updatedRelationships []) >>
    forEach updated syncRemoteToLocal.

End LocalQueue.

End GraphMaintenance.

(** ** The hasMany edge: removal and dematerialization *)

Module HasManyRemoval.
Import RelationshipGraph.

(** [store.notifyHasManyChange(type, id, lid, key)]. *)
Inductive WrapperCall : Type :=
| notifyHasManyChange (type : string) (id : option string) (lid : string) (key : string).

(** A hasMany edge with what it reaches through its back references: the
    slot [_removing] of its graph, which it reads, and its store wrapper,
    represented by the calls it has received, oldest first. *)
Record Edge : Type := {
  relationship : ManyRelationship;
  graph__removing : option StableRecordIdentifier;
  store : list WrapperCall;
}.

Definition E (A : Type) : Type := Eff Edge A.

Definition with_relationship (r : ManyRelationship) (e : Edge) : Edge :=
  {| relationship := r; graph__removing := graph__removing e; store := store e |}.

Definition with_members (v : list StableRecordIdentifier) (r : ManyRelationship) : ManyRelationship :=
  {| definition := definition r; identifier := identifier r; _state := _state r;
     transactionRef := transactionRef r; members := v;
     canonicalMembers := canonicalMembers r; meta := meta r; links := links r;
     canonicalState := canonicalState r; currentState := currentState r;
     _willUpdateManyArray := _willUpdateManyArray r;
     _pendingManyArrayUpdates := _pendingManyArrayUpdates r |}.

Definition with_canonicalMembers (v : list StableRecordIdentifier) (r : ManyRelationship)
  : ManyRelationship :=
  {| definition := definition r; identifier := identifier r; _state := _state r;
     transactionRef := transactionRef r; members := members r;
     canonicalMembers := v; meta := meta r; links := links r;
     canonicalState := canonicalState r; currentState := currentState r;
     _willUpdateManyArray := _willUpdateManyArray r;
     _pendingManyArrayUpdates := _pendingManyArrayUpdates r |}.

Definition with_canonicalState (v : list StableRecordIdentifier) (r : ManyRelationship)
  : ManyRelationship :=
  {| definition := definition r; identifier := identifier r; _state := _state r;
     transactionRef := transactionRef r; members := members r;
     canonicalMembers := canonicalMembers r; meta := meta r; links := links r;
     canonicalState := v; currentState := currentState r;
     _willUpdateManyArray := _willUpdateManyArray r;
     _pendingManyArrayUpdates := _pendingManyArrayUpdates r |}.

Definition with_currentState (v : list StableRecordIdentifier) (r : ManyRelationship)
  : ManyRelationship :=
  {| definition := definition r; identifier := identifier r; _state := _state r;
     transactionRef := transactionRef r; members := members r;
     canonicalMembers := canonicalMembers r; meta := meta r; links := links r;
     canonicalState := canonicalState r; currentState := v;
     _willUpdateManyArray := _willUpdateManyArray r;
     _pendingManyArrayUpdates := _pendingManyArrayUpdates r |}.

(** [set.delete(x)] on a [Set]. *)
Definition set_delete (x : StableRecordIdentifier) (set : list StableRecordIdentifier)
  : list StableRecordIdentifier :=
  List.filter (fun y => negb (bool_decide (y = x))) set.

(** [array.indexOf(x)]: the first index of [x], if there is one. *)
Fixpoint indexOf (x : StableRecordIdentifier) (array : list StableRecordIdentifier)
  : option nat :=
  match array with
  | [] => None
  | y :: rest => if bool_decide (y = x) then Some 0 else S <$> indexOf x rest
  end.

(** [array.splice(index, 1)]. *)
Definition splice_one (index : nat) (array : list StableRecordIdentifier)
  : list StableRecordIdentifier :=
  take index array ++ drop (S index) array.

Definition notifyHasManyChange_ : E unit :=
  let! identifier0 := gets (fun e => identifier (relationship e)) in
  let! removing := gets graph__removing in
  if bool_decide (Some identifier0 = removing) then ret tt
  else modify (fun e =>
         {| relationship := relationship e; graph__removing := graph__removing e;
            store := store e ++ [notifyHasManyChange (type identifier0) (id identifier0)
                                   (lid identifier0) (key (definition (relationship e)))] |}).

Definition removeCompletelyFromOwn (identifier0 : StableRecordIdentifier) : E unit :=
  modify (fun e => with_relationship
                     (with_canonicalMembers
                        (set_delete identifier0 (canonicalMembers (relationship e)))
                        (relationship e)) e) >>
  modify (fun e => with_relationship
                     (with_members (set_delete identifier0 (members (relationship e)))
                        (relationship e)) e) >>
  let! canonicalIndex := gets (fun e => indexOf identifier0 (canonicalState (relationship e))) in
  (match canonicalIndex with
   | Some canonicalIndex =>
       modify (fun e => with_relationship
                          (with_canonicalState
                             (splice_one canonicalIndex (canonicalState (relationship e)))
                             (relationship e)) e)
   | None => ret tt
   end) >>
  let! currentIndex := gets (fun e => indexOf identifier0 (currentState (relationship e))) in
  match currentIndex with
  | Some currentIndex =>
      modify (fun e => with_relationship
                         (with_currentState
                            (splice_one currentIndex (currentState (relationship e)))
                            (relationship e)) e) >>
      notifyHasManyChange_
  | None => ret tt
  end.

Section Edge.
(** [createState()] of graph/-state.ts and [isNew] of graph/-utils.ts, which
    are not under src/. *)
Variable createState : RelationshipState.
Variable isNew : StableRecordIdentifier -> bool.

(** [this.state.hasDematerializedInverse = true], through the getter
    [state]. *)
Definition set_hasDematerializedInverse : E unit :=
  modify (fun e =>
    let st := default createState (_state (relationship e)) in
    with_relationship
      (with__state (Some {| hasReceivedData := hasReceivedData st; isEmpty := isEmpty st;
                            isStale := isStale st; hasDematerializedInverse := true |})
         (relationship e)) e).

Definition inverseDidDematerialize (inverseIdentifier : StableRecordIdentifier) : E unit :=
  let! async := gets (fun e => isAsync (definition (relationship e))) in
  (if negb async || isNew inverseIdentifier
   then removeCompletelyFromOwn inverseIdentifier
   else set_hasDematerializedInverse) >>
  notifyHasManyChange_.

End Edge.

End HasManyRemoval.

(** ** The record cache: the records related to a record *)

Module RelatedRecords.
Import RelationshipGraph.

(** [getLocalState(rel)] and [getRemoteState(rel)].  [None] is [undefined]:
    the state array of an edge that is not a hasMany edge, which has no such
    field. *)
Definition getLocalState (rel : RelationshipEdge) : option (list StableRecordIdentifier) :=
  if bool_decide (kind (edge_definition rel) = KindBelongsTo)
  then Some (match rel with
             | BelongsToEdge r => match localState r with Some x => [x] | None => [] end
             | _ => []
             end)
  else match rel with
       | ManyEdge r => Some (currentState r)
       | _ => None
       end.

Definition getRemoteState (rel : RelationshipEdge) : option (list StableRecordIdentifier) :=
  if bool_decide (kind (edge_definition rel) = KindBelongsTo)
  then Some (match rel with
             | BelongsToEdge r => match remoteState r with Some x => [x] | None => [] end
             | _ => []
             end)
  else match rel with
       | ManyEdge r => Some (canonicalState r)
       | _ => None
       end.

(** [initializedRelationshipsArr]: the edges of the node that are not
    implicit, in the order of the keys; [None] when the record has no node. *)
Definition initializedRelationshipsArr (g : Graph) (identifier : StableRecordIdentifier)
  : option (list RelationshipEdge) :=
  match relationships_of identifier g with
  | None => None
  | Some initializedRelationships =>
      Some (List.filter (fun rel => negb (edge_isImplicit rel))
              (omap (fun key => Dict.get key initializedRelationships)
                 (Dict.keys initializedRelationships)))
  end.

(** The values the iterator of [_directlyRelatedRecordDatasIterable] gives
    until it is done, in order: [findNext] walks the edges ([i]), for each
    edge its local and then its remote state ([j]), and the members of that
    state ([k]).  Reading the length of a state that is [undefined] throws. *)
Fixpoint findNext_all (arr : list RelationshipEdge)
  : Exception + list StableRecordIdentifier :=
  match arr with
  | [] => inr []
  | rel :: rest =>
      match getLocalState rel with
      | None => inl (JsError "TypeError: members is undefined")
      | Some local =>
          match getRemoteState rel with
          | None => inl (JsError "TypeError: members is undefined")
          | Some remote =>
              match findNext_all rest with
              | inl e => inl e
              | inr values => inr (local ++ remote ++ values)
              end
          end
      end
  end.

Definition _directlyRelatedRecordDatasIterable (g : Graph) (identifier : StableRecordIdentifier)
  : Exception + list StableRecordIdentifier :=
  match initializedRelationshipsArr g identifier with
  | None => inr []
  | Some arr => findNext_all arr
  end.

(** The [for] loop over the iterator: an identifier that is not in [seen]
    joins [seen] and the queue. *)
Fixpoint enqueue_unseen (values seen queue : list StableRecordIdentifier)
  : list StableRecordIdentifier * list StableRecordIdentifier :=
  match values with
  | [] => (seen, queue)
  | identifier :: rest =>
      if bool_decide (identifier ∈ seen) then enqueue_unseen rest seen queue
      else enqueue_unseen rest (seen ++ [identifier]) (queue ++ [identifier])
  end.

(** The [while] loop of [_allRelatedRecordDatas], for at most [rounds]
    rounds; [None] when the queue is not empty after them.  The iterable is
    the one of [this], whichever identifier left the queue. *)
Fixpoint drain (rounds : nat) (g : Graph) (this : StableRecordIdentifier)
    (queue seen array : list StableRecordIdentifier)
  : option (Exception + list StableRecordIdentifier) :=
  match queue with
  | [] => Some (inr array)
  | identifier :: queue =>
      match rounds with
      | 0 => None
      | S rounds =>
          let array := array ++ [identifier] in
          let seen := if bool_decide (identifier ∈ seen) then seen else seen ++ [identifier] in
          match _directlyRelatedRecordDatasIterable g this with
          | inl e => Some (inl e)
          | inr values =>
              let (seen, queue) := enqueue_unseen values seen queue in
              drain rounds g this queue seen array
          end
      end
  end.

Definition _allRelatedRecordDatas (rounds : nat) (g : Graph) (this : StableRecordIdentifier)
  : option (Exception + list StableRecordIdentifier) :=
  drain rounds g this [this] [] [].

End RelatedRecords.

(** ** Vocabulary of the statements *)

(** What a call returned, if it returned. *)
Definition result_of {S A} (o : Outcome S A) : option A :=
  match o with Returned a _ => Some a | Threw _ _ => None end.

Module RecordDataSpec.
Import RecordData.

(** The three buckets, a [null] bucket read as the empty dictionary. *)
Definition dirty_bucket (rd : RecordDataDefault) : Dict.t JSValue :=
  default Dict.empty (__attributes rd).
Definition inFlight_bucket (rd : RecordDataDefault) : Dict.t JSValue :=
  default Dict.empty (__inFlightAttributes rd).
Definition confirmed_bucket (rd : RecordDataDefault) : Dict.t JSValue :=
  default Dict.empty (__data rd).

(** The value the three buckets give a key: dirty, else in flight, else
    confirmed. *)
Definition current_value (key : string) (rd : RecordDataDefault) : JSValue :=
  match Dict.get key (dirty_bucket rd) with
  | Some v => v
  | None =>
      match Dict.get key (inFlight_bucket rd) with
      | Some v => v
      | None => prop key (confirmed_bucket rd)
      end
  end.

(** The original of a key for [setDirtyAttribute]: the value in flight if
    there is one, else the confirmed value. *)
Definition original_value (key : string) (rd : RecordDataDefault) : JSValue :=
  if Dict.has key (inFlight_bucket rd) then prop key (inFlight_bucket rd)
  else prop key (confirmed_bucket rd).

(** The record cache with further calls on its store wrapper. *)
Definition calls_after (cs : list WrapperCall) (rd : RecordDataDefault) : RecordDataDefault :=
  {| identifier := identifier rd; isDestroyed := isDestroyed rd; _isNew := _isNew rd;
     _isDeleted := _isDeleted rd; __attributes := __attributes rd;
     __inFlightAttributes := __inFlightAttributes rd; __data := __data rd;
     _errors := _errors rd; storeWrapper := storeWrapper rd ++ cs |}.

Definition the_notifyStateChange (rd : RecordDataDefault) : WrapperCall :=
  notifyStateChange (type (identifier rd)) (id (identifier rd)) (lid (identifier rd)).

Definition property_changes (rd : RecordDataDefault) (keys : list string) : list WrapperCall :=
  map (fun key => notifyPropertyChange (type (identifier rd)) (id (identifier rd))
                    (lid (identifier rd)) (Some key)) keys.

(** What [changedAttributes()] computes: [{...inFlightData, ...currentData}]
    and, for each of its keys, the confirmed and the new value. *)
Definition new_data (rd : RecordDataDefault) : Dict.t JSValue :=
  Dict.assign (Dict.assign Dict.empty (inFlight_bucket rd)) (dirty_bucket rd).

Definition diff_data (rd : RecordDataDefault) : Dict.t (JSValue * JSValue) :=
  fold_left (fun diffData key =>
               Dict.set key (prop key (confirmed_bucket rd), prop key (new_data rd)) diffData)
    (Dict.keys (new_data rd)) Dict.empty.

(** The changed attribute whose new value the confirmed data acknowledge. *)
Definition acknowledged (rd : RecordDataDefault) (attribute : string) : bool :=
  match Dict.get attribute (diff_data rd) with
  | Some (oldData, newData) => strict_equals oldData newData
  | None => false
  end.

(** The dirty bucket once [_updateChangedAttributes] has dropped the
    acknowledged attributes. *)
Definition pruned_dirty (rd : RecordDataDefault) : Dict.t JSValue :=
  fold_left (fun attrs attribute =>
               if acknowledged rd attribute then Dict.delete attribute attrs else attrs)
    (Dict.keys (diff_data rd)) (dirty_bucket rd).

(** The operations [_setupRelationships] pushes to the graph. *)
Definition setup_calls (relationshipsDefinitionFor : string -> list string)
    (rels : Dict.t JSValue) (rd : RecordDataDefault) : list WrapperCall :=
  map (fun relationshipName =>
         graph_push {| op := OpUpdateRelationship; record := identifier rd;
                       field := relationshipName;
                       value := RelationshipPayload (prop relationshipName rels);
                       index := None |})
    (List.filter (fun relationshipName => truthy (prop relationshipName rels))
       (relationshipsDefinitionFor (type (identifier rd)))).

(** What the loop of [commitWasRejected] makes of the dirty bucket. *)
Definition merge_back (inFlight : Dict.t JSValue) (keys : list string) (attrs : Dict.t JSValue)
  : Dict.t JSValue :=
  fold_left (fun attrs key =>
               if strict_equals (prop key attrs) JSUndefined
               then Dict.set key (prop key inFlight) attrs
               else attrs) keys attrs.


(** A record cache in the middle of a save: [name] was set to ['A'], and the
    save of it is in flight. *)
Definition person_1 : StableRecordIdentifier :=
  {| type := "person"; id := Some "1"; lid := "@lid:person-1" |}.

Definition saving_name_A : RecordDataDefault :=
  state_of (willCommit (state_of (setDirtyAttribute "name" (JSString "A") (new person_1)))).

(** The user then sets [name] to ['X'], or to [undefined]. *)
Definition editing_name_X : RecordDataDefault :=
  state_of (setDirtyAttribute "name" (JSString "X") saving_name_A).

Definition editing_name_undefined : RecordDataDefault :=
  state_of (setDirtyAttribute "name" JSUndefined saving_name_A).

(** A payload of the server with [name: 'X'], and one with [name: 'Y']. *)
Definition name_is (v : string) : JsonApiResource :=
  {| resource_id := Some "1"; attributes := Some [("name", JSString v)];
     relationships := None |}.

Definition no_relationships : string -> list string := fun _ => [].

End RecordDataSpec.

Module HasManySpec.
Import RelationshipGraph.




(** An edge for the examples: [comments] of a post. *)
Definition comments_of_post : UpgradedMeta :=
  {| kind := KindHasMany; definition_type := "comment"; key := "comments";
     inverseKey := "post"; inverseIsAsync := false; inverseIsImplicit := false;
     isAsync := false; isImplicit := false; isCollection := true |}.







Definition person_1 : StableRecordIdentifier := RecordDataSpec.person_1.
Definition person_2 : StableRecordIdentifier :=
  {| type := "person"; id := Some "2"; lid := "@lid:person-2" |}.




End HasManySpec.

Module GraphSpec.
Import RelationshipGraph HasManySpec.

(** The operations a coalesce pass finds in the three buffers, in the order
    in which it applies them. *)
Definition pending (g : Graph) : list Operation :=
  deletions (_pushedUpdates g) ++ hasMany (_pushedUpdates g) ++ belongsTo (_pushedUpdates g).

(** A coalesce pass is scheduled whenever a buffer holds an operation. *)
Definition remote_queue_scheduled (g : Graph) : Prop :=
  _willSyncRemote g = true \/ _pushedUpdates g = no_updates.

(** A computation that leaves the three buffers and the flag of the coalesce
    pass as they are, whether it returns or throws. *)
Definition keeps_remote_queue {A} (m : G A) : Prop :=
  forall g, _pushedUpdates (state_of (m g)) = _pushedUpdates g
            /\ _willSyncRemote (state_of (m g)) = _willSyncRemote g.

(** The modules behind the graph do not push to the graph. *)
Definition collaborators_keep_remote_queue (c : Collaborators) : Prop :=
  (forall o, keeps_remote_queue (assertValidRelationshipPayload c o))
  /\ (forall o, keeps_remote_queue (updateRelationshipOperation c o))
  /\ (forall o isRemote, keeps_remote_queue (replaceRelatedRecord c o isRemote))
  /\ (forall o isRemote, keeps_remote_queue (addToRelatedRecords c o isRemote))
  /\ (forall o isRemote, keeps_remote_queue (removeFromRelatedRecords c o isRemote))
  /\ (forall o isRemote, keeps_remote_queue (replaceRelatedRecords c o isRemote))
  /\ (forall rel, keeps_remote_queue (removeCompletelyFromInverse c rel)).

(** The graph at the start of a coalesce pass: a new transaction, no pass
    scheduled, the three buffers empty. *)
Definition drained (g : Graph) : Graph :=
  with__pushedUpdates no_updates (with__willSyncRemote false (with__transaction (Some []) g)).

(** Collaborators for the examples: a post has many comments, a comment
    belongs to a post; the operation modules do nothing. *)
Definition post_of_comment : UpgradedMeta :=
  {| kind := KindBelongsTo; definition_type := "post"; key := "post";
     inverseKey := "comments"; inverseIsAsync := false; inverseIsImplicit := false;
     isAsync := false; isImplicit := false; isCollection := false |}.

Definition blog_schema (identifier : StableRecordIdentifier) (propertyName : string)
  : option UpgradedMeta :=
  if bool_decide (type identifier = "post" /\ propertyName = "comments") then Some comments_of_post
  else if bool_decide (type identifier = "comment" /\ propertyName = "post") then Some post_of_comment
  else None.

Definition render (identifier : option StableRecordIdentifier) : string :=
  match identifier with Some i => lid i | None => "null" end.

Definition idle : Collaborators :=
  {| definitionFor := blog_schema;
     assertValidRelationshipPayload := fun _ => ret tt;
     updateRelationshipOperation := fun _ => ret tt;
     replaceRelatedRecord := fun _ _ => ret tt;
     addToRelatedRecords := fun _ _ => ret tt;
     removeFromRelatedRecords := fun _ _ => ret tt;
     replaceRelatedRecords := fun _ _ => ret tt;
     destroyRelationship := fun _ => ret tt;
     removeCompletelyFromInverse := fun _ => ret tt;
     identifier_toString := render |}.

Definition post_1 : StableRecordIdentifier :=
  {| type := "post"; id := Some "1"; lid := "@lid:post-1" |}.
Definition comment_1 : StableRecordIdentifier :=
  {| type := "comment"; id := Some "1"; lid := "@lid:comment-1" |}.

Definition update_comments : Operation :=
  {| op := OpUpdateRelationship; record := post_1; field := "comments";
     value := RelationshipPayload (JSObject 1); index := None |}.
Definition replace_post : Operation :=
  {| op := OpReplaceRelatedRecord; record := comment_1; field := "post";
     value := RelatedRecord (Some post_1); index := None |}.
(** Collaborators whose [destroyRelationship] removes the node of the edge
    again, while the removal that called it is in progress. *)
Definition reentrant : Collaborators :=
  {| definitionFor := blog_schema;
     assertValidRelationshipPayload := fun _ => ret tt;
     updateRelationshipOperation := fun _ => ret tt;
     replaceRelatedRecord := fun _ _ => ret tt;
     addToRelatedRecords := fun _ _ => ret tt;
     removeFromRelatedRecords := fun _ _ => ret tt;
     replaceRelatedRecords := fun _ _ => ret tt;
     destroyRelationship := fun rel => remove idle (edge_identifier rel);
     removeCompletelyFromInverse := fun _ => ret tt;
     identifier_toString := render |}.

(** A graph with the edge [comments] of post 1. *)
Definition with_comments_of_post_1 : Graph :=
  state_of (get idle post_1 "comments" new_Graph).

(** Collaborators that leave a trace: each operation module, and
    [removeCompletelyFromInverse], records the edge it works on in
    [_updatedRelationships]. *)
Definition trace (ref : EdgeRef) : G unit :=
  modify (fun g => with__updatedRelationships (_updatedRelationships g ++ [ref]) g).

Definition tracing : Collaborators :=
  {| definitionFor := blog_schema;
     assertValidRelationshipPayload := fun _ => ret tt;
     updateRelationshipOperation := fun o => trace (record o, field o);
     replaceRelatedRecord := fun o _ => trace (record o, field o);
     addToRelatedRecords := fun o _ => trace (record o, field o);
     removeFromRelatedRecords := fun o _ => trace (record o, field o);
     replaceRelatedRecords := fun o _ => trace (record o, field o);
     destroyRelationship := fun _ => ret tt;
     removeCompletelyFromInverse :=
       fun rel => trace (edge_identifier rel, key (edge_definition rel));
     identifier_toString := render |}.

Definition comment_2 : StableRecordIdentifier :=
  {| type := "comment"; id := Some "2"; lid := "@lid:comment-2" |}.

Definition delete_comment_2 : Operation :=
  {| op := OpDeleteRecord; record := comment_2; field := "";
     value := NoValue; index := None |}.

(** Comment 2 has its edge [post]; then a replacement for comment 1, an update
    of the comments of post 1 and the deletion of comment 2 are pushed, in
    this order. *)
Definition three_pushed_traced : Graph :=
  state_of (push tracing delete_comment_2
              (state_of (push tracing update_comments
                           (state_of (push tracing replace_post
                                        (state_of (get tracing comment_2 "post" new_Graph))))))).

End GraphSpec.

Module FetchSpec.
Import Fetch.







(** The examples: three requests for person 1 before a flush, the first
    including ['a'], the other two including ['b']. *)
Definition person_1 : StableRecordIdentifier := RecordDataSpec.person_1.
Definition person_2 : StableRecordIdentifier :=
  {| type := "person"; id := Some "2"; lid := "@lid:person-2" |}.

Definition including (what : string) : FindOptions := Some [("include", JSString what)].

Definition after_a : FetchManager :=
  state_of (scheduleFetch person_1 (including "a") new_FetchManager).
Definition after_a_b : FetchManager :=
  state_of (scheduleFetch person_1 (including "b") after_a).
Definition after_a_b_b : FetchManager :=
  state_of (scheduleFetch person_1 (including "b") after_a_b).

Definition never_coalesce : string -> bool := fun _ => false.
Definition no_grouping : string -> option (list Snapshot -> list (list Snapshot)) := fun _ => None.

Definition is_findRecord (c : CollaboratorCall) : bool :=
  match c with findRecord _ _ _ => true | _ => false end.








End FetchSpec.

(** ** Vocabulary of the further statements *)

Module RecordDataLifecycleSpec.
Import RecordData RecordDataLifecycle.

(** All the calls made so far: those entered in [calls], then those a method
    of [RecordData] has left in [storeWrapper] of the fields. *)
Definition log (s : Cache) : list CacheCall :=
  calls s ++ map wrapper_call (storeWrapper (fields s)).

Definition the_notifyErrorsChange (rd : RecordDataDefault) : WrapperCall :=
  notifyErrorsChange (type (identifier rd)) (id (identifier rd)) (lid (identifier rd)).

(** The call is made for the identifier: a notification carries its type, id
    and lid, and an operation pushed to the graph has it as its record. *)
Definition is_for (identifier0 : StableRecordIdentifier) (c : WrapperCall) : Prop :=
  match c with
  | notifyPropertyChange modelName0 id0 lid0 _
  | notifyStateChange modelName0 id0 lid0
  | notifyErrorsChange modelName0 id0 lid0 =>
      modelName0 = type identifier0 /\ id0 = id identifier0 /\ lid0 = lid identifier0
  | graph_push o => record o = identifier0
  end.

(** The identifier of the record after [didCommit(data)]: [setRecordId] is
    called when the payload has an id that is not the empty string. *)
Definition identifier_after (data : option JsonApiResource)
    (identifier0 : StableRecordIdentifier) : StableRecordIdentifier :=
  match data with
  | Some data =>
      match resource_id data with
      | Some id0 => if negb (bool_decide (id0 = "")) then assigned id0 identifier0
                    else identifier0
      | None => identifier0
      end
  | None => identifier0
  end.

(** The keys [_changedKeys(updates)] returns: the keys of the updates that
    have no defined dirty value and whose update is not equal to the
    original. *)
Definition changed_by_server (isEqual : JSValue -> JSValue -> bool)
    (updates : option (Dict.t JSValue)) (rd : RecordDataDefault) : list string :=
  match updates with
  | Some updates =>
      List.filter
        (fun key => strict_equals (prop key (RecordDataSpec.dirty_bucket rd)) JSUndefined
                    && negb (isEqual (RecordDataSpec.original_value key rd) (prop key updates)))
        (Dict.keys updates)
  | None => []
  end.

End RecordDataLifecycleSpec.

Module GraphMoreSpec.
Import RelationshipGraph.

(** The edge behind a reference, if the graph has it. *)
Definition edge_at (ref : EdgeRef) (g : Graph) : option RelationshipEdge :=
  match relationships_of ref.1 g with
  | Some relationships => Dict.get ref.2 relationships
  | None => None
  end.

(** [rel.transactionRef], for the edges that have the field. *)
Definition edge_transactionRef (rel : RelationshipEdge) : option nat :=
  match rel with
  | ManyEdge r => Some (transactionRef r)
  | BelongsToEdge r => Some (belongsTo_transactionRef r)
  | ImplicitEdge _ => None
  end.

Definition the_coalesce_pass : StoreCall := schedule "coalesce" Method_flushRemoteQueue.

End GraphMoreSpec.

Module GraphMaintenanceSpec.
Import RelationshipGraph GraphMaintenance.

(** [typeCache[a][b]] read as a boolean. *)
Definition polymorphic (typeCache : Dict.t (Dict.t bool)) (a b : string) : bool :=
  match Dict.get a typeCache with
  | Some t => default false (Dict.get b t)
  | None => false
  end.

Definition the_local_flush : StoreCall := schedule "sync" Method_flushLocalQueue.

(** The graph at the start of a flush of the local queue. *)
Definition drained_local (g : Graph) : Graph :=
  with__updatedRelationships [] (with__willSyncLocal false g).

End GraphMaintenanceSpec.

Module HasManyRemovalSpec.
Import RelationshipGraph HasManyRemoval.

(** The notification of a change of the edge. *)
Definition the_change (e : Edge) : WrapperCall :=
  notifyHasManyChange (type (identifier (relationship e))) (id (identifier (relationship e)))
    (lid (identifier (relationship e))) (key (definition (relationship e))).

(** The owner of the edge is the record that the graph is removing. *)
Definition being_removed (e : Edge) : bool :=
  bool_decide (Some (identifier (relationship e)) = graph__removing e).

(** An array without the first occurrence of an identifier. *)
Fixpoint without_first (x : StableRecordIdentifier) (array : list StableRecordIdentifier)
  : list StableRecordIdentifier :=
  match array with
  | [] => []
  | y :: rest => if bool_decide (y = x) then rest else y :: without_first x rest
  end.

End HasManyRemovalSpec.

Module RelatedRecordsSpec.
Import RelationshipGraph RelatedRecords.

(** The identifiers of a list that are not in [seen], each at its first
    place. *)
Fixpoint first_occurrences (seen values : list StableRecordIdentifier)
  : list StableRecordIdentifier :=
  match values with
  | [] => []
  | x :: rest =>
      if bool_decide (x ∈ seen) then first_occurrences seen rest
      else x :: first_occurrences (seen ++ [x]) rest
  end.

(** A graph for the examples: post 1 has the comments 1 (local and remote)
    and 2 (remote); comment 1 belongs to post 2. *)
Definition post_2 : StableRecordIdentifier :=
  {| type := "post"; id := Some "2"; lid := "@lid:post-2" |}.

Definition comments_of_post_1 : RelationshipEdge :=
  ManyEdge
    (HasManyRemoval.with_currentState [GraphSpec.comment_1]
       (HasManyRemoval.with_canonicalState [GraphSpec.comment_1; GraphSpec.comment_2]
          (new_ManyRelationship HasManySpec.comments_of_post GraphSpec.post_1))).

Definition post_of_comment_1 : RelationshipEdge :=
  BelongsToEdge
    {| belongsTo_definition := GraphSpec.post_of_comment;
       belongsTo_identifier := GraphSpec.comment_1;
       belongsTo_state := None; belongsTo_transactionRef := 0;
       localState := Some post_2; remoteState := Some post_2;
       belongsTo_meta := None; belongsTo_links := None |}.

Definition two_steps : Graph :=
  with_identifiers
    (<[GraphSpec.post_1 := [("comments", comments_of_post_1)]]>
       (<[GraphSpec.comment_1 := [("post", post_of_comment_1)]]> ∅))
    new_Graph.

End RelatedRecordsSpec.

Module FetchMoreSpec.
Import Fetch.

(** The pending fetch that [getPendingFetch] looks at: the first one of the
    identifier among the pending fetches of its model name. *)
Definition first_pending (identifier0 : StableRecordIdentifier) (m : FetchManager)
  : option PendingFetchItem :=
  List.find (fun fetch => bool_decide (identifier fetch = identifier0))
    (default [] (Dict.get (type identifier0) (_pendingFetch m))).

(** The promise that a request reuses, if it reuses one. *)
Definition reused (identifier0 : StableRecordIdentifier) (options0 : FindOptions)
    (m : FetchManager) : option nat :=
  match first_pending identifier0 m with
  | Some item => if isSameRequest options0 (options item) then Some (promise item) else None
  | None => None
  end.

(** The pending fetch that a new request makes: its deferred has the next
    promise, and the promise of the request is the one after it. *)
Definition new_pending (identifier0 : StableRecordIdentifier) (options0 : FindOptions)
    (m : FetchManager) : PendingFetchItem :=
  {| identifier := identifier0;
     queryRequest := {| request_op := "findRecord"; recordIdentifier := identifier0;
                        request_options := options0 |};
     resolver := {| deferred_promise := promises m; settlement := None |};
     options := options0; promise := S (promises m) |}.

Definition the_flush : CollaboratorCall := schedule "actions" "flushAllPendingFetches".

(** Options that differ in everything but [include]. *)
Definition reloading (what : string) : FindOptions :=
  Some [("include", JSString what); ("reload", JSBool true)].

End FetchMoreSpec.

(** * Properties *)

(** ** Loops and sequences *)

Lemma forEach_app {S A} (xs ys : list A) (body : A -> Eff S unit) (s : S) :
  forEach (xs ++ ys) body s = (forEach xs body >> forEach ys body) s.
Proof.
  revert s. induction xs as [|x xs IH]; intros s.
  - reflexivity.
  - cbn [forEach app]. unfold bind. destruct (body x s) as [[] s'|e s']; [|reflexivity].
    rewrite IH. reflexivity.
Qed.

(** A loop whose steps only change the state is the fold of the steps. *)
Lemma forEach_modify {S A} (f : A -> S -> S) (xs : list A) (body : A -> Eff S unit) :
  (forall x s, body x s = Returned tt (f x s)) ->
  forall s, forEach xs body s = Returned tt (fold_left (fun s x => f x s) xs s).
Proof.
  intros Hbody. induction xs as [|x xs IH]; intros s.
  - reflexivity.
  - cbn [forEach fold_left]. unfold bind. rewrite Hbody. apply IH.
Qed.

Lemma bind_returned {S A B} (m : Eff S A) (k : A -> Eff S B) s a s' :
  m s = Returned a s' -> bind m k s = k a s'.
Proof. intros H. unfold bind. rewrite H. reflexivity. Qed.

Lemma returned_bind {S A B} (m : Eff S A) (k : A -> Eff S B) s :
  (forall a s', returned (k a s') = true) -> returned (bind m k s) = returned (m s).
Proof. intros Hk. unfold bind. destruct (m s); [apply Hk|reflexivity]. Qed.

(** A property of the state that every step of a loop keeps, whether the
    step returns or throws, is kept by the loop. *)
Lemma forEach_preserves {S A} (P : S -> Prop) (xs : list A) (body : A -> Eff S unit) :
  (forall x s, P s -> P (state_of (body x s))) ->
  forall s, P s -> P (state_of (forEach xs body s)).
Proof.
  intros Hbody. induction xs as [|x xs IH]; intros s Hs; [exact Hs|].
  cbn [forEach]. unfold bind. specialize (Hbody x s Hs).
  destruct (body x s) as [[] s'|e s']; cbn in *; auto.
Qed.

(** ** Dictionaries *)

Lemma strict_equals_eq a b : strict_equals a b = true -> a = b.
Proof.
  unfold strict_equals.
  destruct a, b; try discriminate; intros H; apply bool_decide_eq_true in H; exact H.
Qed.

Module DictFacts.

Lemma get_set_eq {V} k (v : V) d : Dict.get k (Dict.set k v d) = Some v.
Proof.
  induction d as [|[k' v'] d IH]; cbn.
  - rewrite bool_decide_eq_true_2; reflexivity.
  - destruct (bool_decide (k = k')) eqn:E; cbn; rewrite E; auto.
Qed.

Lemma get_set_ne {V} k k' (v : V) d : k <> k' -> Dict.get k' (Dict.set k v d) = Dict.get k' d.
Proof.
  intros Hne. induction d as [|[k0 v0] d IH]; cbn.
  - rewrite bool_decide_eq_false_2; [reflexivity|congruence].
  - destruct (bool_decide (k = k0)) eqn:E; cbn.
    + apply bool_decide_eq_true in E. subst k0.
      rewrite !bool_decide_eq_false_2 by congruence. reflexivity.
    + rewrite IH. reflexivity.
Qed.

Lemma get_set {V} k k' (v : V) d :
  Dict.get k' (Dict.set k v d) = if bool_decide (k = k') then Some v else Dict.get k' d.
Proof.
  destruct (bool_decide (k = k')) eqn:E.
  - apply bool_decide_eq_true in E. subst. apply get_set_eq.
  - apply bool_decide_eq_false in E. apply get_set_ne. exact E.
Qed.

Lemma get_delete_eq {V} k (d : Dict.t V) : Dict.get k (Dict.delete k d) = None.
Proof.
  induction d as [|[k0 v0] d IH]; cbn; [reflexivity|].
  destruct (bool_decide (k = k0)) eqn:E; cbn; [exact IH|].
  rewrite E. exact IH.
Qed.

Lemma get_delete_ne {V} k k' (d : Dict.t V) :
  k <> k' -> Dict.get k' (Dict.delete k d) = Dict.get k' d.
Proof.
  intros Hne. induction d as [|[k0 v0] d IH]; cbn; [reflexivity|].
  destruct (bool_decide (k = k0)) eqn:E; cbn.
  - apply bool_decide_eq_true in E. subst k0.
    rewrite bool_decide_eq_false_2 by congruence. exact IH.
  - rewrite IH. reflexivity.
Qed.

Lemma get_delete {V} k k' (d : Dict.t V) :
  Dict.get k' (Dict.delete k d) = if bool_decide (k = k') then None else Dict.get k' d.
Proof.
  destruct (bool_decide (k = k')) eqn:E.
  - apply bool_decide_eq_true in E. subst. apply get_delete_eq.
  - apply bool_decide_eq_false in E. apply get_delete_ne. exact E.
Qed.

Lemma get_Some_keys {V} k (d : Dict.t V) : is_Some (Dict.get k d) <-> In k (Dict.keys d).
Proof.
  unfold Dict.keys. induction d as [|[k0 v0] d IH]; cbn.
  - split; [intros [? ?]; discriminate|tauto].
  - destruct (bool_decide (k = k0)) eqn:E.
    + apply bool_decide_eq_true in E. subst. split; eauto.
    + apply bool_decide_eq_false in E. rewrite IH. split; [tauto|].
      intros [H|H]; [congruence|exact H].
Qed.

Lemma has_get {V} k (d : Dict.t V) : Dict.has k d = true <-> is_Some (Dict.get k d).
Proof.
  unfold Dict.has. destruct (Dict.get k d); split; eauto; try discriminate.
  intros [? ?]; discriminate.
Qed.

Lemma has_false_get {V} k (d : Dict.t V) : Dict.has k d = false <-> Dict.get k d = None.
Proof. unfold Dict.has. destruct (Dict.get k d); split; congruence. Qed.

(** Writing the keys [ks] of a source to a target. *)
Lemma get_assign_keys {V} k (source : Dict.t V) (ks : list string) target :
  Dict.get k (fold_left (fun acc k => match Dict.get k source with
                                      | Some v => Dict.set k v acc
                                      | None => acc
                                      end) ks target) =
    if bool_decide (k ∈ ks)
    then match Dict.get k source with Some v => Some v | None => Dict.get k target end
    else Dict.get k target.
Proof.
  revert target. induction ks as [|k0 ks IH]; intros target; cbn [fold_left].
  - rewrite bool_decide_eq_false_2 by (apply not_elem_of_nil). reflexivity.
  - rewrite IH. destruct (decide (k0 = k)) as [->|Hne].
    + rewrite (bool_decide_eq_true_2 (k ∈ k :: ks)) by (apply elem_of_cons; left; reflexivity).
      destruct (Dict.get k source) as [v|] eqn:E.
      * rewrite get_set_eq. destruct (bool_decide (k ∈ ks)); reflexivity.
      * destruct (bool_decide (k ∈ ks)); reflexivity.
    + assert (Hset : Dict.get k (match Dict.get k0 source with
                                 | Some v => Dict.set k0 v target
                                 | None => target
                                 end) = Dict.get k target).
      { destruct (Dict.get k0 source); [apply get_set_ne; exact Hne|reflexivity]. }
      rewrite Hset.
      destruct (bool_decide (k ∈ ks)) eqn:E.
      * apply bool_decide_eq_true in E.
        rewrite bool_decide_eq_true_2 by (apply elem_of_cons; right; exact E). reflexivity.
      * apply bool_decide_eq_false in E.
        rewrite bool_decide_eq_false_2; [reflexivity|].
        intros [?|?]%elem_of_cons; [congruence|tauto].
Qed.

Lemma get_assign {V} k (target source : Dict.t V) :
  Dict.get k (Dict.assign target source) =
    match Dict.get k source with Some v => Some v | None => Dict.get k target end.
Proof.
  unfold Dict.assign. rewrite get_assign_keys.
  destruct (Dict.get k source) as [v|] eqn:E.
  - rewrite bool_decide_eq_true_2; [reflexivity|].
    apply list_elem_of_In, get_Some_keys. rewrite E. eauto.
  - destruct (bool_decide _); reflexivity.
Qed.

End DictFacts.

(** ** The record cache *)

Module RecordDataFacts.
Import RecordData RecordDataSpec.

Lemma calls_after_nil rd : calls_after [] rd = rd.
Proof. destruct rd; unfold calls_after; cbn. rewrite app_nil_r. reflexivity. Qed.

Lemma calls_after_call c cs rd : calls_after cs (call c rd) = calls_after (c :: cs) rd.
Proof. destruct rd; unfold calls_after, call; cbn. rewrite <- app_assoc. reflexivity. Qed.

Lemma calls_after_app cs cs' rd : calls_after cs' (calls_after cs rd) = calls_after (cs ++ cs') rd.
Proof. destruct rd; unfold calls_after; cbn. rewrite <- app_assoc. reflexivity. Qed.

Lemma _notifyAttributes_run keys rd :
  _notifyAttributes keys rd = Returned tt (calls_after (property_changes rd keys) rd).
Proof.
  unfold _notifyAttributes. revert rd. induction keys as [|key keys IH]; intros rd.
  - cbn. rewrite calls_after_nil. reflexivity.
  - cbn [forEach]. unfold bind at 1. unfold modify at 1. rewrite IH.
    rewrite calls_after_call. destruct rd; reflexivity.
Qed.

(** [getAttr] reads the dirty bucket first, then the bucket in flight, then
    the confirmed one. *)
Lemma getAttr_value key rd : result_of (getAttr key rd) = Some (current_value key rd).
Proof.
  destruct rd as [i d n del a f c e w].
  unfold getAttr, current_value, dirty_bucket, inFlight_bucket, confirmed_bucket,
    bind, _attributes, _inFlightAttributes, _data, ret, Dict.has, prop; cbn.
  destruct (Dict.get key (default Dict.empty a)) as [v|]; cbn; [reflexivity|].
  destruct (Dict.get key (default Dict.empty f)) as [v|]; cbn; reflexivity.
Qed.

(** What [setDirtyAttribute] does to the three buckets. *)
Lemma setDirtyAttribute_buckets key value rd :
  let rd' := state_of (setDirtyAttribute key value rd) in
  dirty_bucket rd' =
    (if strict_equals value (original_value key rd)
     then Dict.delete key (Dict.set key value (dirty_bucket rd))
     else Dict.set key value (dirty_bucket rd))
  /\ inFlight_bucket rd' = inFlight_bucket rd
  /\ confirmed_bucket rd' = confirmed_bucket rd
  /\ is_Some (__attributes rd')
  /\ _isNew rd' = _isNew rd.
Proof.
  destruct rd as [i d n del a f c e w].
  unfold setDirtyAttribute, original_value, dirty_bucket, inFlight_bucket, confirmed_bucket,
    bind, _attributes, _inFlightAttributes, _data, ret, modify; cbn.
  destruct (Dict.has key (default Dict.empty f)); cbn;
    match goal with |- context [strict_equals ?x ?y] => destruct (strict_equals x y) end;
    cbn; repeat split; eauto.
Qed.

Lemma setDirtyAttribute_returns key value rd :
  returned (setDirtyAttribute key value rd) = true.
Proof.
  destruct rd as [i d n del a f c e w].
  unfold setDirtyAttribute, bind, _attributes, _inFlightAttributes, _data, ret, modify; cbn.
  destruct (Dict.has key (default Dict.empty f)); cbn;
    match goal with |- context [strict_equals ?x ?y] => destruct (strict_equals x y) end;
    reflexivity.
Qed.

Lemma prune_loop (P : string -> bool) names rd d :
  __attributes rd = Some d ->
  fold_left (fun s attribute =>
               if P attribute
               then with___attributes (Some (Dict.delete attribute (dirty_bucket s))) s
               else s) names rd
  = with___attributes
      (Some (fold_left (fun attrs attribute =>
                          if P attribute then Dict.delete attribute attrs else attrs) names d)) rd.
Proof.
  revert rd d. induction names as [|a names IH]; intros rd d Hd; cbn [fold_left].
  - destruct rd; cbn in *. subst. reflexivity.
  - destruct (P a).
    + erewrite IH by reflexivity. destruct rd; cbn in *. subst. reflexivity.
    + apply IH. exact Hd.
Qed.

Lemma _updateChangedAttributes_run rd :
  _updateChangedAttributes rd =
    Returned tt
      (calls_after (property_changes rd (Dict.keys (diff_data rd)))
         (with___attributes (Some (pruned_dirty rd))
            (with___inFlightAttributes (Some (inFlight_bucket rd))
               (with___data (Some (confirmed_bucket rd)) rd)))).
Proof.
  destruct rd as [i d n del a f c e w].
  unfold _updateChangedAttributes, changedAttributes, bind, _data, _attributes,
    _inFlightAttributes, ret.
  cbn -[forEach Dict.assign Dict.keys fold_left Dict.get strict_equals Dict.delete].
  set (dd := fold_left _ _ Dict.empty).
  rewrite (forEach_modify
             (fun attribute s =>
                if match Dict.get attribute dd with
                   | Some (o, n') => strict_equals o n'
                   | None => false
                   end
                then with___attributes (Some (Dict.delete attribute (dirty_bucket s))) s
                else s)).
  2:{ intros x s. destruct (Dict.get x dd) as [[o n']|]; [|reflexivity].
      destruct (strict_equals o n'); [|reflexivity]. destruct s; reflexivity. }
  rewrite (prune_loop _ _ _ (default Dict.empty a)) by reflexivity.
  rewrite _notifyAttributes_run. reflexivity.
Qed.

Lemma get_fold_set {V} (f : string -> V) (ks : list string) acc k :
  Dict.get k (fold_left (fun d key => Dict.set key (f key) d) ks acc) =
    if bool_decide (k ∈ ks) then Some (f k) else Dict.get k acc.
Proof.
  revert acc. induction ks as [|k0 ks IH]; intros acc; cbn [fold_left].
  - rewrite bool_decide_eq_false_2 by apply not_elem_of_nil. reflexivity.
  - rewrite IH. rewrite DictFacts.get_set.
    destruct (decide (k0 = k)) as [->|Hne].
    + rewrite (bool_decide_eq_true_2 (k = k)) by reflexivity.
      rewrite (bool_decide_eq_true_2 (k ∈ k :: ks)) by (apply elem_of_cons; tauto).
      destruct (bool_decide (k ∈ ks)); reflexivity.
    + rewrite (bool_decide_eq_false_2 (k0 = k)) by exact Hne.
      destruct (bool_decide (k ∈ ks)) eqn:E.
      * apply bool_decide_eq_true in E.
        rewrite bool_decide_eq_true_2 by (apply elem_of_cons; tauto). reflexivity.
      * apply bool_decide_eq_false in E.
        rewrite bool_decide_eq_false_2; [reflexivity|].
        intros [?|?]%elem_of_cons; [congruence|tauto].
Qed.

Lemma get_fold_delete {V} (P : string -> bool) (names : list string) (d : Dict.t V) k :
  Dict.get k (fold_left (fun attrs a => if P a then Dict.delete a attrs else attrs) names d) =
    if bool_decide (k ∈ names) && P k then None else Dict.get k d.
Proof.
  revert d. induction names as [|a names IH]; intros d; cbn [fold_left].
  - rewrite bool_decide_eq_false_2 by apply not_elem_of_nil. reflexivity.
  - rewrite IH. destruct (decide (a = k)) as [->|Hne].
    + rewrite (bool_decide_eq_true_2 (k ∈ k :: names)) by (apply elem_of_cons; tauto).
      destruct (P k) eqn:HP.
      * rewrite DictFacts.get_delete_eq. destruct (bool_decide (k ∈ names)); reflexivity.
      * rewrite andb_false_r. reflexivity.
    + assert (Hd : Dict.get k (if P a then Dict.delete a d else d) = Dict.get k d).
      { destruct (P a); [apply DictFacts.get_delete_ne; exact Hne|reflexivity]. }
      rewrite Hd.
      assert (Hin : bool_decide (k ∈ a :: names) = bool_decide (k ∈ names)).
      { apply bool_decide_ext. rewrite elem_of_cons. split; [intros [?|?]|]; [congruence|tauto|tauto]. }
      rewrite Hin. reflexivity.
Qed.

Lemma elem_of_keys {V} k (d : Dict.t V) : k ∈ Dict.keys d <-> is_Some (Dict.get k d).
Proof. rewrite list_elem_of_In. symmetry. apply DictFacts.get_Some_keys. Qed.

Lemma new_data_get k rd :
  Dict.get k (new_data rd) =
    match Dict.get k (dirty_bucket rd) with
    | Some v => Some v
    | None => Dict.get k (inFlight_bucket rd)
    end.
Proof.
  unfold new_data. rewrite !DictFacts.get_assign. cbn.
  destruct (Dict.get k (dirty_bucket rd)); [reflexivity|].
  destruct (Dict.get k (inFlight_bucket rd)); reflexivity.
Qed.

Lemma diff_data_get k rd :
  Dict.get k (diff_data rd) =
    match Dict.get k (new_data rd) with
    | Some v => Some (prop k (confirmed_bucket rd), v)
    | None => None
    end.
Proof.
  unfold diff_data.
  rewrite (get_fold_set (fun key => (prop key (confirmed_bucket rd), prop key (new_data rd)))).
  destruct (Dict.get k (new_data rd)) as [v|] eqn:E.
  - rewrite bool_decide_eq_true_2 by (apply elem_of_keys; rewrite E; eauto).
    unfold prop at 2. rewrite E. reflexivity.
  - rewrite bool_decide_eq_false_2; [reflexivity|].
    rewrite elem_of_keys, E. intros [? ?]; discriminate.
Qed.

(** The dirty bucket after [_updateChangedAttributes]: a dirty value stays
    unless it is strictly equal to the confirmed value of its key. *)
Lemma pruned_dirty_get k rd :
  Dict.get k (pruned_dirty rd) =
    match Dict.get k (dirty_bucket rd) with
    | Some w => if strict_equals (prop k (confirmed_bucket rd)) w then None else Some w
    | None => None
    end.
Proof.
  unfold pruned_dirty. rewrite get_fold_delete.
  destruct (Dict.get k (dirty_bucket rd)) as [w|] eqn:E.
  - assert (Hdiff : Dict.get k (diff_data rd) = Some (prop k (confirmed_bucket rd), w)).
    { rewrite diff_data_get, new_data_get, E. reflexivity. }
    rewrite bool_decide_eq_true_2 by (apply elem_of_keys; rewrite Hdiff; eauto).
    unfold acknowledged. rewrite Hdiff. cbn.
    destruct (strict_equals _ w); reflexivity.
  - destruct (_ && _); reflexivity.
Qed.

Section Collaborators.
Variable isEqual : JSValue -> JSValue -> bool.
Variable relationshipsDefinitionFor : string -> list string.

Lemma _changedKeys_run updates rd :
  exists keys,
    _changedKeys isEqual updates rd =
      Returned keys (match updates with
                     | Some _ => with___data (Some (confirmed_bucket rd)) rd
                     | None => rd
                     end).
Proof.
  destruct updates as [u|]; [|eexists; reflexivity].
  destruct rd as [i d n del a f c e w].
  unfold _changedKeys, hasChangedAttributes, bind, gets, _attributes, _data, ret.
  cbn -[List.filter Dict.assign].
  destruct a as [[|kv a]|]; cbn -[List.filter Dict.assign]; eexists; reflexivity.
Qed.

Lemma _setupRelationships_run rels rd :
  _setupRelationships relationshipsDefinitionFor rels rd =
    Returned tt (calls_after (setup_calls relationshipsDefinitionFor rels rd) rd).
Proof.
  unfold _setupRelationships, setup_calls. unfold bind at 1. unfold gets at 1.
  generalize (relationshipsDefinitionFor (type (identifier rd))). intros keys.
  assert (H : forall cs,
            forEach keys
              (fun relationshipName =>
                 if truthy (prop relationshipName rels)
                 then modify (fun rd0 =>
                        call (graph_push {| op := OpUpdateRelationship; record := identifier rd0;
                                            field := relationshipName;
                                            value := RelationshipPayload (prop relationshipName rels);
                                            index := None |}) rd0)
                 else ret tt) (calls_after cs rd)
            = Returned tt
                (calls_after
                   (cs ++ map (fun relationshipName =>
                           graph_push {| op := OpUpdateRelationship; record := identifier rd;
                                         field := relationshipName;
                                         value := RelationshipPayload (prop relationshipName rels);
                                         index := None |})
                       (List.filter (fun relationshipName => truthy (prop relationshipName rels)) keys))
                   rd)).
  { induction keys as [|key keys IH]; intros cs.
    - cbn. rewrite app_nil_r. reflexivity.
    - cbn [forEach List.filter]. unfold bind at 1.
      destruct (truthy (prop key rels)).
      + unfold modify at 1. 
        replace (call _ (calls_after cs rd)) with
          (calls_after (cs ++ [graph_push {| op := OpUpdateRelationship; record := identifier rd;
                                         field := key;
                                         value := RelationshipPayload (prop key rels);
                                         index := None |}]) rd)
          by (destruct rd; unfold calls_after, call; cbn; rewrite <- app_assoc; reflexivity).
        rewrite IH. cbn [map]. rewrite <- app_assoc. reflexivity.
      + unfold ret at 1. apply IH. }
  specialize (H []). rewrite calls_after_nil in H. exact H.
Qed.
End Collaborators.

Lemma property_changes_quiet rd keys :
  Forall (fun c => is_notifyStateChange c = false) (property_changes rd keys).
Proof. unfold property_changes. apply Forall_map, Forall_forall. reflexivity. Qed.

Lemma setup_calls_quiet defs rels rd :
  Forall (fun c => is_notifyStateChange c = false) (setup_calls defs rels rd).
Proof. unfold setup_calls. apply Forall_map, Forall_forall. reflexivity. Qed.

Section Collaborators.
Variable isEqual : JSValue -> JSValue -> bool.
Variable relationshipsDefinitionFor : string -> list string.
Lemma pushData_run data calculateChange rd :
  let confirmed' := Dict.assign (confirmed_bucket rd) (default Dict.empty (attributes data)) in
  exists changedKeys later rd',
    pushData isEqual relationshipsDefinitionFor data calculateChange rd = Returned changedKeys rd'
    /\ _isNew rd' = false
    /\ identifier rd' = identifier rd
    /\ storeWrapper rd' =
         storeWrapper rd ++ (if _isNew rd then [the_notifyStateChange rd] else []) ++ later
    /\ Forall (fun c => is_notifyStateChange c = false) later
    /\ confirmed_bucket rd' = confirmed'
    /\ inFlight_bucket rd' = inFlight_bucket rd
    /\ (forall k, Dict.get k (dirty_bucket rd') =
                    match Dict.get k (dirty_bucket rd) with
                    | Some w => if strict_equals (prop k confirmed') w then None else Some w
                    | None => None
                    end).
Proof.
  intros confirmed'.
  (* the state-change notification of a new record *)
  set (s1 := if _isNew rd then call (the_notifyStateChange rd) (with__isNew false rd) else rd).
  assert (Hs1 : (if _isNew rd then modify (with__isNew false) >> notifyStateChange_ else ret tt) rd
                = Returned tt s1).
  { subst s1. destruct rd as [i d [] del a f c e w]; reflexivity. }
  (* the changed keys *)
  set (s2 := if calculateChange
             then match attributes data with
                  | Some _ => with___data (Some (confirmed_bucket s1)) s1
                  | None => s1
                  end
             else s1).
  assert (Hs2 : exists changedKeys,
             (if calculateChange
              then let! keys := _changedKeys isEqual (attributes data) in ret (Some keys)
              else ret None) s1 = Returned changedKeys s2).
  { subst s2. destruct calculateChange; [|eexists; reflexivity].
    destruct (_changedKeys_run isEqual (attributes data) s1) as [ks Hks].
    exists (Some ks). unfold bind. rewrite Hks. reflexivity. }
  destruct Hs2 as [changedKeys Hs2].
  (* the merge into the confirmed bucket *)
  set (s3 := with___data (Some confirmed') s1).
  assert (Hs3 : with___data
                  (Some (Dict.assign (default Dict.empty (__data s2))
                           (default Dict.empty (attributes data))))
                  (with___data (Some (default Dict.empty (__data s2))) s2) = s3).
  { subst s3 s2 s1 confirmed'.
    destruct rd as [i d [] del a f c e w], calculateChange, (attributes data); reflexivity. }
  (* the dirty attributes the push acknowledges *)
  set (s4 := match __attributes rd with
             | Some _ =>
                 calls_after (property_changes s3 (Dict.keys (diff_data s3)))
                   (with___attributes (Some (pruned_dirty s3))
                      (with___inFlightAttributes (Some (inFlight_bucket s3))
                         (with___data (Some (confirmed_bucket s3)) s3)))
             | None => s3
             end).
  assert (Ha : __attributes s3 = __attributes rd)
    by (subst s3 s1; destruct rd as [i d [] del a f c e w]; reflexivity).
  assert (Hs4 : match __attributes s3 with
                | Some _ => _updateChangedAttributes
                | None => ret tt
                end s3 = Returned tt s4).
  { rewrite Ha. subst s4. destruct (__attributes rd); [|reflexivity].
    apply _updateChangedAttributes_run. }
  (* the relationships of the payload, pushed to the graph *)
  set (setup := match relationships data with
                | Some rels => setup_calls relationshipsDefinitionFor rels s4
                | None => []
                end).
  assert (Hs5 : match relationships data with
                | Some rels => _setupRelationships relationshipsDefinitionFor rels
                | None => ret tt
                end s4 = Returned tt (calls_after setup s4)).
  { subst setup. destruct (relationships data).
    - apply _setupRelationships_run.
    - rewrite calls_after_nil. reflexivity. }
  set (s5 := calls_after setup s4) in *.
  set (notified := match changedKeys with
                   | Some keys => property_changes s5 keys
                   | None => []
                   end).
  assert (Hs6 : match changedKeys with
                | Some (k :: ks) => _notifyAttributes (k :: ks)
                | _ => ret tt
                end s5 = Returned tt (calls_after notified s5)).
  { subst notified. destruct changedKeys as [[|k ks]|].
    - cbn. rewrite calls_after_nil. reflexivity.
    - apply _notifyAttributes_run.
    - rewrite calls_after_nil. reflexivity. }
  exists changedKeys.
  exists (match __attributes rd with
          | Some _ => property_changes s3 (Dict.keys (diff_data s3))
          | None => []
          end ++ setup ++ notified).
  exists (calls_after notified s5).
  split.
  { unfold pushData.
    erewrite bind_returned by reflexivity. cbv beta.
    erewrite bind_returned by exact Hs1. cbv beta.
    erewrite bind_returned by exact Hs2. cbv beta.
    erewrite bind_returned by reflexivity. cbv beta.
    erewrite bind_returned by reflexivity. cbv beta.
    rewrite Hs3.
    erewrite bind_returned by reflexivity. cbv beta.
    erewrite bind_returned by exact Hs4. cbv beta.
    erewrite bind_returned by exact Hs5. cbv beta.
    erewrite bind_returned by exact Hs6. reflexivity. }
  clear Hs1 Hs2 Hs4 Hs5 Hs6.
  assert (Hquiet : Forall (fun c => is_notifyStateChange c = false)
                     (match __attributes rd with
                      | Some _ => property_changes s3 (Dict.keys (diff_data s3))
                      | None => []
                      end ++ setup ++ notified)).
  { repeat apply Forall_app_2.
    - destruct (__attributes rd); [apply property_changes_quiet|constructor].
    - subst setup. destruct (relationships data); [apply setup_calls_quiet|constructor].
    - subst notified. destruct changedKeys; [apply property_changes_quiet|constructor]. }
  assert (Hdirty3 : dirty_bucket s3 = dirty_bucket rd)
    by (subst s3 s1; destruct rd as [i d [] del a f c e w]; reflexivity).
  assert (Hconfirmed3 : confirmed_bucket s3 = confirmed')
    by (subst s3 s1; destruct rd as [i d [] del a f c e w]; reflexivity).
  assert (Hflight3 : inFlight_bucket s3 = inFlight_bucket rd)
    by (subst s3 s1; destruct rd as [i d [] del a f c e w]; reflexivity).
  assert (Hfinal : dirty_bucket (calls_after notified s5) =
                     match __attributes rd with
                     | Some _ => pruned_dirty s3
                     | None => Dict.empty
                     end).
  { subst s5 s4. generalize notified setup (pruned_dirty s3). intros cs cs' pruned.
    rewrite <- Ha. destruct s3 as [i d n del [a|] f c e w]; reflexivity. }
  repeat split.
  - subst s5 s4 s3 s1. destruct rd as [i d [] del [a|] f c e w]; reflexivity.
  - subst s5 s4 s3 s1. destruct rd as [i d [] del [a|] f c e w]; reflexivity.
  - subst s5 s4. generalize notified setup. intros cs cs'.
    generalize (property_changes s3 (Dict.keys (diff_data s3))). intros cs''.
    generalize (pruned_dirty s3). intros pruned.
    subst s3 s1. destruct rd as [i d [] del [a|] f c e w]; cbn;
      rewrite <- ?app_assoc; reflexivity.
  - exact Hquiet.
  - rewrite <- Hconfirmed3. subst s5 s4. generalize notified setup. intros cs cs'.
    rewrite <- Ha. destruct s3 as [i d n del [a|] f c e w]; reflexivity.
  - rewrite <- Hflight3. subst s5 s4. generalize notified setup. intros cs cs'.
    rewrite <- Ha. destruct s3 as [i d n del [a|] f c e w]; reflexivity.
  - intros k. rewrite Hfinal.
    destruct (__attributes rd) as [a|] eqn:Hattrs.
    + rewrite pruned_dirty_get, Hdirty3, Hconfirmed3. reflexivity.
    + unfold dirty_bucket. rewrite Hattrs. reflexivity.
Qed.
End Collaborators.

Lemma merge_back_get inFlight (keys : list string) attrs k :
  Dict.get k (merge_back inFlight keys attrs) =
    if bool_decide (k ∈ keys) && strict_equals (prop k attrs) JSUndefined
    then Some (prop k inFlight)
    else Dict.get k attrs.
Proof.
  unfold merge_back. revert attrs. induction keys as [|k0 keys IH]; intros attrs; cbn [fold_left].
  - rewrite bool_decide_eq_false_2 by apply not_elem_of_nil. reflexivity.
  - rewrite IH. destruct (decide (k0 = k)) as [->|Hne].
    + rewrite (bool_decide_eq_true_2 (k ∈ k :: keys)) by (apply elem_of_cons; tauto).
      cbn [andb]. destruct (strict_equals (prop k attrs) JSUndefined) eqn:E.
      * unfold prop at 1. rewrite !DictFacts.get_set_eq. cbn.
        destruct (_ && _); reflexivity.
      * rewrite E, andb_false_r. reflexivity.
    + assert (Hget : Dict.get k (if strict_equals (prop k0 attrs) JSUndefined
                                 then Dict.set k0 (prop k0 inFlight) attrs else attrs)
                     = Dict.get k attrs).
      { destruct (strict_equals _ _); [apply DictFacts.get_set_ne; exact Hne|reflexivity]. }
      unfold prop at 1. rewrite Hget. fold (prop k attrs).
      assert (Hin : bool_decide (k ∈ k0 :: keys) = bool_decide (k ∈ keys)).
      { apply bool_decide_ext. rewrite elem_of_cons.
        split; [intros [?|?]|]; [congruence|tauto|tauto]. }
      rewrite Hin. reflexivity.
Qed.

Lemma merge_loop inFlight keys rd d :
  __attributes rd = Some d ->
  __inFlightAttributes rd = Some inFlight ->
  forEach keys (fun key =>
    let! attrs := _attributes in
    if strict_equals (prop key attrs) JSUndefined
    then let! inFlight := _inFlightAttributes in
         modify (with___attributes (Some (Dict.set key (prop key inFlight) attrs)))
    else ret tt) rd
  = Returned tt (with___attributes (Some (merge_back inFlight keys d)) rd).
Proof.
  unfold merge_back. revert rd d. induction keys as [|key keys IH]; intros rd d Hd Hf; cbn [forEach fold_left].
  - destruct rd; cbn in *; subst; reflexivity.
  - unfold bind at 1.
    assert (Hstep : (let! attrs := _attributes in
                     if strict_equals (prop key attrs) JSUndefined
                     then let! inFlight := _inFlightAttributes in
                          modify (with___attributes (Some (Dict.set key (prop key inFlight) attrs)))
                     else ret tt) rd
                    = Returned tt (with___attributes
                                     (Some (if strict_equals (prop key d) JSUndefined
                                            then Dict.set key (prop key inFlight) d else d)) rd)).
    { destruct rd; cbn in *; subst. unfold bind, _attributes, _inFlightAttributes, prop; cbn.
      destruct (strict_equals _ JSUndefined); reflexivity. }
    rewrite Hstep. erewrite IH; [|destruct rd; reflexivity|destruct rd; cbn in *; exact Hf].
    destruct rd; reflexivity.
Qed.

Lemma commitWasRejected_run errors rd :
  exists rd',
    commitWasRejected errors rd = Returned tt rd'
    /\ __inFlightAttributes rd' = None
    /\ (forall key,
          Dict.get key (dirty_bucket rd') =
            match Dict.get key (inFlight_bucket rd) with
            | Some inFlight =>
                if strict_equals (prop key (dirty_bucket rd)) JSUndefined
                then Some inFlight
                else Dict.get key (dirty_bucket rd)
            | None => Dict.get key (dirty_bucket rd)
            end)
    /\ confirmed_bucket rd' = confirmed_bucket rd
    /\ _errors rd' = match errors with Some errors => Some errors | None => _errors rd end.
Proof.
  set (f := inFlight_bucket rd). set (d := dirty_bucket rd).
  set (s1 := with___inFlightAttributes (Some f) rd).
  set (s2 := if bool_decide (0 < length (Dict.keys f))
             then with___attributes (Some (merge_back f (Dict.keys f) d)) s1 else s1).
  assert (Hs2 : (if bool_decide (0 < length (Dict.keys f))
                 then let! _ := _attributes in
                      forEach (Dict.keys f) (fun key =>
                        let! attrs := _attributes in
                        if strict_equals (prop key attrs) JSUndefined
                        then let! inFlight := _inFlightAttributes in
                             modify (with___attributes (Some (Dict.set key (prop key inFlight) attrs)))
                        else ret tt)
                 else ret tt) s1 = Returned tt s2).
  { subst s2. destruct (bool_decide _); [|reflexivity].
    erewrite bind_returned by reflexivity. cbv beta.
    rewrite (merge_loop f _ _ d).
    - subst s1 d. destruct rd; reflexivity.
    - subst s1 d. destruct rd; reflexivity.
    - subst s1 d. destruct rd; reflexivity. }
  set (s3 := with___inFlightAttributes None s2).
  set (s4 := match errors with Some errors => with__errors (Some errors) s3 | None => s3 end).
  assert (Hs4 : match errors with
                | Some errors => modify (with__errors (Some errors))
                | None => ret tt
                end s3 = Returned tt s4)
    by (subst s4; destruct errors; reflexivity).
  exists (call (notifyErrorsChange (type (identifier s4)) (id (identifier s4))
                  (lid (identifier s4))) s4).
  split.
  { unfold commitWasRejected.
    erewrite bind_returned by reflexivity. cbv beta.
    erewrite bind_returned by exact Hs2. cbv beta.
    erewrite bind_returned by reflexivity. cbv beta.
    erewrite bind_returned by exact Hs4. reflexivity. }
  clear Hs2 Hs4.
  assert (Hdirty2 : forall key, Dict.get key (dirty_bucket s2) =
            if bool_decide (key ∈ Dict.keys f) && strict_equals (prop key d) JSUndefined
            then Some (prop key f) else Dict.get key d).
  { intros key. subst s2. destruct (bool_decide (0 < length (Dict.keys f))) eqn:E.
    - replace (dirty_bucket (with___attributes (Some (merge_back f (Dict.keys f) d)) s1))
        with (merge_back f (Dict.keys f) d) by (subst s1; destruct rd; reflexivity).
      apply merge_back_get.
    - apply bool_decide_eq_false in E.
      assert (Hnil : Dict.keys f = []) by (destruct (Dict.keys f); [reflexivity|cbn in E; lia]).
      rewrite Hnil. rewrite bool_decide_eq_false_2 by apply not_elem_of_nil.
      subst s1 d. destruct rd; reflexivity. }
  repeat split.
  - subst s4 s3. destruct errors, s2; reflexivity.
  - intros key.
    replace (dirty_bucket _) with (dirty_bucket s2) by (subst s4 s3; destruct errors, s2; reflexivity).
    rewrite Hdirty2.
    destruct (Dict.get key f) as [v|] eqn:E.
    + rewrite bool_decide_eq_true_2 by (apply elem_of_keys; rewrite E; eauto).
      unfold prop at 2. rewrite E. reflexivity.
    + rewrite bool_decide_eq_false_2; [reflexivity|].
      rewrite elem_of_keys, E. intros [? ?]; discriminate.
  - replace (confirmed_bucket _) with (confirmed_bucket s2)
      by (subst s4 s3; destruct errors, s2; reflexivity).
    subst s2 s1. destruct (bool_decide _), rd; reflexivity.
  - replace (_errors _) with (match errors with Some errors => Some errors | None => _errors s2 end)
      by (subst s4 s3; destruct errors, s2; reflexivity).
    destruct errors; [reflexivity|].
    subst s2 s1. destruct (bool_decide _), rd; reflexivity.
Qed.

(** C2 (as stated, refuted).  The save of [name = 'A'] is in flight and the
    user has set [name] to ['X'], which differs from the original ['A'];
    [getAttr] gives ['X'].  A push that confirms ['X'] drops the dirty entry,
    and [getAttr] now gives the value in flight, ['A']. *)
Lemma dirty_value_lost_when_push_confirms_it :
  strict_equals (JSString "X") (original_value "name" saving_name_A) = false
  /\ Dict.get "name" (default Dict.empty (attributes (name_is "X"))) = Some (JSString "X")
  /\ result_of (getAttr "name" editing_name_X) = Some (JSString "X")
  /\ result_of (getAttr "name"
                  (state_of (pushData strict_equals no_relationships (name_is "X") false
                               editing_name_X)))
     = Some (JSString "A").
Proof. repeat split; vm_compute; reflexivity. Qed.

(** C2 (amended).  [getAttr(key)] returns the value of the dirty bucket if
    the key is there, otherwise the value in flight if the key is there,
    otherwise the confirmed value.  After [setDirtyAttribute(key, value)] with
    a value that differs from the original, [getAttr(key)] returns that value,
    and it still does after a [pushData] that sets the confirmed value of the
    key, provided that the pushed value is not strictly equal to the dirty
    one or the key has no value in flight. *)
Theorem getAttr_dirty_precedence isEqual relationshipsDefinitionFor
    key value pushed data calculateChange rd :
  strict_equals value (original_value key rd) = false ->
  Dict.get key (default Dict.empty (attributes data)) = Some pushed ->
  strict_equals pushed value = false \/ Dict.has key (inFlight_bucket rd) = false ->
  (forall key0 rd0, result_of (getAttr key0 rd0) = Some (current_value key0 rd0))
  /\ result_of (getAttr key (state_of (setDirtyAttribute key value rd))) = Some value
  /\ returned (pushData isEqual relationshipsDefinitionFor data calculateChange
                 (state_of (setDirtyAttribute key value rd))) = true
  /\ result_of (getAttr key
                  (state_of (pushData isEqual relationshipsDefinitionFor data calculateChange
                               (state_of (setDirtyAttribute key value rd)))))
     = Some value.
Proof.
  intros Horiginal Hpushed Hside.
  destruct (setDirtyAttribute_buckets key value rd) as (Hd1 & Hf1 & Hc1 & _ & _).
  rewrite Horiginal in Hd1.
  set (rd1 := state_of (setDirtyAttribute key value rd)) in *.
  destruct (pushData_run isEqual relationshipsDefinitionFor data calculateChange rd1)
    as (changedKeys & later & rd2 & Hrun & _ & _ & _ & _ & Hc2 & Hf2 & Hd2).
  rewrite Hrun. cbn [state_of returned].
  split; [exact getAttr_value|].
  split.
  { rewrite getAttr_value. unfold current_value. rewrite Hd1, DictFacts.get_set_eq. reflexivity. }
  split; [reflexivity|].
  rewrite getAttr_value. unfold current_value.
  specialize (Hd2 key). rewrite Hd1, DictFacts.get_set_eq in Hd2.
  assert (Hconfirmed : prop key (confirmed_bucket rd2) = pushed).
  { rewrite Hc2. unfold prop. rewrite DictFacts.get_assign, Hpushed. reflexivity. }
  rewrite <- Hc2, Hconfirmed in Hd2. rewrite Hd2.
  destruct (strict_equals pushed value) eqn:E; [|reflexivity].
  destruct Hside as [Hside|Hside]; [discriminate|].
  rewrite Hf2, Hf1. apply DictFacts.has_false_get in Hside. rewrite Hside.
  rewrite Hconfirmed. f_equal. apply strict_equals_eq. exact E.
Qed.

Lemma getAttr_dirty_precedence_witness :
  strict_equals (JSString "X") (original_value "name" saving_name_A) = false
  /\ Dict.get "name" (default Dict.empty (attributes (name_is "Y"))) = Some (JSString "Y")
  /\ result_of (getAttr "name"
                  (state_of (pushData strict_equals no_relationships (name_is "Y") true
                               (state_of (setDirtyAttribute "name" (JSString "X") saving_name_A)))))
     = Some (JSString "X").
Proof.
  split; [reflexivity|]. split; [reflexivity|].
  apply (getAttr_dirty_precedence strict_equals no_relationships "name" (JSString "X")
           (JSString "Y") (name_is "Y") true saving_name_A).
  - reflexivity.
  - reflexivity.
  - left. reflexivity.
Defined.

(** C5 (as stated, refuted).  The save of [name = 'A'] is in flight and the
    user has set [name] to [undefined]: the key is in the dirty bucket.  The
    rejection of the save replaces the value of the user by the value in
    flight. *)
Lemma commitWasRejected_overwrites_undefined_edit :
  Dict.get "name" (dirty_bucket editing_name_undefined) = Some JSUndefined
  /\ Dict.get "name" (inFlight_bucket editing_name_undefined) = Some (JSString "A")
  /\ Dict.get "name" (dirty_bucket (state_of (commitWasRejected None editing_name_undefined)))
     = Some (JSString "A").
Proof. repeat split; vm_compute; reflexivity. Qed.

(** C5 (amended).  [commitWasRejected] returns; afterwards the bucket in
    flight is [null]; every key that was in flight is in the dirty bucket,
    with the value the dirty bucket had for it when that value is not
    [undefined], and with the value in flight otherwise; the other keys of
    the dirty bucket are as they were; an errors list that is supplied is
    what [getErrors()] returns afterwards. *)
Theorem commitWasRejected_merges_in_flight_back errors rd :
  exists rd',
    commitWasRejected errors rd = Returned tt rd'
    /\ __inFlightAttributes rd' = None
    /\ (forall key,
          Dict.get key (dirty_bucket rd') =
            match Dict.get key (inFlight_bucket rd) with
            | Some inFlight =>
                if strict_equals (prop key (dirty_bucket rd)) JSUndefined
                then Some inFlight
                else Dict.get key (dirty_bucket rd)
            | None => Dict.get key (dirty_bucket rd)
            end)
    /\ match errors with
       | Some supplied => result_of (getErrors rd') = Some supplied
       | None => _errors rd' = _errors rd
       end.
Proof.
  destruct (commitWasRejected_run errors rd) as (rd' & Hrun & Hflight & Hdirty & _ & Herrors).
  exists rd'. repeat split; try assumption.
  destruct errors as [supplied|]; [|exact Herrors].
  unfold getErrors, gets. cbn. rewrite Herrors. reflexivity.
Qed.


End RecordDataFacts.

(** ** The hasMany edge *)

Module HasManyFacts.
Import RelationshipGraph HasManySpec.
















(** What [getData()] returns, and the edge it leaves. *)
Lemma getData_run (createState : RelationshipState) (r : ManyRelationship) :
  getData createState r =
    Returned {| payload_data := if hasReceivedData (default createState (_state r))
                                then Some (currentState r) else None;
                payload_links := links r;
                payload_meta := meta r |}
      (with__state (Some (default createState (_state r))) r).
Proof.
  destruct r as [? ? st ? ? ? m l ? ? ? ?].
  unfold getData, state, bind, gets, ret; cbn.
  destruct (hasReceivedData (default createState st)), m, l; reflexivity.
Qed.

(** C7.  [getData()] returns; its payload has a [data] key exactly when the
    flag [hasReceivedData] of the edge is true, and [data] is then equal to
    [currentState]; it has a [links] key and a [meta] key exactly when the
    edge has links and meta, with their values; the edge is left as it was,
    except that its flags now exist. *)
Theorem getData_payload (createState : RelationshipState) (r : ManyRelationship) :
  let flags := default createState (_state r) in
  getData createState r =
    Returned {| payload_data := if hasReceivedData flags then Some (currentState r) else None;
                payload_links := links r;
                payload_meta := meta r |}
      (with__state (Some flags) r)
  /\ (is_Some (payload_data (default {| payload_data := None; payload_links := None;
                                        payload_meta := None |}
                               (result_of (getData createState r))))
      <-> hasReceivedData flags = true).
Proof.
  cbn zeta. rewrite getData_run. split; [reflexivity|]. cbn.
  destruct (hasReceivedData (default createState (_state r))); split; eauto; try discriminate.
  intros [? ?]; discriminate.
Qed.

(** C9.  [clear()] empties [members], [canonicalMembers], [currentState] and
    [canonicalState] and leaves every other field of the edge, the state flags
    among them, as it was; so [getData()] of the cleared edge has a [data] key
    exactly as before, now with the empty array. *)
Theorem clear_empties_membership_only (createState : RelationshipState) (r : ManyRelationship) :
  exists r',
    clear r = Returned tt r'
    /\ (members r' = [] /\ canonicalMembers r' = []
        /\ currentState r' = [] /\ canonicalState r' = [])
    /\ (meta r' = meta r /\ links r' = links r /\ _state r' = _state r
        /\ definition r' = definition r /\ identifier r' = identifier r
        /\ transactionRef r' = transactionRef r
        /\ _willUpdateManyArray r' = _willUpdateManyArray r
        /\ _pendingManyArrayUpdates r' = _pendingManyArrayUpdates r)
    /\ result_of (state createState r') = result_of (state createState r)
    /\ result_of (getData createState r') =
         Some {| payload_data :=
                   if hasReceivedData (default createState (_state r)) then Some [] else None;
                 payload_links := links r;
                 payload_meta := meta r |}.
Proof.
  eexists. split; [reflexivity|].
  split; [repeat split|]. split; [repeat split|]. split; [reflexivity|].
  rewrite getData_run. reflexivity.
Qed.

End HasManyFacts.

(** ** The graph *)

Module GraphFacts.
Import RelationshipGraph HasManySpec GraphSpec.

Lemma keeps_ret {A} (a : A) : keeps_remote_queue (ret a).
Proof. intros g. split; reflexivity. Qed.

Lemma keeps_throw {A} e : keeps_remote_queue (@throw Graph A e).
Proof. intros g. split; reflexivity. Qed.

Lemma keeps_gets {A} (f : Graph -> A) : keeps_remote_queue (gets f).
Proof. intros g. split; reflexivity. Qed.

Lemma keeps_assert msg test : keeps_remote_queue (@assert Graph msg test).
Proof. destruct test; [apply keeps_ret|apply keeps_throw]. Qed.

Lemma keeps_modify (f : Graph -> Graph) :
  (forall g, _pushedUpdates (f g) = _pushedUpdates g /\ _willSyncRemote (f g) = _willSyncRemote g) ->
  keeps_remote_queue (modify f).
Proof. intros H g. apply H. Qed.

Lemma keeps_bind {A B} (m : G A) (k : A -> G B) :
  keeps_remote_queue m -> (forall a, keeps_remote_queue (k a)) -> keeps_remote_queue (bind m k).
Proof.
  intros Hm Hk g. unfold bind. specialize (Hm g).
  destruct (m g) as [a g'|e g']; cbn [state_of] in *; [|exact Hm].
  destruct (Hk a g') as [H1 H2]. destruct Hm as [H3 H4]. split; congruence.
Qed.

Lemma keeps_forEach {A} (xs : list A) (body : A -> G unit) :
  (forall x, keeps_remote_queue (body x)) -> keeps_remote_queue (forEach xs body).
Proof.
  intros Hbody. induction xs as [|x xs IH]; cbn [forEach].
  - apply keeps_ret.
  - apply keeps_bind; [apply Hbody|intros _; exact IH].
Qed.

Lemma set_edge_queue identifier key rel g :
  _pushedUpdates (set_edge identifier key rel g) = _pushedUpdates g
  /\ _willSyncRemote (set_edge identifier key rel g) = _willSyncRemote g.
Proof. unfold set_edge. destruct (relationships_of identifier g); split; reflexivity. Qed.

Lemma delete_edge_queue identifier key g :
  _pushedUpdates (delete_edge identifier key g) = _pushedUpdates g
  /\ _willSyncRemote (delete_edge identifier key g) = _willSyncRemote g.
Proof. unfold delete_edge. destruct (relationships_of identifier g); split; reflexivity. Qed.

Lemma update_edge_queue ref f g :
  _pushedUpdates (update_edge ref f g) = _pushedUpdates g
  /\ _willSyncRemote (update_edge ref f g) = _willSyncRemote g.
Proof.
  unfold update_edge. destruct (relationships_of ref.1 g) as [rels|]; [|split; reflexivity].
  destruct (Dict.get ref.2 rels); [apply set_edge_queue|split; reflexivity].
Qed.

Lemma get_keeps c identifier propertyName : keeps_remote_queue (get c identifier propertyName).
Proof.
  unfold get. apply keeps_bind; [apply keeps_assert|intros _].
  apply keeps_bind; [apply keeps_gets|intros found].
  apply keeps_bind.
  { destruct found; [apply keeps_ret|].
    apply keeps_bind; [|intros _; apply keeps_ret].
    apply keeps_modify. intros g. split; reflexivity. }
  intros relationships. destruct (Dict.get propertyName relationships); [apply keeps_ret|].
  destruct (definitionFor c identifier propertyName); [|apply keeps_throw].
  apply keeps_bind; [|intros _; apply keeps_ret].
  apply keeps_modify. intros g. apply set_edge_queue.
Qed.

Lemma update_keeps c o isRemote :
  collaborators_keep_remote_queue c -> keeps_remote_queue (update c o isRemote).
Proof.
  intros (Hvalid & Hupdate & Hreplace & Hadd & Hremove & Hreplaces & Hinverse).
  unfold update. apply keeps_bind.
  { destruct (bool_decide _); [apply keeps_ret|].
    apply keeps_bind; [apply get_keeps|intros rel; apply keeps_assert]. }
  intros _. destruct (op o).
  - apply keeps_bind; [apply keeps_assert|intros _].
    apply keeps_bind; [apply Hvalid|intros _; apply Hupdate].
  - apply keeps_bind; [apply keeps_assert|intros _].
    apply keeps_bind; [apply keeps_gets|intros found].
    destruct found; [|apply keeps_ret].
    apply keeps_bind.
    + apply keeps_forEach. intros key.
      apply keeps_bind; [apply keeps_gets|intros now].
      destruct (Dict.get key (default Dict.empty now)); [|apply keeps_throw].
      apply keeps_bind; [|intros _; apply Hinverse].
      apply keeps_modify. intros g. apply delete_edge_queue.
    + intros _. apply keeps_modify. intros g. split; reflexivity.
  - apply Hreplace.
  - apply Hadd.
  - apply Hremove.
  - apply Hreplaces.
  - apply keeps_throw.
Qed.

Lemma _finalize_keeps : keeps_remote_queue _finalize.
Proof.
  unfold _finalize. apply keeps_bind; [apply keeps_gets|intros transaction].
  destruct transaction; [|apply keeps_ret].
  apply keeps_bind.
  - apply keeps_forEach. intros v. apply keeps_modify. intros g. apply update_edge_queue.
  - intros _. apply keeps_modify. intros g. split; reflexivity.
Qed.

Lemma _finalize_returns g : returned (_finalize g) = true.
Proof.
  unfold _finalize, bind, gets. destruct (_transaction g) as [touched|]; [|reflexivity].
  rewrite (forEach_modify (fun v => update_edge v (edge_with_transactionRef (fun _ => 0))))
    by reflexivity.
  reflexivity.
Qed.

(** One run of the coalesce pass. *)
Lemma _flushRemoteQueue_run (c : Collaborators) (g : Graph) :
  collaborators_keep_remote_queue c ->
  remote_queue_scheduled g ->
  _flushRemoteQueue c g =
    (if _willSyncRemote g
     then (forEach (pending g) (fun o => update c o true) >> _finalize) (drained g)
     else Returned tt g)
  /\ _pushedUpdates (state_of (_flushRemoteQueue c g)) = no_updates
  /\ _willSyncRemote (state_of (_flushRemoteQueue c g)) = false
  /\ returned (_flushRemoteQueue c g)
     = returned (forEach (pending g) (fun o => update c o true) (drained g)).
Proof.
  intros Hc Hscheduled.
  assert (Hrun : _flushRemoteQueue c g =
            (if _willSyncRemote g
             then (forEach (pending g) (fun o => update c o true) >> _finalize) (drained g)
             else Returned tt g)).
  { unfold _flushRemoteQueue. erewrite bind_returned by reflexivity. cbv beta.
    destruct (_willSyncRemote g); [|reflexivity]. cbn [negb].
    erewrite bind_returned by reflexivity. cbv beta.
    erewrite bind_returned by reflexivity. cbv beta.
    erewrite bind_returned by reflexivity. cbv beta.
    erewrite bind_returned by reflexivity. cbv beta.
    change (with__pushedUpdates no_updates
              (with__willSyncRemote false (with__transaction (Some []) g))) with (drained g).
    unfold pending, bind. cbn [_pushedUpdates with__willSyncRemote with__transaction].
    rewrite forEach_app. unfold bind.
    destruct (forEach (deletions (_pushedUpdates g)) _ (drained g)) as [[] g1|e g1]; [|reflexivity].
    rewrite forEach_app. unfold bind.
    destruct (forEach (hasMany (_pushedUpdates g)) _ g1) as [[] g2|e g2]; reflexivity. }
  split; [exact Hrun|].
  assert (Hkeeps : keeps_remote_queue
                     (forEach (pending g) (fun o => update c o true) >> _finalize)).
  { apply keeps_bind; [|intros _; apply _finalize_keeps].
    apply keeps_forEach. intros o. apply update_keeps. exact Hc. }
  rewrite Hrun. destruct (_willSyncRemote g) eqn:Hwill.
  - destruct (Hkeeps (drained g)) as [Hq Hw].
    split; [exact Hq|]. split; [exact Hw|].
    apply returned_bind. intros _ g'. apply _finalize_returns.
  - destruct Hscheduled as [Hs|Hs]; [congruence|].
    cbn [state_of returned]. split; [exact Hs|]. split; [exact Hwill|].
    unfold pending. rewrite Hs. reflexivity.
Qed.

Lemma new_Graph_scheduled : remote_queue_scheduled new_Graph.
Proof. right. reflexivity. Qed.

(** [push] adds the operation at the end of one buffer and leaves the other
    two as they are. *)
Lemma push_appends c o g g' :
  push c o g = Returned tt g' ->
  _willSyncRemote g' = true
  /\ (_pushedUpdates g' = _pushedUpdates (push_deletions o g)
      \/ _pushedUpdates g' = _pushedUpdates (push_hasMany o g)
      \/ _pushedUpdates g' = _pushedUpdates (push_belongsTo o g)).
Proof.
  unfold push.
  set (first := match op o with
                | OpDeleteRecord => modify (push_deletions o)
                | OpReplaceRelatedRecord => modify (push_belongsTo o)
                | _ => _
                end).
  assert (Hfirst : forall g1, first g = Returned tt g1 ->
            _willSyncRemote g1 = _willSyncRemote g
            /\ (_pushedUpdates g1 = _pushedUpdates (push_deletions o g)
                \/ _pushedUpdates g1 = _pushedUpdates (push_hasMany o g)
                \/ _pushedUpdates g1 = _pushedUpdates (push_belongsTo o g))).
  { intros g1. subst first.
    assert (Hother :
      (let! relationship := get c (record o) (field o) in
       assert "Cannot push a remote update for an implicit relationship"
         (negb (isImplicit (edge_definition relationship))) >>
       match kind (edge_definition relationship) with
       | KindBelongsTo => modify (push_belongsTo o)
       | KindHasMany => modify (push_hasMany o)
       | KindImplicit => throw (JsError "TypeError: this._pushedUpdates.implicit is undefined")
       end) g = Returned tt g1 ->
      _willSyncRemote g1 = _willSyncRemote g
      /\ (_pushedUpdates g1 = _pushedUpdates (push_deletions o g)
          \/ _pushedUpdates g1 = _pushedUpdates (push_hasMany o g)
          \/ _pushedUpdates g1 = _pushedUpdates (push_belongsTo o g))).
    { unfold bind. pose proof (get_keeps c (record o) (field o) g) as [Hq Hw].
      destruct (get c (record o) (field o) g) as [rel g2|e g2]; [|discriminate].
      cbn [state_of] in Hq, Hw.
      destruct (negb (isImplicit (edge_definition rel))); [|discriminate]. cbn.
      destruct (kind (edge_definition rel)); cbn; intros [= <-]; cbn;
        rewrite Hq, Hw; auto. }
    destruct (op o); try exact Hother; intros [= <-]; cbn; auto. }
  unfold bind at 1. destruct (first g) as [[] g1|e g1] eqn:E; [|discriminate].
  destruct (Hfirst g1 eq_refl) as [Hw Hq].
  unfold bind, gets. destruct (_willSyncRemote g1) eqn:Ew; cbn; intros [= <-]; cbn; auto.
Qed.

(** [push] keeps a coalesce pass scheduled whenever a buffer holds an
    operation, also when it throws. *)
Lemma push_scheduled c o g :
  remote_queue_scheduled g -> remote_queue_scheduled (state_of (push c o g)).
Proof.
  intros Hg. destruct (push c o g) as [[] g'|e g'] eqn:E.
  - left. apply (push_appends c o g g' E).
  - cbn [state_of]. revert E. unfold push. unfold bind at 1.
    match goal with |- context [match ?first g with _ => _ end] => set (m := first) end.
    assert (Hthrew : forall e1 g1, m g = Threw e1 g1 ->
              _pushedUpdates g1 = _pushedUpdates g /\ _willSyncRemote g1 = _willSyncRemote g).
    { subst m. intros e1 g1.
      assert (Hother : keeps_remote_queue
                (let! relationship := get c (record o) (field o) in ret relationship)).
      { apply keeps_bind; [apply get_keeps|intros; apply keeps_ret]. }
      destruct (op o); try discriminate.
      all: unfold bind; pose proof (get_keeps c (record o) (field o) g) as [Hq Hw];
        destruct (get c (record o) (field o) g) as [rel g2|e2 g2]; cbn [state_of] in Hq, Hw;
        [|intros [= <- <-]; auto];
        destruct (negb (isImplicit (edge_definition rel))); cbn;
        [|intros [= <- <-]; auto];
        destruct (kind (edge_definition rel)); cbn; try discriminate;
        intros [= <- <-]; auto. }
    destruct (m g) as [[] g1|e1 g1] eqn:Em.
    + unfold bind, gets. destruct (_willSyncRemote g1); discriminate.
    + intros [= <- <-]. destruct (Hthrew e1 g1 eq_refl) as [Hq Hw].
      unfold remote_queue_scheduled. rewrite Hq, Hw. exact Hg.
Qed.


(** A coalesce pass leaves nothing to schedule. *)
Lemma _flushRemoteQueue_scheduled c g :
  collaborators_keep_remote_queue c -> remote_queue_scheduled g ->
  remote_queue_scheduled (state_of (_flushRemoteQueue c g)).
Proof.
  intros Hc Hg. right. apply (_flushRemoteQueue_run c g Hc Hg).
Qed.

(** C1.  In a graph whose coalesce pass is scheduled whenever a buffer holds
    an operation, as [push] keeps it, and with operation modules that do not
    push themselves, one run of [_flushRemoteQueue] empties the three buffers
    and applies the buffered operations through [update(op, true)], in this
    order: the deletions, then the hasMany updates, then the belongsTo
    updates, each buffer in the order in which it was filled; then it ends the
    transaction.  The buffers are empty afterwards even if an update throws,
    and the pass returns exactly when the updates do. *)
Theorem _flushRemoteQueue_applies_in_order (c : Collaborators) (g : Graph) :
  collaborators_keep_remote_queue c ->
  remote_queue_scheduled g ->
  _flushRemoteQueue c g =
    (if _willSyncRemote g
     then (forEach (pending g) (fun o => update c o true) >> _finalize) (drained g)
     else Returned tt g)
  /\ _pushedUpdates (state_of (_flushRemoteQueue c g)) = no_updates
  /\ _willSyncRemote (state_of (_flushRemoteQueue c g)) = false
  /\ returned (_flushRemoteQueue c g)
     = returned (forEach (pending g) (fun o => update c o true) (drained g)).
Proof. exact (_flushRemoteQueue_run c g). Qed.

Lemma _flushRemoteQueue_applies_in_order_witness :
  collaborators_keep_remote_queue tracing
  /\ remote_queue_scheduled three_pushed_traced
  /\ pending three_pushed_traced = [delete_comment_2; update_comments; replace_post]
  /\ _flushRemoteQueue tracing three_pushed_traced =
       (forEach [delete_comment_2; update_comments; replace_post]
          (fun o => update tracing o true) >> _finalize) (drained three_pushed_traced)
  /\ _pushedUpdates (state_of (_flushRemoteQueue tracing three_pushed_traced)) = no_updates.
Proof.
  assert (Hc : collaborators_keep_remote_queue tracing)
    by (repeat split; intros; reflexivity).
  assert (Hg : remote_queue_scheduled three_pushed_traced)
    by (left; vm_compute; reflexivity).
  assert (Hpending : pending three_pushed_traced = [delete_comment_2; update_comments; replace_post])
    by (vm_compute; reflexivity).
  assert (Hwill : _willSyncRemote three_pushed_traced = true)
    by (vm_compute; reflexivity).
  split; [exact Hc|]. split; [exact Hg|]. split; [exact Hpending|].
  destruct (_flushRemoteQueue_applies_in_order tracing three_pushed_traced Hc Hg)
    as (Hrun & Hempty & _).
  split; [|exact Hempty].
  rewrite Hrun, Hwill, Hpending. reflexivity.
Defined.

(** The trace of that pass: the deletion of comment 2 first, then the update
    of the comments of post 1, then the replacement of the post of comment 1,
    although they were pushed in the opposite order. *)
Example coalesce_pass_trace :
  _updatedRelationships (state_of (_flushRemoteQueue tracing three_pushed_traced))
  = [(comment_2, "post"); (post_1, "comments"); (comment_1, "post")].
Proof. vm_compute. reflexivity. Qed.

(** C8 (as stated, refuted).  While post 1 is being removed, its edge is
    destroyed, and the collaborator removes post 1 again: the second removal
    is for the same identifier, and it fails the assertion all the same. *)
Lemma remove_asserts_for_same_identifier :
  _removing with_comments_of_post_1 = None
  /\ remove reentrant post_1 with_comments_of_post_1 =
       Threw (AssertionFailed "Cannot remove @lid:post-1 while still removing @lid:post-1")
         (with__removing (Some post_1) with_comments_of_post_1)
  /\ remove idle post_1 (with__removing (Some post_1) with_comments_of_post_1) =
       Threw (AssertionFailed "Cannot remove @lid:post-1 while still removing @lid:post-1")
         (with__removing (Some post_1) with_comments_of_post_1).
Proof. split; [|split]; vm_compute; reflexivity. Qed.

(** C8 (amended).  [remove(identifier)] fails its assertion exactly when the
    slot [_removing] is occupied, by whichever identifier, and then changes
    nothing.  When the slot is free it puts the identifier in the slot, runs
    [unload] with the slot occupied, deletes the node and frees the slot; if
    [unload] throws, so does [remove]. *)
Theorem remove_guards_the_removing_slot (c : Collaborators)
    (identifier0 : StableRecordIdentifier) (g : Graph) :
  remove c identifier0 g =
    match _removing g with
    | Some removing =>
        Threw (AssertionFailed
                 ("Cannot remove " ++ identifier_toString c (Some identifier0)
                    ++ " while still removing "
                    ++ identifier_toString c (Some removing))%string) g
    | None =>
        match unload c identifier0 (with__removing (Some identifier0) g) with
        | Returned _ unloaded =>
            Returned tt
              (with__removing None
                 (with_identifiers (delete identifier0 (identifiers unloaded)) unloaded))
        | Threw e unloaded => Threw e unloaded
        end
    end.
Proof.
  unfold remove, bind, gets, assert.
  destruct (_removing g) as [removing|]; cbn; [reflexivity|].
  destruct (unload c identifier0 (with__removing (Some identifier0) g)); reflexivity.
Qed.

End GraphFacts.

(** ** The fetch manager *)

Module FetchFacts.
Import Fetch FetchSpec.
















Lemma scheduleFetch_reuses_first_pending identifier0 options0 m fetches item :
  Dict.get (type identifier0) (_pendingFetch m) = Some fetches ->
  List.find (fun fetch => bool_decide (identifier fetch = identifier0)) fetches = Some item ->
  isSameRequest options0 (options item) = true ->
  scheduleFetch identifier0 options0 m = Returned (promise item) m.
Proof.
  intros Hfetches Hfind Hsame.
  unfold scheduleFetch, getPendingFetch, bind, gets. rewrite Hfetches, Hfind, Hsame. reflexivity.
Qed.

Lemma find_app_last {A} (P : A -> bool) (l : list A) (x : A) :
  List.find P l = None -> P x = true -> List.find P (l ++ [x]) = Some x.
Proof.
  intros Hnone Hx. induction l as [|y l IH]; cbn in *.
  - rewrite Hx. reflexivity.
  - destruct (P y); [discriminate|]. apply IH. exact Hnone.
Qed.

(** A request for an identifier without pending fetch makes a new pending
    fetch, the last of its model name, with two new promises. *)
Lemma scheduleFetch_new identifier0 options0 m :
  List.find (fun fetch => bool_decide (identifier fetch = identifier0))
    (default [] (Dict.get (type identifier0) (_pendingFetch m))) = None ->
  exists m1,
    scheduleFetch identifier0 options0 m = Returned (S (promises m)) m1
    /\ Dict.get (type identifier0) (_pendingFetch m1) =
         Some (default [] (Dict.get (type identifier0) (_pendingFetch m))
                 ++ [{| identifier := identifier0;
                        queryRequest := {| request_op := "findRecord";
                                           recordIdentifier := identifier0;
                                           request_options := options0 |};
                        resolver := {| deferred_promise := promises m; settlement := None |};
                        options := options0; promise := S (promises m) |}]).
Proof.
  intros Hnone.
  assert (Hfirst : getPendingFetch identifier0 options0 m = Returned None m).
  { unfold getPendingFetch, bind, gets.
    destruct (Dict.get (type identifier0) (_pendingFetch m)) as [fetches|]; [|reflexivity].
    cbn in Hnone. rewrite Hnone. reflexivity. }
  unfold scheduleFetch. erewrite bind_returned by exact Hfirst. cbv beta iota.
  clear Hfirst Hnone. destruct m as [destroyed fetches made count].
  unfold bind, new_promise, gets, modify, ret, call, with__pendingFetch.
  cbn [isDestroyed _pendingFetch calls promises].
  destruct (bool_decide (length fetches = 0));
    cbn -[Dict.has Dict.get Dict.set];
    destruct (Dict.has (type identifier0) fetches) eqn:Ehas;
    cbn -[Dict.has Dict.get Dict.set];
    eexists; (split; [reflexivity|]); cbn -[Dict.has Dict.get Dict.set];
    rewrite DictFacts.get_set_eq; try reflexivity.
  all: apply DictFacts.has_false_get in Ehas; rewrite Ehas, DictFacts.get_set_eq; reflexivity.
Qed.

(** Two requests in a row for an identifier that had no pending fetch: the
    second gets the promise of the first, and the manager stays as it is. *)
Lemma scheduleFetch_twice identifier0 options0 m :
  List.find (fun fetch => bool_decide (identifier fetch = identifier0))
    (default [] (Dict.get (type identifier0) (_pendingFetch m))) = None ->
  isSameRequest options0 options0 = true ->
  exists promise0 m1,
    scheduleFetch identifier0 options0 m = Returned promise0 m1
    /\ scheduleFetch identifier0 options0 m1 = Returned promise0 m1.
Proof.
  intros Hnone Hsame.
  destruct (scheduleFetch_new identifier0 options0 m Hnone) as (m1 & Hrun & Hget).
  exists (S (promises m)), m1. split; [exact Hrun|].
  eapply (scheduleFetch_reuses_first_pending identifier0 options0 m1 _
            {| identifier := identifier0;
               queryRequest := {| request_op := "findRecord"; recordIdentifier := identifier0;
                                  request_options := options0 |};
               resolver := {| deferred_promise := promises m; settlement := None |};
               options := options0; promise := S (promises m) |}).
  - exact Hget.
  - apply find_app_last; [exact Hnone|]. apply bool_decide_eq_true. reflexivity.
  - exact Hsame.
Qed.


(** C3 (the code at the failing input).  Three requests for person 1 before
    a flush: the first includes ['a'], the second and the third include
    ['b'].  The options of the third are the options of the second, which is
    still pending; yet the third request gets a promise of its own, the table
    gets a third pending fetch, and the flush issues two [findRecord] requests
    for person 1 including ['b']: [getPendingFetch] looks at the first pending
    fetch of the identifier only. *)
Lemma scheduleFetch_duplicates_pending_request :
  isSameRequest (including "b") (including "b") = true
  /\ result_of (scheduleFetch person_1 (including "b") after_a) = Some 3
  /\ result_of (scheduleFetch person_1 (including "b") after_a_b) = Some 5
  /\ map promise (pending after_a_b) = [1; 3]
  /\ map promise (pending after_a_b_b) = [1; 3; 5]
  /\ map (fun item => options item) (pending after_a_b_b)
     = [including "a"; including "b"; including "b"]
  /\ List.filter is_findRecord
       (calls (state_of (flushAllPendingFetches never_coalesce no_grouping after_a_b_b)))
     = [findRecord "person" (Some "1") (new_Snapshot (including "a") person_1);
        findRecord "person" (Some "1") (new_Snapshot (including "b") person_1);
        findRecord "person" (Some "1") (new_Snapshot (including "b") person_1)].
Proof. repeat split; vm_compute; reflexivity. Qed.

End FetchFacts.

(** * Further properties *)

(** ** The record cache: attributes *)

Module AttributeFacts.
Import RecordData RecordDataSpec RecordDataFacts.

Lemma current_value_setDirtyAttribute key value rd other :
  current_value other (state_of (setDirtyAttribute key value rd)) =
    if bool_decide (other = key) then value else current_value other rd.
Proof.
  destruct (setDirtyAttribute_buckets key value rd) as (Hd & Hf & Hc & _ & _).
  unfold current_value. rewrite Hd, Hf, Hc. clear Hd Hf Hc.
  destruct (decide (other = key)) as [->|Hne].
  - rewrite bool_decide_eq_true_2 by reflexivity.
    destruct (strict_equals value (original_value key rd)) eqn:E.
    + rewrite DictFacts.get_delete_eq. apply strict_equals_eq in E. rewrite E.
      unfold original_value, Dict.has, prop.
      destruct (Dict.get key (inFlight_bucket rd)); reflexivity.
    + rewrite DictFacts.get_set_eq. reflexivity.
  - rewrite bool_decide_eq_false_2 by exact Hne.
    assert (Dict.get other (if strict_equals value (original_value key rd)
                            then Dict.delete key (Dict.set key value (dirty_bucket rd))
                            else Dict.set key value (dirty_bucket rd))
            = Dict.get other (dirty_bucket rd)) as ->; [|reflexivity].
    destruct (strict_equals _ _).
    + rewrite DictFacts.get_delete_ne by congruence.
      apply DictFacts.get_set_ne. congruence.
    + apply DictFacts.get_set_ne. congruence.
Qed.

(** X1.  After [setDirtyAttribute(key, value)], whatever the value,
    [getAttr(key)] returns that value and [getAttr] of any other key returns
    what it returned before.  The key is in the dirty bucket afterwards
    exactly when the value is not strictly equal to the original of the key:
    its value in flight if it has one, else its confirmed value. *)
Theorem setDirtyAttribute_then_getAttr key value rd :
  returned (setDirtyAttribute key value rd) = true
  /\ result_of (getAttr key (state_of (setDirtyAttribute key value rd))) = Some value
  /\ (forall other, other <> key ->
        result_of (getAttr other (state_of (setDirtyAttribute key value rd)))
        = result_of (getAttr other rd))
  /\ Dict.has key (dirty_bucket (state_of (setDirtyAttribute key value rd)))
     = negb (strict_equals value (original_value key rd)).
Proof.
  split; [apply setDirtyAttribute_returns|].
  split.
  { rewrite getAttr_value, current_value_setDirtyAttribute.
    rewrite bool_decide_eq_true_2 by reflexivity. reflexivity. }
  split.
  { intros other Hne. rewrite !getAttr_value, current_value_setDirtyAttribute.
    rewrite bool_decide_eq_false_2 by exact Hne. reflexivity. }
  destruct (setDirtyAttribute_buckets key value rd) as (Hd & _).
  rewrite Hd. unfold Dict.has. destruct (strict_equals _ _); cbn.
  - rewrite DictFacts.get_delete_eq. reflexivity.
  - rewrite DictFacts.get_set_eq. reflexivity.
Qed.

Lemma changedAttributes_run rd :
  changedAttributes rd =
    Returned (diff_data rd)
      (with___inFlightAttributes (Some (inFlight_bucket rd))
         (with___attributes (Some (dirty_bucket rd))
            (with___data (Some (confirmed_bucket rd)) rd))).
Proof. destruct rd as [i d n del a f c e w]. reflexivity. Qed.

(** X2.  [changedAttributes()] has an entry for each key of the dirty
    bucket or of the bucket in flight, and for no other key: the pair of the
    confirmed value of the key and of its dirty value, or of its value in
    flight when it has no dirty one.  It makes no call and leaves the contents
    of the three buckets as they are. *)
Theorem changedAttributes_lists_dirty_and_in_flight rd :
  exists changed rd',
    changedAttributes rd = Returned changed rd'
    /\ (forall key,
          Dict.get key changed =
            match Dict.get key (dirty_bucket rd) with
            | Some value => Some (prop key (confirmed_bucket rd), value)
            | None =>
                match Dict.get key (inFlight_bucket rd) with
                | Some value => Some (prop key (confirmed_bucket rd), value)
                | None => None
                end
            end)
    /\ dirty_bucket rd' = dirty_bucket rd
    /\ inFlight_bucket rd' = inFlight_bucket rd
    /\ confirmed_bucket rd' = confirmed_bucket rd
    /\ storeWrapper rd' = storeWrapper rd.
Proof.
  eexists _, _. split; [apply changedAttributes_run|].
  split.
  { intros key. rewrite diff_data_get, new_data_get.
    destruct (Dict.get key (dirty_bucket rd)); [reflexivity|].
    destruct (Dict.get key (inFlight_bucket rd)); reflexivity. }
  destruct rd as [i d n del a f c e w]. repeat split.
Qed.

Lemma willCommit_run rd :
  exists rd',
    willCommit rd = Returned tt rd'
    /\ inFlight_bucket rd' = dirty_bucket rd
    /\ __attributes rd' = None
    /\ confirmed_bucket rd' = confirmed_bucket rd
    /\ _errors rd' = _errors rd.
Proof.
  eexists. split; [reflexivity|]. destruct rd as [i d n del a f c e w]. repeat split.
Qed.

(** X3.  [willCommit] followed by [commitWasRejected], with no change
    in between, gives the dirty bucket its keys and values back.  Nothing is
    in flight afterwards, the confirmed bucket is as it was, and [getAttr]
    returns the dirty value of a key that has one and its confirmed value
    otherwise. *)
Theorem commitWasRejected_restores_the_saved_attributes errors rd :
  exists rd',
    (willCommit >> commitWasRejected errors) rd = Returned tt rd'
    /\ (forall key, Dict.get key (dirty_bucket rd') = Dict.get key (dirty_bucket rd))
    /\ __inFlightAttributes rd' = None
    /\ confirmed_bucket rd' = confirmed_bucket rd
    /\ (forall key,
          result_of (getAttr key rd') =
            Some (match Dict.get key (dirty_bucket rd) with
                  | Some value => value
                  | None => prop key (confirmed_bucket rd)
                  end)).
Proof.
  destruct (willCommit_run rd) as (rd1 & Hrun1 & Hf1 & Ha1 & Hc1 & _).
  destruct (commitWasRejected_run errors rd1) as (rd2 & Hrun2 & Hf2 & Hd2 & Hc2 & _).
  exists rd2.
  assert (Hempty : dirty_bucket rd1 = Dict.empty) by (unfold dirty_bucket; rewrite Ha1; reflexivity).
  assert (Hdirty : forall key, Dict.get key (dirty_bucket rd2) = Dict.get key (dirty_bucket rd)).
  { intros key. rewrite Hd2, Hf1, Hempty. cbn.
    destruct (Dict.get key (dirty_bucket rd)); reflexivity. }
  split; [unfold bind; rewrite Hrun1; exact Hrun2|].
  split; [exact Hdirty|]. split; [exact Hf2|]. split; [congruence|].
  intros key. rewrite getAttr_value. unfold current_value, inFlight_bucket.
  rewrite Hdirty, Hf2, Hc2, Hc1. cbn. reflexivity.
Qed.

Lemma bind_inv {S A B} (m : Eff S A) (k : A -> Eff S B) s b s' :
  bind m k s = Returned b s' -> exists a s1, m s = Returned a s1 /\ k a s1 = Returned b s'.
Proof.
  unfold bind. destruct (m s) as [a s1|e s1]; [|discriminate]. intros H. eauto.
Qed.

Section Collaborators.
Variable isEqual : JSValue -> JSValue -> bool.
Variable relationshipsDefinitionFor : string -> list string.

(** The keys [_changedKeys] returns: the keys of the updates that have no
    defined dirty value and whose update is not equal to the original. *)
Lemma _changedKeys_keys updates rd :
  exists keys rd',
    _changedKeys isEqual (Some updates) rd = Returned keys rd'
    /\ dirty_bucket rd' = dirty_bucket rd
    /\ inFlight_bucket rd' = inFlight_bucket rd
    /\ confirmed_bucket rd' = confirmed_bucket rd
    /\ keys = List.filter
                (fun key => strict_equals (prop key (dirty_bucket rd)) JSUndefined
                            && negb (isEqual (original_value key rd) (prop key updates)))
                (Dict.keys updates).
Proof.
  assert (Horiginal : forall key,
            prop key (Dict.assign (Dict.assign Dict.empty (confirmed_bucket rd)) (inFlight_bucket rd))
            = original_value key rd).
  { intros key. unfold original_value, Dict.has, prop. rewrite !DictFacts.get_assign.
    destruct (Dict.get key (inFlight_bucket rd)); cbn; [reflexivity|].
    destruct (Dict.get key (confirmed_bucket rd)); reflexivity. }
  revert Horiginal. destruct rd as [i d n del a f c e w]. intros Horiginal.
  unfold _changedKeys, hasChangedAttributes, bind, gets, _attributes, _data, ret.
  cbn -[List.filter Dict.assign original_value] in *.
  destruct a as [[|kv a]|]; cbn -[List.filter Dict.assign original_value prop];
    eexists _, _; (split; [reflexivity|]); repeat split;
    apply List.filter_ext; intros key; rewrite Horiginal; cbn -[original_value prop];
    try reflexivity;
    destruct (strict_equals _ JSUndefined); reflexivity.
Qed.

Lemma pushData_changedKeys data calculateChange rd :
  result_of (pushData isEqual relationshipsDefinitionFor data calculateChange rd) =
    if calculateChange
    then Some (Some (List.filter
                       (fun key =>
                          strict_equals (prop key (dirty_bucket rd)) JSUndefined
                          && negb (isEqual (original_value key rd)
                                     (prop key (default Dict.empty (attributes data)))))
                       (Dict.keys (default Dict.empty (attributes data)))))
    else Some None.
Proof.
  destruct (pushData_run isEqual relationshipsDefinitionFor data calculateChange rd)
    as (ck & later & rd' & Hrun & _).
  rewrite Hrun. cbn [result_of]. unfold pushData in Hrun.
  apply bind_inv in Hrun as (isNew0 & s0 & H0 & Hrun).
  apply bind_inv in Hrun as ([] & s1 & H1 & Hrun).
  apply bind_inv in Hrun as (ck0 & s2 & H2 & Hrun).
  apply bind_inv in Hrun as (d0 & s3 & _ & Hrun).
  apply bind_inv in Hrun as ([] & s4 & _ & Hrun).
  apply bind_inv in Hrun as (a0 & s5 & _ & Hrun).
  apply bind_inv in Hrun as ([] & s6 & _ & Hrun).
  apply bind_inv in Hrun as ([] & s7 & _ & Hrun).
  apply bind_inv in Hrun as ([] & s8 & _ & Hrun).
  injection Hrun as <- _.
  assert (Hbuckets : dirty_bucket s1 = dirty_bucket rd /\ inFlight_bucket s1 = inFlight_bucket rd
                     /\ confirmed_bucket s1 = confirmed_bucket rd).
  { injection H0 as <- <-. destruct rd as [i d [] del a f c e w]; cbn in H1;
      injection H1 as <-; repeat split. }
  destruct Hbuckets as (Hd & Hf & Hc).
  destruct calculateChange; [|injection H2 as <- _; reflexivity].
  apply bind_inv in H2 as (keys & s2' & H2 & Hret). injection Hret as <- _.
  destruct (attributes data) as [updates|].
  - destruct (_changedKeys_keys updates s1) as (keys' & rd2 & Hkeys & _ & _ & _ & ->).
    rewrite Hkeys in H2. injection H2 as <- _. cbn [default].
    unfold original_value. rewrite Hd, Hf, Hc. reflexivity.
  - injection H2 as <- _. reflexivity.
Qed.

(** X4.  [pushData] returns [undefined] when [calculateChange] is
    false.  When it is true it returns the keys of the attributes of the
    payload whose dirty value is [undefined], those with no dirty value among
    them, and whose pushed value is not [isEqual] to the original of the
    key. *)
Theorem pushData_returns_the_keys_the_server_changed data rd :
  result_of (pushData isEqual relationshipsDefinitionFor data false rd) = Some None
  /\ exists keys,
       result_of (pushData isEqual relationshipsDefinitionFor data true rd) = Some (Some keys)
       /\ forall key,
            key ∈ keys <->
            key ∈ Dict.keys (default Dict.empty (attributes data))
            /\ prop key (dirty_bucket rd) = JSUndefined
            /\ isEqual (original_value key rd)
                 (prop key (default Dict.empty (attributes data))) = false.
Proof.
  split; [apply (pushData_changedKeys data false)|].
  eexists. split; [apply (pushData_changedKeys data true)|].
  intros key. rewrite list_elem_of_In, List.filter_In, <- list_elem_of_In.
  rewrite andb_true_iff, negb_true_iff.
  split; intros (Hin & Hdirty & Heq); repeat split; try assumption.
  - apply strict_equals_eq. exact Hdirty.
  - rewrite Hdirty. reflexivity.
Qed.

(** X5.  After [pushData] the confirmed value of a key of the
    attributes of the payload is the pushed one, and every other confirmed
    value is as before; the bucket in flight is as it was.  For a pushed key
    that is neither dirty nor in flight, [getAttr] returns the pushed
    value. *)
Theorem pushData_merges_into_the_confirmed_attributes data calculateChange rd :
  exists changedKeys rd',
    pushData isEqual relationshipsDefinitionFor data calculateChange rd = Returned changedKeys rd'
    /\ (forall key,
          Dict.get key (confirmed_bucket rd') =
            match Dict.get key (default Dict.empty (attributes data)) with
            | Some pushed => Some pushed
            | None => Dict.get key (confirmed_bucket rd)
            end)
    /\ inFlight_bucket rd' = inFlight_bucket rd
    /\ (forall key pushed,
          Dict.get key (default Dict.empty (attributes data)) = Some pushed ->
          Dict.has key (dirty_bucket rd) = false ->
          Dict.has key (inFlight_bucket rd) = false ->
          result_of (getAttr key rd') = Some pushed).
Proof.
  destruct (pushData_run isEqual relationshipsDefinitionFor data calculateChange rd)
    as (ck & later & rd' & Hrun & _ & _ & _ & _ & Hc & Hf & Hd).
  exists ck, rd'. split; [exact Hrun|].
  assert (Hconfirmed : forall key,
            Dict.get key (confirmed_bucket rd') =
              match Dict.get key (default Dict.empty (attributes data)) with
              | Some pushed => Some pushed
              | None => Dict.get key (confirmed_bucket rd)
              end).
  { intros key. rewrite Hc, DictFacts.get_assign. reflexivity. }
  split; [exact Hconfirmed|]. split; [exact Hf|].
  intros key pushed Hpushed Hnd Hnf.
  rewrite getAttr_value. unfold current_value, prop.
  apply DictFacts.has_false_get in Hnd, Hnf.
  rewrite Hd, Hnd, Hf, Hnf, Hconfirmed, Hpushed. reflexivity.
Qed.

(** X6.  After [pushData] the dirty bucket holds exactly the dirty
    values it held before that are not strictly equal to the confirmed value
    of their key after the push: a push can acknowledge a dirty attribute, and
    it never makes one. *)
Theorem pushData_acknowledges_dirty_attributes data calculateChange rd :
  exists changedKeys rd',
    pushData isEqual relationshipsDefinitionFor data calculateChange rd = Returned changedKeys rd'
    /\ (forall key value,
          Dict.get key (dirty_bucket rd') = Some value <->
          Dict.get key (dirty_bucket rd) = Some value
          /\ strict_equals (prop key (confirmed_bucket rd')) value = false).
Proof.
  destruct (pushData_run isEqual relationshipsDefinitionFor data calculateChange rd)
    as (ck & later & rd' & Hrun & _ & _ & _ & _ & Hc & Hf & Hd).
  exists ck, rd'. split; [exact Hrun|].
  intros key value. rewrite Hd, Hc.
  destruct (Dict.get key (dirty_bucket rd)) as [w|].
  - destruct (strict_equals _ w) eqn:E.
    + split; [discriminate|]. intros [[= ->] H]. congruence.
    + split; [intros [= ->]; auto|]. intros [H _]. exact H.
  - split; [discriminate|]. intros [H _]. discriminate.
Qed.

End Collaborators.

End AttributeFacts.

(** ** The record cache: errors, deletion, commit and rollback *)

Module LifecycleFacts.
Import RecordData RecordDataSpec RecordDataFacts RecordDataLifecycle RecordDataLifecycleSpec.

Lemma hasAttr_run key rd :
  hasAttr key rd =
    Returned (Dict.has key (dirty_bucket rd) || Dict.has key (inFlight_bucket rd)
              || Dict.has key (confirmed_bucket rd))
      (state_of (hasAttr key rd)).
Proof.
  destruct rd as [i d n del a f c e w].
  unfold hasAttr, bind, _attributes, _inFlightAttributes, _data, ret,
    dirty_bucket, inFlight_bucket, confirmed_bucket; cbn.
  destruct (Dict.has key (default Dict.empty a)); cbn; [reflexivity|].
  destruct (Dict.has key (default Dict.empty f)); cbn; reflexivity.
Qed.

(** X7.  [hasAttr(key)] is true exactly when the key is in one of the
    three buckets.  When it is false, [getAttr(key)] is [undefined]; after
    [setDirtyAttribute(key, value)] with a value that differs from the
    original, it is true. *)
Theorem hasAttr_looks_in_the_three_buckets key rd :
  result_of (hasAttr key rd) =
    Some (Dict.has key (dirty_bucket rd) || Dict.has key (inFlight_bucket rd)
          || Dict.has key (confirmed_bucket rd))
  /\ (result_of (hasAttr key rd) = Some false -> result_of (getAttr key rd) = Some JSUndefined)
  /\ (forall value,
        strict_equals value (original_value key rd) = false ->
        result_of (hasAttr key (state_of (setDirtyAttribute key value rd))) = Some true).
Proof.
  split; [rewrite hasAttr_run; reflexivity|].
  split.
  - rewrite hasAttr_run. cbn [result_of]. intros [= H].
    apply orb_false_elim in H as [H Hc]. apply orb_false_elim in H as [Ha Hf].
    apply DictFacts.has_false_get in Ha, Hf, Hc.
    rewrite getAttr_value. unfold current_value, prop. rewrite Ha, Hf, Hc. reflexivity.
  - intros value Hne. rewrite hasAttr_run. cbn [result_of].
    destruct (setDirtyAttribute_buckets key value rd) as (Hd & _).
    rewrite Hd, Hne. unfold Dict.has at 1. rewrite DictFacts.get_set_eq. reflexivity.
Qed.

(** X8.  A new record cache is empty, and so is one after [reset()].
    [getAttr] and [hasAttr] read the buckets through the getters, which create
    a bucket that is [null]: after either of them [isEmpty()] is false, also
    on a new record and for a key that it does not have, for which [getAttr]
    returns [undefined]. *)
Theorem isEmpty_until_a_bucket_is_read identifier0 key rd :
  result_of (isEmpty (RecordData.new identifier0)) = Some true
  /\ result_of (isEmpty (state_of (reset rd))) = Some true
  /\ result_of (isEmpty (state_of (getAttr key rd))) = Some false
  /\ result_of (isEmpty (state_of (hasAttr key rd))) = Some false
  /\ result_of (getAttr key (RecordData.new identifier0)) = Some JSUndefined.
Proof.
  split; [reflexivity|]. split; [destruct rd; reflexivity|].
  split.
  { destruct rd as [i d n del a f c e w].
    unfold getAttr, bind, _attributes, _inFlightAttributes, _data, ret; cbn.
    destruct (Dict.has key (default Dict.empty a)); cbn; [reflexivity|].
    destruct (Dict.has key (default Dict.empty f)); cbn; reflexivity. }
  split; [|reflexivity].
  destruct rd as [i d n del a f c e w].
  unfold hasAttr, bind, _attributes, _inFlightAttributes, _data, ret; cbn.
  destruct (Dict.has key (default Dict.empty a)); cbn; [reflexivity|].
  destruct (Dict.has key (default Dict.empty f)); cbn; reflexivity.
Qed.

Lemma _clearErrors_run rd :
  _clearErrors rd =
    Returned tt (match _errors rd with
                 | Some _ => call (the_notifyErrorsChange rd) (with__errors None rd)
                 | None => rd
                 end).
Proof. destruct rd as [i d n del a f c [e|] w]; reflexivity. Qed.

(** X9.  After [_clearErrors], [getErrors()] returns the empty list.
    The store wrapper is notified ([notifyErrorsChange]) exactly when there
    were errors, so that a second call does nothing at all; the errors that
    [commitWasRejected] has retained are cleared by it. *)
Theorem _clearErrors_notifies_when_there_were_errors rd :
  exists rd',
    _clearErrors rd = Returned tt rd'
    /\ result_of (getErrors rd') = Some []
    /\ storeWrapper rd' =
         storeWrapper rd ++ match _errors rd with
                            | Some _ => [the_notifyErrorsChange rd]
                            | None => []
                            end
    /\ _clearErrors rd' = Returned tt rd'
    /\ forall errors,
         result_of (getErrors (state_of (_clearErrors (state_of (commitWasRejected (Some errors) rd)))))
         = Some [].
Proof.
  eexists. split; [apply _clearErrors_run|].
  split; [destruct rd as [i d n del a f c [e|] w]; reflexivity|].
  split; [destruct rd as [i d n del a f c [e|] w]; cbn; rewrite ?app_nil_r; reflexivity|].
  split; [destruct rd as [i d n del a f c [e|] w]; reflexivity|].
  intros errors.
  destruct (commitWasRejected_run (Some errors) rd) as (rd1 & Hrun & _ & _ & _ & Herrors).
  rewrite Hrun, _clearErrors_run. cbn [state_of]. rewrite Herrors. reflexivity.
Qed.

Lemma bind_assoc {S A B D} (m : Eff S A) (k : A -> Eff S B) (k' : B -> Eff S D) s :
  bind (bind m k) k' s = bind m (fun a => bind (k a) k') s.
Proof. unfold bind. destruct (m s); reflexivity. Qed.

Lemma lift_run {A} (m : RD A) s a rd' :
  m (fields s) = Returned a rd' -> lift m s = Returned a (entered rd' s).
Proof. unfold lift. intros ->. reflexivity. Qed.

Ltac cache_norm :=
  cbv beta iota zeta delta
    [taken entered log_call with__isDeletionCommited fields calls _isDeletionCommited
     with__isDeleted with__isNew with___attributes with___inFlightAttributes with___data
     with__errors RecordData.call calls_after the_notifyErrorsChange the_notifyStateChange
     identifier isDestroyed _isNew _isDeleted __attributes __inFlightAttributes __data
     _errors storeWrapper dirty_bucket inFlight_bucket confirmed_bucket
     resource_id attributes relationships with_identifier identifier_after setRecordId_].

Ltac lift_step :=
  erewrite bind_returned by (apply lift_run; reflexivity); cbv beta; cache_norm.

Ltac lift_step_with H :=
  erewrite bind_returned by (apply lift_run; apply H); cbv beta; cache_norm.

Lemma rollbackAttributes_run s :
  let rd := fields s in
  let changed := match __attributes rd with
                 | Some d => negb (bool_decide (length (Dict.keys d) = 0))
                 | None => false
                 end in
  let dirtyKeys := if changed then Some (Dict.keys (dirty_bucket rd)) else None in
  exists s',
    rollbackAttributes s = Returned dirtyKeys s'
    /\ __attributes (fields s') = (if changed then None else __attributes rd)
    /\ __inFlightAttributes (fields s') = None
    /\ __data (fields s') = __data rd
    /\ _errors (fields s') = None
    /\ _isNew (fields s') = false
    /\ _isDeleted (fields s') = _isNew rd
    /\ identifier (fields s') = identifier rd
    /\ _isDeletionCommited s' = _isDeletionCommited s
    /\ log s' =
         log s
         ++ (if _isNew rd then [graph_push_deleteRecord (identifier rd) true] else [])
         ++ match _errors rd with
            | Some _ => [wrapper_call (the_notifyErrorsChange rd)]
            | None => []
            end
         ++ [wrapper_call (the_notifyStateChange rd)]
         ++ map wrapper_call (property_changes rd (default [] dirtyKeys)).
Proof.
  destruct s as [[i d n del a f c e w] dc cs].
  assert (Hcons : forall (kv : string * JSValue) a,
            bool_decide (length (Dict.keys (kv :: a)) = 0) = false)
    by (intros; apply bool_decide_eq_false_2; discriminate).
  unfold rollbackAttributes, removeFromInverseRelationships, log.
  destruct a as [[|kv a]|], n, e as [e|]; cache_norm; rewrite ?Hcons; cbn [negb default];
    try change (Dict.keys (kv :: a)) with (kv.1 :: Dict.keys a);
    eexists;
    (split;
     [repeat first [ lift_step
                   | lift_step_with _notifyAttributes_run
                   | erewrite bind_returned by reflexivity; cbv beta; cache_norm ];
      try change (Dict.keys (kv :: a)) with (kv.1 :: Dict.keys a); cbv iota;
      repeat first [ lift_step
                   | lift_step_with _notifyAttributes_run
                   | erewrite bind_returned by reflexivity; cbv beta; cache_norm ];
      reflexivity|]);
    cache_norm; repeat split;
    rewrite ?app_nil_r, ?map_app, <- ?app_assoc; cbn [map app]; reflexivity.
Qed.

(** X10.  [rollbackAttributes] returns the keys of the dirty bucket
    when [hasChangedAttributes()] holds, and [undefined] otherwise.
    Afterwards [getAttr] returns the confirmed value of every key, no
    attribute is changed, nothing is in flight and there are no errors. *)
Theorem rollbackAttributes_restores_the_confirmed_values s :
  exists dirtyKeys s',
    rollbackAttributes s = Returned dirtyKeys s'
    /\ dirtyKeys = (if result_of (hasChangedAttributes (fields s)) is Some true
                    then Some (Dict.keys (dirty_bucket (fields s))) else None)
    /\ (forall key,
          result_of (getAttr key (fields s')) = Some (prop key (confirmed_bucket (fields s))))
    /\ result_of (hasChangedAttributes (fields s')) = Some false
    /\ __inFlightAttributes (fields s') = None
    /\ result_of (getErrors (fields s')) = Some [].
Proof.
  destruct (rollbackAttributes_run s)
    as (s' & Hrun & Ha & Hf & Hc & He & _).
  eexists _, s'. split; [exact Hrun|].
  split.
  { unfold hasChangedAttributes, gets. cbn [result_of].
    destruct (match __attributes (fields s) with
              | Some d => negb (bool_decide (length (Dict.keys d) = 0))
              | None => false
              end); reflexivity. }
  split.
  { intros key. rewrite getAttr_value. unfold current_value, dirty_bucket, inFlight_bucket,
      confirmed_bucket. rewrite Ha, Hf, Hc. cbn [default Dict.get Dict.empty].
    destruct (__attributes (fields s)) as [[|kv a]|]; reflexivity. }
  split.
  { unfold hasChangedAttributes, gets. cbn [result_of]. rewrite Ha.
    destruct (__attributes (fields s)) as [[|kv a]|]; reflexivity. }
  split; [exact Hf|].
  unfold getErrors, gets. cbn. rewrite He. reflexivity.
Qed.

(** X11.  [rollbackAttributes] leaves the record not new, and deleted
    exactly when it was new.  The calls it makes are, in this order: the
    [deleteRecord] operation pushed to the graph, with [isNew] true, when the
    record was new; [notifyErrorsChange] when there were errors;
    [notifyStateChange]; [notifyPropertyChange] for each of the dirty keys it
    returns. *)
Theorem rollbackAttributes_deletes_a_new_record s :
  exists dirtyKeys s',
    rollbackAttributes s = Returned dirtyKeys s'
    /\ result_of (isNew (fields s')) = Some false
    /\ result_of (isDeleted (fields s')) = Some (_isNew (fields s))
    /\ log s' =
         log s
         ++ (if _isNew (fields s)
             then [graph_push_deleteRecord (identifier (fields s)) true] else [])
         ++ match _errors (fields s) with
            | Some _ => [wrapper_call (the_notifyErrorsChange (fields s))]
            | None => []
            end
         ++ [wrapper_call (the_notifyStateChange (fields s))]
         ++ map wrapper_call (property_changes (fields s) (default [] dirtyKeys)).
Proof.
  destruct (rollbackAttributes_run s)
    as (s' & Hrun & _ & _ & _ & _ & Hn & Hd & _ & _ & Hlog).
  eexists _, s'. split; [exact Hrun|].
  split; [unfold isNew, gets; cbn; rewrite Hn; reflexivity|].
  split; [unfold isDeleted, gets; cbn; rewrite Hd; reflexivity|].
  exact Hlog.
Qed.

Section Collaborators.
Variable isEqual : JSValue -> JSValue -> bool.
Variable relationshipsDefinitionFor : string -> list string.

Lemma _changedKeys_explicit updates rd :
  _changedKeys isEqual updates rd =
    Returned (changed_by_server isEqual updates rd)
      (match updates with
       | Some _ => with___data (Some (confirmed_bucket rd)) rd
       | None => rd
       end).
Proof.
  destruct updates as [updates|]; [|reflexivity].
  destruct (AttributeFacts._changedKeys_keys isEqual updates rd)
    as (keys & rd' & Hrun & _ & _ & _ & ->).
  destruct (_changedKeys_run isEqual (Some updates) rd) as (keys' & Hrun').
  rewrite Hrun in Hrun'. injection Hrun' as _ ->. exact Hrun.
Qed.

Lemma property_changes_for rd keys identifier0 :
  identifier rd = identifier0 -> Forall (is_for identifier0) (property_changes rd keys).
Proof.
  intros <-. unfold property_changes. apply Forall_map, Forall_forall.
  intros key _. repeat split.
Qed.

Lemma setup_calls_for rels rd identifier0 :
  identifier rd = identifier0 ->
  Forall (is_for identifier0) (setup_calls relationshipsDefinitionFor rels rd).
Proof.
  intros <-. unfold setup_calls. apply Forall_map, Forall_forall.
  intros key _. reflexivity.
Qed.

Lemma didCommit_run data s :
  let rd := fields s in
  let rd1 := with_identifier (identifier_after data (identifier rd)) rd in
  let updates := match data with Some data => attributes data | None => None end in
  let confirmed' :=
    Dict.assign (Dict.assign (confirmed_bucket rd) (inFlight_bucket rd))
      (default Dict.empty updates) in
  exists later s',
    didCommit isEqual relationshipsDefinitionFor data s
    = Returned (changed_by_server isEqual updates rd) s'
    /\ confirmed_bucket (fields s') = confirmed'
    /\ inFlight_bucket (fields s') = Dict.empty
    /\ (forall key,
          Dict.get key (dirty_bucket (fields s')) =
            match Dict.get key (dirty_bucket rd) with
            | Some w => if strict_equals (prop key confirmed') w then None else Some w
            | None => None
            end)
    /\ _errors (fields s') = None
    /\ _isNew (fields s') = false
    /\ _isDeleted (fields s') = _isDeleted rd
    /\ _isDeletionCommited s' = (if _isDeleted rd then Some true else _isDeletionCommited s)
    /\ identifier (fields s') = identifier_after data (identifier rd)
    /\ log s' =
         log s
         ++ (if _isDeleted rd then [graph_push_deleteRecord (identifier rd) (_isNew rd)] else [])
         ++ match data with
            | Some data =>
                match resource_id data with
                | Some id0 =>
                    if negb (bool_decide (id0 = ""))
                    then [setRecordId (type (identifier rd)) id0 (lid (identifier rd))]
                    else []
                | None => []
                end
            | None => []
            end
         ++ map wrapper_call later
         ++ [wrapper_call (the_notifyStateChange rd1)]
    /\ Forall (fun c => is_notifyStateChange c = false) later
    /\ Forall (is_for (identifier rd1)) later.
Proof.
  destruct s as [[i d n del a f c e w] dc cs].
  intros rd rd1 updates confirmed'.
  exists ((match data with
           | Some data =>
               match relationships data with
               | Some rels => setup_calls relationshipsDefinitionFor rels rd1
               | None => []
               end
           | None => []
           end)
          ++ property_changes rd1
               (Dict.keys (diff_data (with___data (Some confirmed')
                                        (with___inFlightAttributes None rd))))
          ++ property_changes rd1 (changed_by_server isEqual updates rd)
          ++ match e with Some _ => [the_notifyErrorsChange rd1] | None => [] end).
  assert (Hquiet : forall rd0 keys, Forall (fun c => is_notifyStateChange c = false)
                                      (property_changes rd0 keys))
    by (intros; apply property_changes_quiet).
  assert (Hquiet' : forall rd0 rels, Forall (fun c => is_notifyStateChange c = false)
                                       (setup_calls relationshipsDefinitionFor rels rd0))
    by (intros; apply setup_calls_quiet).
  subst rd rd1 updates confirmed'.
  unfold didCommit, _deletionConfirmed, removeFromInverseRelationships, log.
  destruct del, e as [e|], data as [[[id0|] [attrs|] [rels|]]|];
    cache_norm;
    try destruct (bool_decide (id0 = ""));
    cbn [negb default];
    eexists;
    (split;
     [repeat first [ rewrite bind_assoc
                   | lift_step_with _notifyAttributes_run
                   | lift_step_with _updateChangedAttributes_run
                   | lift_step_with _changedKeys_explicit
                   | lift_step_with (_setupRelationships_run relationshipsDefinitionFor)
                   | lift_step
                   | erewrite bind_returned by reflexivity; cbv beta; cache_norm ];
      reflexivity|]);
    cache_norm.
  all: repeat split.
  all: try (rewrite ?app_nil_r, ?map_app, <- ?app_assoc; cbn [map app]; reflexivity).
  all: try (repeat apply Forall_app_2; solve [apply Hquiet | apply Hquiet' | repeat constructor]).
  all: try (repeat apply Forall_app_2;
            solve [ apply property_changes_for; reflexivity
                  | apply setup_calls_for; reflexivity
                  | repeat constructor ]).
  all: intros key; exact (pruned_dirty_get key _).
Qed.

(** X12.  [didCommit(data)] returns.  Afterwards the confirmed value of
    a key is the value the attributes of the payload have for it, else the
    value that was in flight, else the confirmed value of before; nothing is
    in flight; the dirty bucket keeps its values that are not strictly equal
    to the new confirmed value of their key; the record is not new and has no
    errors.  The keys returned are the keys of the attributes of the payload
    that have no defined dirty value and whose value is not [isEqual] to the
    original of the key. *)
Theorem didCommit_confirms_the_saved_attributes data s :
  let rd := fields s in
  let updates := default Dict.empty (match data with
                                     | Some data => attributes data
                                     | None => None
                                     end) in
  exists changedKeys s',
    didCommit isEqual relationshipsDefinitionFor data s = Returned changedKeys s'
    /\ (forall key,
          Dict.get key (confirmed_bucket (fields s')) =
            match Dict.get key updates with
            | Some value => Some value
            | None =>
                match Dict.get key (inFlight_bucket rd) with
                | Some value => Some value
                | None => Dict.get key (confirmed_bucket rd)
                end
            end)
    /\ inFlight_bucket (fields s') = Dict.empty
    /\ (forall key value,
          Dict.get key (dirty_bucket (fields s')) = Some value <->
          Dict.get key (dirty_bucket rd) = Some value
          /\ strict_equals (prop key (confirmed_bucket (fields s'))) value = false)
    /\ (forall key,
          key ∈ changedKeys <->
          key ∈ Dict.keys updates
          /\ prop key (dirty_bucket rd) = JSUndefined
          /\ isEqual (original_value key rd) (prop key updates) = false)
    /\ result_of (isNew (fields s')) = Some false
    /\ result_of (getErrors (fields s')) = Some [].
Proof.
  intros rd updates. subst rd.
  destruct (didCommit_run data s)
    as (later & s' & Hrun & Hc & Hf & Hd & He & Hn & _).
  eexists _, s'. split; [exact Hrun|].
  split.
  { intros key. rewrite Hc, !DictFacts.get_assign. reflexivity. }
  split; [exact Hf|].
  split.
  { intros key value. rewrite Hd, Hc.
    destruct (Dict.get key (dirty_bucket (fields s))) as [w|].
    - destruct (strict_equals _ w) eqn:E.
      + split; [discriminate|]. intros [[= ->] H]. congruence.
      + split; [intros [= ->]; auto|]. intros [H _]. exact H.
    - split; [discriminate|]. intros [H _]. discriminate. }
  split.
  { intros key. subst updates. unfold changed_by_server.
    destruct (match data with Some data0 => attributes data0 | None => None end) as [u|].
    - cbn [default]. rewrite list_elem_of_In, List.filter_In, <- list_elem_of_In.
      rewrite andb_true_iff, negb_true_iff.
      split; intros (Hin & Hdirty & Heq); repeat split; try assumption.
      + apply strict_equals_eq. exact Hdirty.
      + rewrite Hdirty. reflexivity.
    - cbn. split; [intros H; inversion H|]. intros [H _]. inversion H. }
  split; [unfold isNew, gets; cbn; rewrite Hn; reflexivity|].
  unfold getErrors, gets. cbn. rewrite He. reflexivity.
Qed.

(** X13.  [didCommit] on a record that is deleted pushes the
    [deleteRecord] operation to the graph, with the flag [isNew] the record
    had, and sets [_isDeletionCommited]; on a record that is not deleted it
    does neither.  It calls [setRecordId] next when the payload has an id that
    is not the empty string, which gives the id to an identifier that has
    none.  Every call after that is made for the identifier as it is then,
    and the last one is [notifyStateChange], the only notification of that
    kind. *)
Theorem didCommit_confirms_a_deletion data s :
  let rd := fields s in
  exists changedKeys later s',
    didCommit isEqual relationshipsDefinitionFor data s = Returned changedKeys s'
    /\ result_of (isDeletionCommitted s') =
         Some (if _isDeleted rd then Some true else _isDeletionCommited s)
    /\ result_of (isDeleted (fields s')) = Some (_isDeleted rd)
    /\ identifier (fields s') = identifier_after data (identifier rd)
    /\ log s' =
         log s
         ++ (if _isDeleted rd then [graph_push_deleteRecord (identifier rd) (_isNew rd)] else [])
         ++ match data with
            | Some data =>
                match resource_id data with
                | Some id0 =>
                    if negb (bool_decide (id0 = ""))
                    then [setRecordId (type (identifier rd)) id0 (lid (identifier rd))]
                    else []
                | None => []
                end
            | None => []
            end
         ++ map wrapper_call later
         ++ [wrapper_call (the_notifyStateChange (fields s'))]
    /\ Forall (fun c => is_notifyStateChange c = false) later
    /\ Forall (is_for (identifier (fields s'))) later.
Proof.
  intros rd. subst rd.
  destruct (didCommit_run data s)
    as (later & s' & Hrun & _ & _ & _ & _ & _ & Hdel & Hdc & Hid & Hlog & Hquiet & Hfor).
  eexists _, later, s'. split; [exact Hrun|].
  split; [unfold isDeletionCommitted, gets; cbn; rewrite Hdc; reflexivity|].
  split; [unfold isDeleted, gets; cbn; rewrite Hdel; reflexivity|].
  split; [exact Hid|].
  split; [|split; [exact Hquiet|rewrite Hid; exact Hfor]].
  rewrite Hlog. unfold the_notifyStateChange. rewrite Hid. reflexivity.
Qed.

Lemma lift_willCommit_run s :
  exists s1,
    lift willCommit s = Returned tt s1
    /\ inFlight_bucket (fields s1) = dirty_bucket (fields s)
    /\ __attributes (fields s1) = None
    /\ confirmed_bucket (fields s1) = confirmed_bucket (fields s)
    /\ log s1 = log s.
Proof.
  destruct s as [[i d n del a f c e w] dc cs].
  eexists. split; [reflexivity|]. unfold log. cache_norm. cbn [map].
  rewrite !app_nil_r. repeat split.
Qed.

(** X14.  [willCommit] followed by [didCommit(null)] returns no changed
    key and makes the dirty values the confirmed ones: afterwards no key is
    dirty or in flight, [hasChangedAttributes()] is false, and [getAttr]
    returns the value that was dirty, or the confirmed value of before. *)
Theorem didCommit_after_willCommit_confirms_the_dirty_values s :
  let rd := fields s in
  exists s',
    (lift willCommit >> didCommit isEqual relationshipsDefinitionFor None) s = Returned [] s'
    /\ (forall key,
          Dict.get key (confirmed_bucket (fields s')) =
            match Dict.get key (dirty_bucket rd) with
            | Some value => Some value
            | None => Dict.get key (confirmed_bucket rd)
            end)
    /\ (forall key, Dict.get key (dirty_bucket (fields s')) = None)
    /\ inFlight_bucket (fields s') = Dict.empty
    /\ result_of (hasChangedAttributes (fields s')) = Some false
    /\ (forall key,
          result_of (getAttr key (fields s')) =
            Some (match Dict.get key (dirty_bucket rd) with
                  | Some value => value
                  | None => prop key (confirmed_bucket rd)
                  end)).
Proof.
  intros rd. subst rd.
  destruct (lift_willCommit_run s) as (s1 & Hrun1 & Hf1 & Ha1 & Hc1 & _).
  destruct (didCommit_run None s1) as (later & s' & Hrun & Hc & Hf & Hd & _).
  exists s'.
  assert (Hempty : dirty_bucket (fields s1) = Dict.empty)
    by (unfold dirty_bucket; rewrite Ha1; reflexivity).
  assert (Hconfirmed : forall key,
            Dict.get key (confirmed_bucket (fields s')) =
              match Dict.get key (dirty_bucket (fields s)) with
              | Some value => Some value
              | None => Dict.get key (confirmed_bucket (fields s))
              end).
  { intros key. rewrite Hc, !DictFacts.get_assign, Hf1, Hc1. reflexivity. }
  assert (Hdirty : forall key, Dict.get key (dirty_bucket (fields s')) = None).
  { intros key. rewrite Hd, Hempty. reflexivity. }
  split; [unfold bind; rewrite Hrun1; exact Hrun|].
  split; [exact Hconfirmed|]. split; [exact Hdirty|]. split; [exact Hf|].
  split.
  { unfold hasChangedAttributes, gets. cbn [result_of]. f_equal.
    destruct (__attributes (fields s')) as [[|[k v] a]|] eqn:E; try reflexivity.
    specialize (Hdirty k). unfold dirty_bucket in Hdirty. rewrite E in Hdirty.
    cbn in Hdirty. rewrite bool_decide_eq_true_2 in Hdirty by reflexivity. discriminate. }
  intros key. rewrite getAttr_value. unfold current_value, prop.
  rewrite Hdirty, Hf, Hconfirmed. cbn.
  destruct (Dict.get key (dirty_bucket (fields s))); reflexivity.
Qed.

End Collaborators.

End LifecycleFacts.

(** ** The record cache: the records related to a record *)

Module RelatedRecordsFacts.
Import RelationshipGraph RelatedRecords RelatedRecordsSpec.

Lemma enqueue_unseen_run values seen queue :
  enqueue_unseen values seen queue =
    (seen ++ first_occurrences seen values, queue ++ first_occurrences seen values).
Proof.
  revert seen queue. induction values as [|x values IH]; intros seen queue; cbn.
  - rewrite !app_nil_r. reflexivity.
  - case_bool_decide as Eb; [apply IH|].
    rewrite IH, <- !app_assoc. reflexivity.
Qed.

Lemma first_occurrences_seen seen values :
  (forall x, x ∈ values -> x ∈ seen) -> first_occurrences seen values = [].
Proof.
  revert seen. induction values as [|x values IH]; intros seen Hall; [reflexivity|]. cbn.
  rewrite bool_decide_eq_true_2 by (apply Hall; left).
  apply IH. intros y Hy. apply Hall. right. exact Hy.
Qed.

Lemma first_occurrences_covers seen values x :
  x ∈ values -> x ∈ seen ++ first_occurrences seen values.
Proof.
  revert seen. induction values as [|y values IH]; intros seen Hin; [inversion Hin|]. cbn.
  apply elem_of_cons in Hin as [->|Hin].
  - case_bool_decide as Eb.
    + apply elem_of_app. left. exact Eb.
    + apply elem_of_app. right. left.
  - case_bool_decide as Eb; [apply IH; exact Hin|].
    specialize (IH (seen ++ [y]) Hin). rewrite <- app_assoc in IH. exact IH.
Qed.

Lemma length_first_occurrences seen values :
  length (first_occurrences seen values) <= length values.
Proof.
  revert seen. induction values as [|x values IH]; intros seen; cbn; [lia|].
  case_bool_decide; [specialize (IH seen)|specialize (IH (seen ++ [x]))]; cbn; lia.
Qed.

(** Once the values of the iterable are all seen, a round only moves the
    head of the queue to the array. *)
Lemma drain_seen rounds g this values queue seen array :
  _directlyRelatedRecordDatasIterable g this = inr values ->
  (forall x, x ∈ values -> x ∈ seen) ->
  length queue <= rounds ->
  drain rounds g this queue seen array = Some (inr (array ++ queue)).
Proof.
  intros Hvalues. revert queue seen array.
  induction rounds as [|rounds IH]; intros queue seen array Hall Hlen.
  - destruct queue; [cbn; rewrite app_nil_r; reflexivity|cbn in Hlen; lia].
  - destruct queue as [|identifier queue]; [cbn; rewrite app_nil_r; reflexivity|].
    cbn [drain]. rewrite Hvalues, enqueue_unseen_run.
    rewrite first_occurrences_seen.
    + rewrite !app_nil_r, IH.
      * rewrite <- app_assoc. reflexivity.
      * intros x Hx. case_bool_decide; [apply Hall; exact Hx|].
        apply elem_of_app. left. apply Hall. exact Hx.
      * cbn in Hlen. lia.
    + intros x Hx. case_bool_decide; [apply Hall; exact Hx|].
      apply elem_of_app. left. apply Hall. exact Hx.
Qed.

(** X15.  When the iterator over the edges of the record yields
    [values] without failing, the loop of [_allRelatedRecordDatas] ends within
    [length values + 1] rounds, and the array is the identifier of the record
    followed by the identifiers among [values] other than it, each once, in
    the order in which they were first yielded.  Every round reads the
    iterable of the record itself, so that an identifier that is related to
    one of its relatives only is not in the array. *)
Theorem _allRelatedRecordDatas_reaches_one_step rounds g this values :
  _directlyRelatedRecordDatasIterable g this = inr values ->
  length values < rounds ->
  _allRelatedRecordDatas rounds g this = Some (inr (this :: first_occurrences [this] values)).
Proof.
  intros Hvalues Hrounds. unfold _allRelatedRecordDatas.
  destruct rounds as [|rounds]; [lia|]. cbn [drain].
  rewrite bool_decide_eq_false_2 by apply not_elem_of_nil.
  rewrite Hvalues, enqueue_unseen_run. cbn [app].
  rewrite (drain_seen rounds g this values); [reflexivity|exact Hvalues| |].
  - intros x Hx. apply (first_occurrences_covers [this] values x Hx).
  - pose proof (length_first_occurrences [this] values). lia.
Qed.

Lemma _allRelatedRecordDatas_reaches_one_step_witness :
  _allRelatedRecordDatas 4 two_steps GraphSpec.post_1
  = Some (inr [GraphSpec.post_1; GraphSpec.comment_1; GraphSpec.comment_2])
  /\ _directlyRelatedRecordDatasIterable two_steps GraphSpec.comment_1 = inr [post_2; post_2].
Proof.
  split; [|vm_compute; reflexivity].
  rewrite (_allRelatedRecordDatas_reaches_one_step 4 two_steps GraphSpec.post_1
             [GraphSpec.comment_1; GraphSpec.comment_1; GraphSpec.comment_2]).
  - vm_compute. reflexivity.
  - vm_compute. reflexivity.
  - cbn. lia.
Defined.

End RelatedRecordsFacts.

(** ** The graph: edges, pushes and transactions *)

Module GraphMoreFacts.
Import RelationshipGraph GraphSpec GraphMoreSpec GraphFacts.

Lemma relationships_of_set_edge identifier0 key rel g relationships :
  relationships_of identifier0 g = Some relationships ->
  relationships_of identifier0 (set_edge identifier0 key rel g)
  = Some (Dict.set key rel relationships).
Proof.
  unfold set_edge, relationships_of. intros H. rewrite H. cbn.
  apply lookup_insert_eq.
Qed.

Lemma get_run c identifier0 propertyName g :
  propertyName <> "" ->
  let relationships := default Dict.empty (relationships_of identifier0 g) in
  let g1 := match relationships_of identifier0 g with
            | Some _ => g
            | None => with_identifiers (<[identifier0 := Dict.empty]> (identifiers g)) g
            end in
  get c identifier0 propertyName g =
    match Dict.get propertyName relationships with
    | Some relationship => Returned relationship g1
    | None =>
        match definitionFor c identifier0 propertyName with
        | None =>
            Threw (AssertionFailed ("Could not determine relationship information for "
                                      ++ type identifier0 ++ "." ++ propertyName)%string) g1
        | Some meta =>
            let relationship :=
              match kind meta with
              | KindHasMany => ManyEdge (new_ManyRelationship meta identifier0)
              | KindBelongsTo => BelongsToEdge (new_BelongsToRelationship meta identifier0)
              | KindImplicit => ImplicitEdge (new_ImplicitRelationship meta identifier0)
              end in
            Returned relationship (set_edge identifier0 propertyName relationship g1)
        end
    end.
Proof.
  intros Hname relationships g1. subst relationships g1.
  unfold get, assert. rewrite bool_decide_eq_false_2 by exact Hname. cbn [negb].
  unfold bind at 1. unfold ret at 1. unfold bind at 1. unfold gets at 1.
  destruct (relationships_of identifier0 g) as [rels|] eqn:E.
  - change (default Dict.empty (Some rels)) with rels.
    unfold bind at 1. unfold ret at 1.
    destruct (Dict.get propertyName rels); [reflexivity|].
    destruct (definitionFor c identifier0 propertyName); reflexivity.
  - change (default Dict.empty None) with (@Dict.empty RelationshipEdge).
    unfold bind at 1. unfold bind at 1. unfold modify at 1. unfold ret at 1.
    cbn [Dict.get Dict.empty].
    destruct (definitionFor c identifier0 propertyName); reflexivity.
Qed.

Lemma get_expects_a_name c identifier0 g :
  get c identifier0 "" g = Threw (AssertionFailed "expected propertyName") g.
Proof. reflexivity. Qed.

(** X16.  When [get(identifier, propertyName)] returns an edge, the
    graph has that edge from then on: [has] is true, the edge is the one
    stored under that name, and a second [get] returns the same edge and
    leaves the graph as it is. *)
Theorem get_creates_the_edge_once c identifier0 propertyName relationship g g' :
  get c identifier0 propertyName g = Returned relationship g' ->
  result_of (has identifier0 propertyName g') = Some true
  /\ edge_at (identifier0, propertyName) g' = Some relationship
  /\ get c identifier0 propertyName g' = Returned relationship g'.
Proof.
  intros Hget.
  assert (Hname : propertyName <> "").
  { intros ->. rewrite get_expects_a_name in Hget. discriminate. }
  assert (Hedge : edge_at (identifier0, propertyName) g' = Some relationship).
  { rewrite (get_run c identifier0 propertyName g Hname) in Hget. unfold edge_at. cbn [fst snd].
    destruct (relationships_of identifier0 g) as [rels|] eqn:E.
    - change (default Dict.empty (Some rels)) with rels in Hget.
      destruct (Dict.get propertyName rels) as [rel|] eqn:E2.
      + injection Hget as <- <-. rewrite E. exact E2.
      + destruct (definitionFor c identifier0 propertyName) as [meta|]; [|discriminate].
        injection Hget as <- <-.
        rewrite (relationships_of_set_edge _ _ _ _ rels E). apply DictFacts.get_set_eq.
    - change (default Dict.empty None) with (@Dict.empty RelationshipEdge) in Hget.
      cbn [Dict.get Dict.empty] in Hget.
      destruct (definitionFor c identifier0 propertyName) as [meta|]; [|discriminate].
      injection Hget as <- <-.
      rewrite (relationships_of_set_edge _ _ _ _ Dict.empty).
      + apply DictFacts.get_set_eq.
      + unfold relationships_of. cbn. apply lookup_insert_eq. }
  unfold edge_at in Hedge. cbn [fst snd] in Hedge.
  destruct (relationships_of identifier0 g') as [rels'|] eqn:E'; [|discriminate].
  split; [unfold has, gets; cbn; rewrite E'; unfold Dict.has; rewrite Hedge; reflexivity|].
  split; [unfold edge_at; cbn [fst snd]; rewrite E'; exact Hedge|].
  rewrite (get_run c identifier0 propertyName g' Hname), E'.
  change (default Dict.empty (Some rels')) with rels'. rewrite Hedge. reflexivity.
Qed.

Lemma get_creates_the_edge_once_witness :
  get idle post_1 "comments" new_Graph
  = Returned (ManyEdge (new_ManyRelationship HasManySpec.comments_of_post post_1))
      with_comments_of_post_1
  /\ result_of (has post_1 "comments" with_comments_of_post_1) = Some true
  /\ result_of (has post_1 "comments" new_Graph) = Some false.
Proof.
  assert (H : get idle post_1 "comments" new_Graph
              = Returned (ManyEdge (new_ManyRelationship HasManySpec.comments_of_post post_1))
                  with_comments_of_post_1) by (vm_compute; reflexivity).
  split; [exact H|].
  split; [|vm_compute; reflexivity].
  exact (proj1 (get_creates_the_edge_once idle post_1 "comments" _ _ _ H)).
Defined.

(** X17.  [get] for a name that the definitions do not know, on a
    record that has no edge of that name, fails with the assertion [Could not
    determine relationship information for <type>.<name>], after it has given
    the record a node: the dictionary of the record is there afterwards,
    empty if the record had none, the other nodes are as they were, and [has]
    is still false.  With the empty name [get] fails the assertion [expected
    propertyName] and changes nothing. *)
Theorem get_of_an_unknown_relationship c identifier0 propertyName g :
  propertyName <> "" ->
  definitionFor c identifier0 propertyName = None ->
  result_of (has identifier0 propertyName g) = Some false ->
  exists g',
    get c identifier0 propertyName g =
      Threw (AssertionFailed ("Could not determine relationship information for "
                                ++ type identifier0 ++ "." ++ propertyName)%string) g'
    /\ relationships_of identifier0 g'
       = Some (default Dict.empty (relationships_of identifier0 g))
    /\ (forall other, other <> identifier0 ->
          relationships_of other g' = relationships_of other g)
    /\ result_of (has identifier0 propertyName g') = Some false
    /\ get c identifier0 "" g = Threw (AssertionFailed "expected propertyName") g.
Proof.
  intros Hname Hdef Hhas.
  rewrite (get_run c identifier0 propertyName g Hname), Hdef.
  unfold has, gets in *. cbn [result_of] in *.
  destruct (relationships_of identifier0 g) as [rels|] eqn:E.
  - change (default Dict.empty (Some rels)) with rels.
    injection Hhas as Hhas. apply DictFacts.has_false_get in Hhas. rewrite Hhas.
    eexists. split; [reflexivity|]. rewrite E.
    repeat split. f_equal. apply DictFacts.has_false_get. exact Hhas.
  - change (default Dict.empty None) with (@Dict.empty RelationshipEdge).
    cbn [Dict.get Dict.empty].
    eexists. split; [reflexivity|].
    split; [unfold relationships_of; cbn; apply lookup_insert_eq|].
    split.
    + intros other Hne. unfold relationships_of. cbn. apply lookup_insert_ne. congruence.
    + split; [|reflexivity].
      unfold relationships_of. cbn. rewrite lookup_insert_eq. reflexivity.
Qed.

Lemma get_of_an_unknown_relationship_witness :
  exists g',
    get idle post_1 "author" new_Graph =
      Threw (AssertionFailed "Could not determine relationship information for post.author") g'
    /\ relationships_of post_1 g' = Some Dict.empty.
Proof.
  destruct (get_of_an_unknown_relationship idle post_1 "author" new_Graph)
    as (g' & Hget & Hnode & _).
  - discriminate.
  - reflexivity.
  - reflexivity.
  - exists g'. split; [exact Hget|exact Hnode].
Defined.

Lemma store_set_edge identifier0 key rel g : store (set_edge identifier0 key rel g) = store g.
Proof. unfold set_edge. destruct (relationships_of identifier0 g); reflexivity. Qed.

Lemma get_store c identifier0 propertyName g :
  store (state_of (get c identifier0 propertyName g)) = store g.
Proof.
  destruct (decide (propertyName = "")) as [->|Hname]; [reflexivity|].
  rewrite (get_run c identifier0 propertyName g Hname).
  destruct (relationships_of identifier0 g) as [rels|] eqn:E.
  - change (default Dict.empty (Some rels)) with rels.
    destruct (Dict.get propertyName rels); [reflexivity|].
    destruct (definitionFor c identifier0 propertyName); [|reflexivity].
    cbn [state_of]. apply store_set_edge.
  - change (default Dict.empty None) with (@Dict.empty RelationshipEdge).
    cbn [Dict.get Dict.empty].
    destruct (definitionFor c identifier0 propertyName); [|reflexivity].
    cbn [state_of]. rewrite store_set_edge. reflexivity.
Qed.

Lemma push_store c o g g' :
  push c o g = Returned tt g' ->
  store g' = store g ++ (if _willSyncRemote g then [] else [the_coalesce_pass]).
Proof.
  unfold push.
  set (first := match op o with
                | OpDeleteRecord => modify (push_deletions o)
                | OpReplaceRelatedRecord => modify (push_belongsTo o)
                | _ => _
                end).
  assert (Hfirst : forall g1, first g = Returned tt g1 ->
            _willSyncRemote g1 = _willSyncRemote g /\ store g1 = store g).
  { intros g1. subst first.
    assert (Hother :
      (let! relationship := get c (record o) (field o) in
       assert "Cannot push a remote update for an implicit relationship"
         (negb (isImplicit (edge_definition relationship))) >>
       match kind (edge_definition relationship) with
       | KindBelongsTo => modify (push_belongsTo o)
       | KindHasMany => modify (push_hasMany o)
       | KindImplicit => throw (JsError "TypeError: this._pushedUpdates.implicit is undefined")
       end) g = Returned tt g1 ->
      _willSyncRemote g1 = _willSyncRemote g /\ store g1 = store g).
    { unfold bind. pose proof (get_keeps c (record o) (field o) g) as [_ Hw].
      pose proof (get_store c (record o) (field o) g) as Hs.
      destruct (get c (record o) (field o) g) as [rel g2|e g2]; [|discriminate].
      cbn [state_of] in Hw, Hs.
      destruct (negb (isImplicit (edge_definition rel))); [|discriminate]. cbn.
      destruct (kind (edge_definition rel)); cbn; intros [= <-]; cbn; auto. }
    destruct (op o); try exact Hother; intros [= <-]; cbn; auto. }
  unfold bind at 1. destruct (first g) as [[] g1|e g1] eqn:E; [|discriminate].
  destruct (Hfirst g1 eq_refl) as [Hw Hs].
  unfold bind, gets. rewrite <- Hw, <- Hs.
  destruct (_willSyncRemote g1) eqn:Ew; cbn; intros [= <-]; cbn.
  - rewrite app_nil_r. reflexivity.
  - reflexivity.
Qed.

Lemma pending_push c o g g' :
  push c o g = Returned tt g' -> pending g' ≡ₚ pending g ++ [o].
Proof.
  intros H. destruct (push_appends c o g g' H) as [_ [Hq|[Hq|Hq]]];
    unfold pending; rewrite Hq; cbn.
  - rewrite <- !app_assoc. apply Permutation_app_head.
    rewrite (Permutation_app_comm [o]). rewrite <- !app_assoc. reflexivity.
  - rewrite <- !app_assoc. do 2 apply Permutation_app_head. apply Permutation_app_comm.
  - rewrite <- !app_assoc. reflexivity.
Qed.

(** X18.  A series of calls of [push] that all return asks the run loop
    for at most one coalesce pass: for one, when no pass was scheduled before
    and the series is not empty.  Afterwards the three buffers hold what they
    held before and the pushed operations, each of them once. *)
Theorem pushes_schedule_one_coalesce_pass c os g g' :
  forEach os (push c) g = Returned tt g' ->
  store g' =
    store g ++ (if _willSyncRemote g || bool_decide (os = []) then [] else [the_coalesce_pass])
  /\ pending g' ≡ₚ pending g ++ os
  /\ _willSyncRemote g' = _willSyncRemote g || negb (bool_decide (os = [])).
Proof.
  revert g. induction os as [|o os IH]; intros g.
  - cbn. intros [= <-]. rewrite orb_true_r, orb_false_r, !app_nil_r. auto.
  - cbn [forEach]. unfold bind.
    destruct (push c o g) as [[] g1|e g1] eqn:E; [|discriminate].
    intros H. destruct (IH g1 H) as (Hs & Hp & Hw).
    destruct (push_appends c o g g1 E) as [Hw1 _].
    rewrite Hw1 in Hs, Hw. cbn in Hs, Hw.
    rewrite (bool_decide_eq_false_2 (o :: os = [])) by discriminate.
    rewrite orb_false_r, orb_true_r.
    split; [rewrite Hs, app_nil_r; apply (push_store c o g g1 E)|].
    split; [|exact Hw].
    rewrite Hp, (pending_push c o g g1 E), <- app_assoc. reflexivity.
Qed.

Lemma pushes_schedule_one_coalesce_pass_witness :
  store three_pushed_traced = [the_coalesce_pass]
  /\ pending three_pushed_traced ≡ₚ [replace_post; update_comments; delete_comment_2].
Proof.
  assert (H : forEach [replace_post; update_comments; delete_comment_2] (push tracing)
                (state_of (get tracing comment_2 "post" new_Graph))
              = Returned tt three_pushed_traced) by (vm_compute; reflexivity).
  destruct (pushes_schedule_one_coalesce_pass tracing _ _ _ H) as (Hs & Hp & _).
  split; [exact Hs|exact Hp].
Defined.

(** X19.  [update] fails an assertion, and applies nothing, for a
    [deleteRecord] operation on local state (without reading the graph); for
    any other operation on an edge that is implicit; for an
    [updateRelationship] operation on local state; and for an operation with
    a name it does not know.  When reading the edge throws, [update] throws
    the same. *)
Theorem update_refuses_what_it_cannot_apply c o isRemote g :
  (op o = OpDeleteRecord ->
   update c o false g =
     Threw (AssertionFailed "Can only perform the operation deleteRelationship on remote state") g)
  /\ (forall rel g1,
        op o <> OpDeleteRecord ->
        get c (record o) (field o) g = Returned rel g1 ->
        edge_isImplicit rel = true ->
        update c o isRemote g = Threw (AssertionFailed "Cannot update an implicit relationship") g1)
  /\ (forall rel g1,
        op o = OpUpdateRelationship ->
        get c (record o) (field o) g = Returned rel g1 ->
        edge_isImplicit rel = false ->
        update c o false g =
          Threw (AssertionFailed "Can only perform the operation updateRelationship on remote state")
            g1)
  /\ (forall name rel g1,
        op o = OpUnknown name ->
        get c (record o) (field o) g = Returned rel g1 ->
        edge_isImplicit rel = false ->
        update c o isRemote g =
          Threw (AssertionFailed
                   ("No local relationship update operation exists for '" ++ name ++ "'")%string) g1)
  /\ (forall e g1,
        op o <> OpDeleteRecord ->
        get c (record o) (field o) g = Threw e g1 ->
        update c o isRemote g = Threw e g1).
Proof.
  unfold update.
  split.
  { intros ->. reflexivity. }
  split.
  { intros rel g1 Hop Hget Himplicit. unfold bind at 1.
    rewrite bool_decide_eq_false_2 by exact Hop.
    unfold bind at 1. rewrite Hget, Himplicit. reflexivity. }
  split.
  { intros rel g1 Hop Hget Himplicit. unfold bind at 1.
    rewrite Hop. rewrite bool_decide_eq_false_2 by discriminate.
    unfold bind at 1. rewrite Hget, Himplicit. reflexivity. }
  split.
  { intros name rel g1 Hop Hget Himplicit. unfold bind at 1.
    rewrite Hop. rewrite bool_decide_eq_false_2 by discriminate.
    unfold bind at 1. rewrite Hget, Himplicit. reflexivity. }
  intros e g1 Hop Hget. unfold bind at 1.
  rewrite bool_decide_eq_false_2 by exact Hop.
  unfold bind at 1. rewrite Hget. reflexivity.
Qed.

Lemma relationships_of_set_edge_other identifier0 key rel g other :
  other <> identifier0 ->
  relationships_of other (set_edge identifier0 key rel g) = relationships_of other g.
Proof.
  intros Hne. unfold set_edge. destruct (relationships_of identifier0 g); [|reflexivity].
  unfold relationships_of. cbn. apply lookup_insert_ne. congruence.
Qed.

Lemma edge_at_update_edge ref' f ref g :
  edge_at ref (update_edge ref' f g) =
    if bool_decide (ref = ref') then f <$> edge_at ref g else edge_at ref g.
Proof.
  destruct ref as [i k], ref' as [i' k']. unfold update_edge, edge_at. cbn [fst snd].
  destruct (relationships_of i' g) as [rels'|] eqn:E'.
  - destruct (Dict.get k' rels') as [rel'|] eqn:Ek'.
    + destruct (decide (i = i')) as [->|Hi].
      * rewrite (relationships_of_set_edge _ _ _ _ rels' E'), E'.
        rewrite DictFacts.get_set.
        destruct (decide (k' = k)) as [->|Hk].
        -- rewrite !bool_decide_eq_true_2 by reflexivity. rewrite Ek'. reflexivity.
        -- rewrite (bool_decide_eq_false_2 (k' = k)) by exact Hk.
           rewrite bool_decide_eq_false_2 by congruence. reflexivity.
      * rewrite relationships_of_set_edge_other by exact Hi.
        rewrite bool_decide_eq_false_2 by congruence. reflexivity.
    + case_bool_decide as Eb; [|reflexivity].
      injection Eb as -> ->. rewrite E', Ek'. reflexivity.
  - case_bool_decide as Eb; [|reflexivity].
    injection Eb as -> ->. rewrite E'. reflexivity.
Qed.

Lemma transaction_of_update_edge ref f g :
  _transaction (update_edge ref f g) = _transaction g.
Proof.
  unfold update_edge. destruct (relationships_of ref.1 g); [|reflexivity].
  destruct (Dict.get ref.2 t); [|reflexivity].
  unfold set_edge. destruct (relationships_of ref.1 g); reflexivity.
Qed.

Lemma store_of_update_edge ref f g : store (update_edge ref f g) = store g.
Proof.
  unfold update_edge. destruct (relationships_of ref.1 g); [|reflexivity].
  destruct (Dict.get ref.2 t); [|reflexivity].
  unfold set_edge. destruct (relationships_of ref.1 g); reflexivity.
Qed.

Lemma reset_twice rel :
  edge_with_transactionRef (fun _ => 0) (edge_with_transactionRef (fun _ => 0) rel)
  = edge_with_transactionRef (fun _ => 0) rel.
Proof. destruct rel; reflexivity. Qed.

(** The edges after the loop of [_finalize]. *)
Lemma edge_at_reset touched g ref :
  edge_at ref (fold_left (fun g v => update_edge v (edge_with_transactionRef (fun _ => 0)) g)
                 touched g)
  = if bool_decide (ref ∈ touched)
    then edge_with_transactionRef (fun _ => 0) <$> edge_at ref g
    else edge_at ref g.
Proof.
  revert g. induction touched as [|v touched IH]; intros g; cbn [fold_left].
  - rewrite bool_decide_eq_false_2 by apply not_elem_of_nil. reflexivity.
  - rewrite IH, edge_at_update_edge.
    destruct (decide (ref = v)) as [->|Hne].
    + rewrite (bool_decide_eq_true_2 (v = v)) by reflexivity.
      rewrite (bool_decide_eq_true_2 (v ∈ v :: touched)) by (left).
      destruct (bool_decide (v ∈ touched)); [|reflexivity].
      destruct (edge_at v g) as [rel|]; [|reflexivity]. cbn. rewrite reset_twice. reflexivity.
    + rewrite (bool_decide_eq_false_2 (ref = v)) by exact Hne.
      apply (f_equal (fun b : bool => if b then _ else _)).
      apply bool_decide_ext. rewrite elem_of_cons. tauto.
Qed.

Lemma store_of_reset touched g :
  store (fold_left (fun g v => update_edge v (edge_with_transactionRef (fun _ => 0)) g)
           touched g) = store g.
Proof.
  revert g. induction touched as [|v touched IH]; intros g; cbn [fold_left]; [reflexivity|].
  rewrite IH. apply store_of_update_edge.
Qed.

(** X20.  [_addToTransaction] fails the assertion [expected a
    transaction] outside a transaction, and changes nothing; inside one it
    adds the edge to the transaction, once however often it is added, and
    counts the call in [transactionRef] of the edge.  [_finalize] returns,
    makes no call and leaves no transaction; every edge of the transaction it
    ends is the edge it was with a [transactionRef] of [0], and every other
    edge is as it was.  Outside a transaction [_finalize] changes nothing. *)
Theorem _finalize_ends_the_transaction relationship g :
  (_transaction g = None ->
   _addToTransaction relationship g = Threw (AssertionFailed "expected a transaction") g)
  /\ (forall touched,
        _transaction g = Some touched ->
        exists touched' g1,
          _addToTransaction relationship g = Returned tt g1
          /\ _transaction g1 = Some touched'
          /\ (forall ref, ref ∈ touched' <-> ref = relationship \/ ref ∈ touched)
          /\ (NoDup touched -> NoDup touched')
          /\ edge_at relationship g1 = edge_with_transactionRef S <$> edge_at relationship g)
  /\ exists g',
       _finalize g = Returned tt g'
       /\ _transaction g' = None
       /\ store g' = store g
       /\ (forall ref,
             ref ∈ default [] (_transaction g) ->
             edge_at ref g' = edge_with_transactionRef (fun _ => 0) <$> edge_at ref g)
       /\ (forall ref rel,
             ref ∈ default [] (_transaction g) ->
             edge_at ref g = Some rel ->
             exists rel',
               edge_at ref g' = Some rel'
               /\ edge_transactionRef rel' = (fun _ => 0) <$> edge_transactionRef rel)
       /\ (forall ref, ref ∉ default [] (_transaction g) -> edge_at ref g' = edge_at ref g)
       /\ (_transaction g = None -> g' = g).
Proof.
  split.
  { intros H. unfold _addToTransaction, bind, gets. rewrite H. reflexivity. }
  split.
  { intros touched Et. unfold _addToTransaction, bind, gets. rewrite Et.
    unfold modify. eexists _, _. split; [reflexivity|]. split; [reflexivity|].
    split.
    + intros ref. case_bool_decide as Eb.
      * split; [auto|]. intros [->|?]; assumption.
      * rewrite elem_of_app, list_elem_of_singleton. tauto.
    + split.
      { intros Hnd. case_bool_decide as Eb; [exact Hnd|].
        apply NoDup_app. split; [exact Hnd|]. split; [|apply NoDup_singleton].
        intros x Hx ->%list_elem_of_singleton. contradiction. }
      change (edge_at relationship (with__transaction ?t ?g0)) with (edge_at relationship g0).
      rewrite edge_at_update_edge, bool_decide_eq_true_2 by reflexivity. reflexivity. }
  unfold _finalize, bind, gets.
  destruct (_transaction g) as [touched|] eqn:Et.
  - rewrite (forEach_modify (fun v => update_edge v (edge_with_transactionRef (fun _ => 0))))
      by reflexivity.
    eexists. split; [reflexivity|]. split; [reflexivity|]. cbn [default].
    change (Datatypes.id touched) with touched.
    set (g2 := fold_left _ touched g).
    assert (Hat : forall ref, edge_at ref (with__transaction None g2) = edge_at ref g2)
      by reflexivity.
    assert (Hin : forall ref, ref ∈ touched ->
              edge_at ref (with__transaction None g2)
              = edge_with_transactionRef (fun _ => 0) <$> edge_at ref g).
    { intros ref Hin. rewrite Hat. subst g2.
      rewrite edge_at_reset, bool_decide_eq_true_2 by exact Hin. reflexivity. }
    split; [apply store_of_reset|].
    split; [exact Hin|].
    split.
    { intros ref rel Href Hrel. rewrite (Hin ref Href), Hrel. eexists. split; [reflexivity|].
      destruct rel; reflexivity. }
    split; [|discriminate].
    intros ref Hout. rewrite Hat. subst g2.
    rewrite edge_at_reset, bool_decide_eq_false_2 by exact Hout. reflexivity.
  - eexists. split; [reflexivity|]. split; [exact Et|]. cbn [default].
    split; [reflexivity|].
    split; [intros ref Hin; inversion Hin|].
    split; [intros ref rel Hin; inversion Hin|].
    split; reflexivity.
Qed.

End GraphMoreFacts.

(** ** The graph: release, polymorphic types and the local queue *)

Module GraphMaintenanceFacts.
Import RelationshipGraph GraphMoreSpec GraphMaintenance GraphMaintenanceSpec.

Lemma isReleasable_loop_run relationships keys g :
  (forall key, key ∈ keys -> is_Some (Dict.get key relationships)) ->
  exists b,
    isReleasable_loop relationships keys g = Returned b g
    /\ (b = true <->
        forall key rel, key ∈ keys -> Dict.get key relationships = Some rel ->
                        inverseIsAsync (edge_definition rel) = false).
Proof.
  induction keys as [|key keys IH]; intros Hkeys; cbn [isReleasable_loop].
  - exists true. split; [reflexivity|]. split; [|reflexivity]. intros _ key rel Hin. inversion Hin.
  - destruct (Hkeys key) as [rel Hrel]; [left|]. rewrite Hrel.
    destruct (inverseIsAsync (edge_definition rel)) eqn:Ea.
    + exists false. split; [reflexivity|]. split; [discriminate|].
      intros H. specialize (H key rel). rewrite Ea in H. symmetry. apply H; [left|exact Hrel].
    + destruct IH as (b & Hrun & Hb); [intros k Hk; apply Hkeys; right; exact Hk|].
      exists b. split; [exact Hrun|]. rewrite Hb. split.
      * intros H k r [->|Hin]%elem_of_cons Hr; [congruence|eapply H; eassumption].
      * intros H k r Hin Hr. apply (H k r); [right; exact Hin|exact Hr].
Qed.

(** X21.  [isReleasable(identifier)] returns, and leaves the graph as
    it is.  It is true exactly when no edge of the record has an async
    inverse; in particular for a record without node. *)
Theorem isReleasable_unless_an_inverse_is_async identifier0 g :
  exists b,
    isReleasable identifier0 g = Returned b g
    /\ (b = true <->
        forall key rel, edge_at (identifier0, key) g = Some rel ->
                        inverseIsAsync (edge_definition rel) = false)
    /\ (relationships_of identifier0 g = None -> b = true).
Proof.
  unfold isReleasable, bind, gets, edge_at. cbn [fst snd].
  destruct (relationships_of identifier0 g) as [rels|].
  - destruct (isReleasable_loop_run rels (Dict.keys rels) g) as (b & Hrun & Hb).
    { intros key Hin. apply RecordDataFacts.elem_of_keys. exact Hin. }
    exists b. split; [exact Hrun|]. split; [|discriminate]. rewrite Hb. split.
    + intros H key rel Hrel. apply (H key rel); [|exact Hrel].
      apply RecordDataFacts.elem_of_keys. rewrite Hrel. eauto.
    + intros H key rel _ Hrel. apply (H key rel Hrel).
  - exists true. split; [reflexivity|]. split; [|reflexivity].
    split; [|reflexivity]. intros _ key rel [=].
Qed.

Lemma registerPolymorphicType_run type1 type2 typeCache :
  let t1 := Dict.set type2 true (default Dict.empty (Dict.get type1 typeCache)) in
  let cache1 := Dict.set type1 t1 typeCache in
  let t2 := Dict.set type1 true (default Dict.empty (Dict.get type2 cache1)) in
  registerPolymorphicType type1 type2 typeCache = Returned tt (Dict.set type2 t2 cache1).
Proof.
  intros t1 cache1 t2. subst t1 cache1 t2.
  unfold registerPolymorphicType, bind, gets, modify, ret.
  assert (Hset : forall (k : string) (v v' : Dict.t bool) d,
            Dict.set k v (Dict.set k v' d) = Dict.set k v d).
  { intros k v v' d. induction d as [|[k0 v0] d IH]; cbn.
    - rewrite bool_decide_eq_true_2 by reflexivity. reflexivity.
    - destruct (bool_decide (k = k0)) eqn:E; cbn; rewrite E; [reflexivity|].
      rewrite IH. reflexivity. }
  destruct (Dict.get type1 typeCache) as [t1|] eqn:E1; cbn [from_option Datatypes.id].
  - match goal with |- context [Dict.get type2 ?c] => destruct (Dict.get type2 c) eqn:E2 end;
      cbn [from_option Datatypes.id]; [reflexivity|]. rewrite Hset. reflexivity.
  - rewrite Hset.
    match goal with |- context [Dict.get type2 ?c] => destruct (Dict.get type2 c) eqn:E2 end;
      cbn [from_option Datatypes.id]; [reflexivity|]. rewrite Hset. reflexivity.
Qed.

Lemma polymorphic_set k j typeCache a b :
  polymorphic (Dict.set k (Dict.set j true (default Dict.empty (Dict.get k typeCache))) typeCache)
    a b
  = polymorphic typeCache a b || bool_decide (a = k /\ b = j).
Proof.
  unfold polymorphic. rewrite DictFacts.get_set.
  destruct (decide (k = a)) as [<-|Hk].
  - rewrite bool_decide_eq_true_2 by reflexivity. rewrite DictFacts.get_set.
    destruct (decide (j = b)) as [<-|Hj].
    + rewrite !bool_decide_eq_true_2 by tauto. rewrite orb_true_r. reflexivity.
    + rewrite (bool_decide_eq_false_2 (j = b)) by exact Hj.
      rewrite bool_decide_eq_false_2 by (intros [? ?]; congruence).
      rewrite orb_false_r. destruct (Dict.get k typeCache); reflexivity.
  - rewrite (bool_decide_eq_false_2 (k = a)) by exact Hk.
    rewrite bool_decide_eq_false_2 by (intros [? ?]; congruence).
    rewrite orb_false_r. reflexivity.
Qed.

(** X22.  [registerPolymorphicType(type1, type2)] relates the two
    types in both directions and keeps what the cache held: afterwards
    [typeCache[a][b]] is true exactly when it was before, or [(a, b)] is
    [(type1, type2)] or [(type2, type1)]. *)
Theorem registerPolymorphicType_relates_both_ways type1 type2 typeCache :
  exists typeCache',
    registerPolymorphicType type1 type2 typeCache = Returned tt typeCache'
    /\ forall a b,
         polymorphic typeCache' a b =
           polymorphic typeCache a b
           || bool_decide (a = type1 /\ b = type2)
           || bool_decide (a = type2 /\ b = type1).
Proof.
  eexists. split; [apply registerPolymorphicType_run|].
  intros a b. rewrite !polymorphic_set. reflexivity.
Qed.

Lemma _scheduleLocalSync_run relationship g :
  exists g',
    _scheduleLocalSync relationship g = Returned tt g'
    /\ _updatedRelationships g' =
         (if bool_decide (relationship ∈ _updatedRelationships g)
          then _updatedRelationships g
          else _updatedRelationships g ++ [relationship])
    /\ _willSyncLocal g' = true
    /\ store g' = store g ++ (if _willSyncLocal g then [] else [the_local_flush])
    /\ identifiers g' = identifiers g
    /\ _pushedUpdates g' = _pushedUpdates g
    /\ _willSyncRemote g' = _willSyncRemote g.
Proof.
  unfold _scheduleLocalSync, bind, modify, gets.
  destruct g as [ids st wr wl pu ur tr rm]. cbn.
  destruct wl; cbn; eexists; (split; [reflexivity|]); cbn; rewrite ?app_nil_r; repeat split.
Qed.

(** X23.  A series of calls of [_scheduleLocalSync] returns and asks
    the run loop for at most one flush of the local queue: for one, when none
    was scheduled before and the series is not empty.  Afterwards
    [_updatedRelationships] holds what it held before and the scheduled
    relationships, none of them twice if none was there twice before; and
    [_flushLocalQueue] applies [syncRemoteToLocal] to each of them in that
    order, from a graph whose set is empty and whose flush is no longer
    scheduled. *)
Theorem local_syncs_schedule_one_flush syncRemoteToLocal relationships g :
  exists g',
    forEach relationships _scheduleLocalSync g = Returned tt g'
    /\ store g' =
         store g ++ (if _willSyncLocal g || bool_decide (relationships = [])
                     then [] else [the_local_flush])
    /\ (forall relationship,
          relationship ∈ _updatedRelationships g' <->
          relationship ∈ _updatedRelationships g \/ relationship ∈ relationships)
    /\ (NoDup (_updatedRelationships g) -> NoDup (_updatedRelationships g'))
    /\ _flushLocalQueue syncRemoteToLocal g' =
         (if _willSyncLocal g'
          then forEach (_updatedRelationships g') syncRemoteToLocal (drained_local g')
          else Returned tt g').
Proof.
  assert (Hflush : forall g0,
            _flushLocalQueue syncRemoteToLocal g0 =
              (if _willSyncLocal g0
               then forEach (_updatedRelationships g0) syncRemoteToLocal (drained_local g0)
               else Returned tt g0)).
  { intros g0. unfold _flushLocalQueue, bind, gets, modify.
    destruct (_willSyncLocal g0); reflexivity. }
  revert g. induction relationships as [|r rs IH]; intros g.
  - exists g. split; [reflexivity|]. rewrite orb_true_r, app_nil_r.
    split; [reflexivity|]. split.
    { intros x. split; [auto|]. intros [?|H]; [assumption|inversion H]. }
    split; [auto|apply Hflush].
  - destruct (_scheduleLocalSync_run r g) as (g1 & Hrun & Hur & Hwl & Hst & _).
    destruct (IH g1) as (g' & Hrun' & Hst' & Hin' & Hnd' & _).
    exists g'. split; [cbn [forEach]; unfold bind; rewrite Hrun; exact Hrun'|].
    rewrite Hwl in Hst'. cbn in Hst'. rewrite app_nil_r in Hst'.
    rewrite (bool_decide_eq_false_2 (r :: rs = [])) by discriminate. rewrite orb_false_r.
    split; [congruence|].
    split.
    { intros x. rewrite Hin', Hur, elem_of_cons.
      case_bool_decide as Eb.
      - split; [tauto|]. intros [?|[->|?]]; tauto.
      - rewrite elem_of_app, list_elem_of_singleton. tauto. }
    split; [|apply Hflush].
    intros Hnd. apply Hnd'. rewrite Hur. case_bool_decide as Eb; [exact Hnd|].
    apply NoDup_app. split; [exact Hnd|]. split; [|apply NoDup_singleton].
    intros x Hx ->%list_elem_of_singleton. contradiction.
Qed.

End GraphMaintenanceFacts.

(** ** The hasMany edge: removal and dematerialization *)

Module HasManyRemovalFacts.
Import RelationshipGraph HasManyRemoval HasManyRemovalSpec.

Lemma splice_indexOf x array :
  match indexOf x array with
  | Some index => splice_one index array
  | None => array
  end = without_first x array.
Proof.
  induction array as [|y rest IH]; [reflexivity|]. cbn [indexOf without_first].
  case_bool_decide as Eb; [reflexivity|].
  destruct (indexOf x rest) as [index|]; cbn [fmap option_fmap option_map].
  - unfold splice_one in *. cbn. rewrite IH. reflexivity.
  - rewrite <- IH. reflexivity.
Qed.

Lemma indexOf_Some x array : is_Some (indexOf x array) <-> x ∈ array.
Proof.
  induction array as [|y rest IH]; cbn [indexOf].
  - split; [intros [? [=]]|intros H; inversion H].
  - case_bool_decide as Eb.
    + subst. split; [intros _; left|eauto].
    + rewrite elem_of_cons, <- IH. destruct (indexOf x rest); cbn.
      * split; eauto.
      * split; [intros [? [=]]|]. intros [?|[? [=]]]. congruence.
Qed.

Lemma without_first_split x array :
  x ∈ array ->
  exists before after,
    array = before ++ x :: after /\ (x ∉ before) /\ without_first x array = before ++ after.
Proof.
  induction array as [|y rest IH]; [intros H; inversion H|]. cbn [without_first].
  case_bool_decide as Eb.
  - subst. intros _. exists [], rest. split; [reflexivity|].
    split; [apply not_elem_of_nil|reflexivity].
  - intros [?|Hin]%elem_of_cons; [congruence|].
    destruct (IH Hin) as (before & after & -> & Hnot & Heq).
    exists (y :: before), after. split; [reflexivity|].
    split; [|cbn; rewrite Heq; reflexivity].
    intros [?|?]%elem_of_cons; [congruence|contradiction].
Qed.

Lemma without_first_absent x array : x ∉ array -> without_first x array = array.
Proof.
  induction array as [|y rest IH]; [reflexivity|]. cbn [without_first]. intros Hnot.
  case_bool_decide as Eb; [subst; exfalso; apply Hnot; left|].
  rewrite IH; [reflexivity|]. intros ?. apply Hnot. right. assumption.
Qed.

Lemma removeCompletelyFromOwn_run identifier0 e :
  let r := relationship e in
  removeCompletelyFromOwn identifier0 e =
    Returned tt
      {| relationship :=
           with_currentState (without_first identifier0 (currentState r))
             (with_canonicalState (without_first identifier0 (canonicalState r))
                (with_members (set_delete identifier0 (members r))
                   (with_canonicalMembers (set_delete identifier0 (canonicalMembers r)) r)));
         graph__removing := graph__removing e;
         store := store e ++ (if bool_decide (identifier0 ∈ currentState r) && negb (being_removed e)
                              then [the_change e] else []) |}.
Proof.
  intros r. subst r. destruct e as [r rm st]. unfold removeCompletelyFromOwn.
  erewrite bind_returned by reflexivity. cbv beta.
  erewrite bind_returned by reflexivity. cbv beta.
  erewrite bind_returned by reflexivity. cbv beta.
  cbn [relationship with_relationship with_members with_canonicalMembers canonicalState].
  pose proof (splice_indexOf identifier0 (canonicalState r)) as Hc.
  pose proof (splice_indexOf identifier0 (currentState r)) as Hs.
  pose proof (indexOf_Some identifier0 (currentState r)) as Hin.
  destruct (indexOf identifier0 (canonicalState r)) as [ci|];
    (erewrite bind_returned by reflexivity); cbv beta;
    (erewrite bind_returned by reflexivity); cbv beta;
    cbn [relationship with_relationship with_members with_canonicalMembers with_canonicalState
           currentState];
    destruct (indexOf identifier0 (currentState r)) as [si|].
  all: try (rewrite bool_decide_eq_true_2 by (apply Hin; eauto)).
  all: try (rewrite bool_decide_eq_false_2 by (intros H; apply Hin in H as [? [=]])).
  all: cbn [andb].
  all: try (erewrite bind_returned by reflexivity; cbv beta).
  all: unfold notifyHasManyChange_, being_removed, the_change, bind, gets, modify, ret;
    cbn [relationship graph__removing store with_relationship with_currentState
           with_canonicalState with_members with_canonicalMembers identifier definition];
    try destruct (bool_decide (Some (identifier r) = rm)); cbn [negb];
    rewrite <- ?Hc, <- ?Hs, ?app_nil_r; reflexivity.
Qed.

Lemma elem_of_set_delete x y set : y ∈ set_delete x set <-> y <> x /\ y ∈ set.
Proof.
  unfold set_delete. rewrite list_elem_of_In, List.filter_In, <- list_elem_of_In.
  rewrite negb_true_iff, bool_decide_eq_false. tauto.
Qed.

(** X24.  [removeCompletelyFromOwn(identifier)] takes the identifier
    out of the two member sets and takes its first occurrence, if there is
    one, out of [currentState] and out of [canonicalState]; everything else
    stays, in its order.  It notifies the store wrapper of a change, once,
    exactly when the identifier was in [currentState] and the owner of the
    edge is not the record that the graph is removing. *)
Theorem removeCompletelyFromOwn_removes_the_first_occurrence identifier0 e :
  exists e',
    removeCompletelyFromOwn identifier0 e = Returned tt e'
    /\ (forall x, x ∈ members (relationship e') <->
                  x <> identifier0 /\ x ∈ members (relationship e))
    /\ (forall x, x ∈ canonicalMembers (relationship e') <->
                  x <> identifier0 /\ x ∈ canonicalMembers (relationship e))
    /\ (if bool_decide (identifier0 ∈ currentState (relationship e))
        then exists before after,
               currentState (relationship e) = before ++ identifier0 :: after
               /\ (identifier0 ∉ before)
               /\ currentState (relationship e') = before ++ after
        else currentState (relationship e') = currentState (relationship e))
    /\ (if bool_decide (identifier0 ∈ canonicalState (relationship e))
        then exists before after,
               canonicalState (relationship e) = before ++ identifier0 :: after
               /\ (identifier0 ∉ before)
               /\ canonicalState (relationship e') = before ++ after
        else canonicalState (relationship e') = canonicalState (relationship e))
    /\ store e' =
         store e ++ (if bool_decide (identifier0 ∈ currentState (relationship e))
                        && negb (being_removed e)
                     then [the_change e] else [])
    /\ definition (relationship e') = definition (relationship e)
    /\ _state (relationship e') = _state (relationship e).
Proof.
  eexists. split; [apply removeCompletelyFromOwn_run|].
  cbn [relationship store with_currentState with_canonicalState with_members
         with_canonicalMembers members canonicalMembers currentState canonicalState
         definition _state].
  split; [intros x; apply elem_of_set_delete|].
  split; [intros x; apply elem_of_set_delete|].
  split.
  { case_bool_decide as Eb; [apply without_first_split; exact Eb|].
    apply without_first_absent. exact Eb. }
  split.
  { case_bool_decide as Eb; [apply without_first_split; exact Eb|].
    apply without_first_absent. exact Eb. }
  repeat split.
Qed.

Section Edge.
Variable createState : RelationshipState.
Variable isNew : StableRecordIdentifier -> bool.

(** X25.  [inverseDidDematerialize(inverseIdentifier)] returns.  On an
    edge that is not async, or for an inverse that is new, the edge is what
    [removeCompletelyFromOwn] makes of it; otherwise the members and the two
    state arrays stay and the flag [hasDematerializedInverse] of the state is
    set.  Unless the owner is the record that the graph is removing, the
    store wrapper is notified of a change at the end, after the notification
    of the removal when there was one. *)
Theorem inverseDidDematerialize_removes_or_marks inverseIdentifier e :
  let removes := negb (isAsync (definition (relationship e))) || isNew inverseIdentifier in
  exists e',
    inverseDidDematerialize createState isNew inverseIdentifier e = Returned tt e'
    /\ (if removes
        then relationship e' =
               relationship (state_of (removeCompletelyFromOwn inverseIdentifier e))
        else currentState (relationship e') = currentState (relationship e)
             /\ canonicalState (relationship e') = canonicalState (relationship e)
             /\ members (relationship e') = members (relationship e)
             /\ canonicalMembers (relationship e') = canonicalMembers (relationship e)
             /\ (hasDematerializedInverse <$> _state (relationship e')) = Some true)
    /\ store e' =
         store e
         ++ (if being_removed e then []
             else (if removes && bool_decide (inverseIdentifier ∈ currentState (relationship e))
                   then [the_change e] else [])
                  ++ [the_change e]).
Proof.
  intros removes. subst removes. unfold inverseDidDematerialize.
  erewrite bind_returned by reflexivity. cbv beta.
  destruct (negb (isAsync (definition (relationship e))) || isNew inverseIdentifier).
  - erewrite bind_returned by apply removeCompletelyFromOwn_run. cbv beta.
    rewrite removeCompletelyFromOwn_run. cbn [state_of].
    destruct e as [r rm st].
    unfold notifyHasManyChange_, being_removed, the_change, bind, gets, modify, ret.
    cbn [relationship graph__removing store with_currentState with_canonicalState
           with_members with_canonicalMembers identifier definition andb].
    destruct (bool_decide (Some (identifier r) = rm)); cbn [negb].
    + rewrite andb_false_r. eexists. split; [reflexivity|]. split; reflexivity.
    + rewrite andb_true_r. eexists. split; [reflexivity|]. cbn [relationship store].
      split; [reflexivity|]. rewrite <- app_assoc. reflexivity.
  - destruct e as [r rm st].
    unfold set_hasDematerializedInverse, notifyHasManyChange_, being_removed, the_change,
      bind, gets, modify, ret.
    cbn [relationship graph__removing store with_relationship with__state identifier
           definition andb].
    destruct (bool_decide (Some (identifier r) = rm)); cbn [negb];
      eexists; (split; [reflexivity|]); cbn [relationship store with__state currentState
        canonicalState members canonicalMembers _state fmap option_fmap option_map
        hasDematerializedInverse app];
      rewrite ?app_nil_r; repeat split.
Qed.

End Edge.

End HasManyRemovalFacts.

(** ** The fetch manager: scheduling and rejection *)

Module FetchMoreFacts.
Import Fetch FetchSpec FetchMoreSpec FetchFacts.

Lemma length_set {V} k (v : V) d : 0 < length (Dict.set k v d).
Proof. destruct d as [|[k0 v0] d]; cbn; [lia|]. destruct (bool_decide (k = k0)); cbn; lia. Qed.

Lemma getPendingFetch_run identifier0 options0 m :
  getPendingFetch identifier0 options0 m = Returned (reused identifier0 options0 m) m.
Proof.
  unfold getPendingFetch, reused, first_pending, bind, gets.
  destruct (Dict.get (type identifier0) (_pendingFetch m)) as [fetches|]; [|reflexivity].
  cbn [default]. change (Datatypes.id fetches) with fetches.
  destruct (List.find _ fetches); [|reflexivity].
  destruct (isSameRequest _ _); reflexivity.
Qed.

(** X26.  [scheduleFetch] returns.  When the first pending fetch of the
    identifier has the same [include] as the request, it returns the promise
    of that fetch and leaves the manager as it is.  Otherwise it makes two
    new promises and returns the second, adds a pending fetch for the request
    at the end of the pending fetches of the model name and leaves those of
    the other model names as they are, asks the run loop for
    [flushAllPendingFetches] exactly when the table of pending fetches was
    empty, and enqueues the request in the request cache.  The table is not
    empty then, so that the next new fetch does not ask for a flush again. *)
Theorem scheduleFetch_schedules_the_flush_once identifier0 options0 m :
  exists promise0 m',
    scheduleFetch identifier0 options0 m = Returned promise0 m'
    /\ match reused identifier0 options0 m with
       | Some pendingPromise => promise0 = pendingPromise /\ m' = m
       | None =>
           promise0 = S (promises m)
           /\ promises m' = S (S (promises m))
           /\ Dict.get (type identifier0) (_pendingFetch m')
              = Some (default [] (Dict.get (type identifier0) (_pendingFetch m))
                        ++ [new_pending identifier0 options0 m])
           /\ (forall modelName0,
                 modelName0 <> type identifier0 ->
                 Dict.get modelName0 (_pendingFetch m') = Dict.get modelName0 (_pendingFetch m))
           /\ calls m' =
                calls m
                ++ (if bool_decide (length (_pendingFetch m) = 0) then [the_flush] else [])
                ++ [enqueue (promises m)
                      {| request_op := "findRecord"; recordIdentifier := identifier0;
                         request_options := options0 |}]
           /\ 0 < length (_pendingFetch m')
           /\ isDestroyed m' = isDestroyed m
       end.
Proof.
  unfold scheduleFetch.
  erewrite bind_returned by apply getPendingFetch_run. cbv beta.
  destruct (reused identifier0 options0 m) as [pendingPromise|].
  { exists pendingPromise, m. split; [reflexivity|]. split; reflexivity. }
  unfold new_pending. destruct m as [destroyed fetches made count].
  unfold bind, new_promise, gets, modify, ret, call, with__pendingFetch.
  cbn [isDestroyed _pendingFetch calls promises].
  destruct (bool_decide (length fetches = 0));
    cbn -[Dict.has Dict.get Dict.set];
    destruct (Dict.has (type identifier0) fetches) eqn:Ehas;
    cbn -[Dict.has Dict.get Dict.set];
    eexists _, _; (split; [reflexivity|]); cbn -[Dict.has Dict.get Dict.set];
    rewrite <- ?app_assoc;
    (split; [reflexivity|]); (split; [reflexivity|]);
    (split;
     [rewrite DictFacts.get_set_eq; try reflexivity;
      apply DictFacts.has_false_get in Ehas; rewrite Ehas, DictFacts.get_set_eq; reflexivity|]);
    (split;
     [intros modelName0 Hne; rewrite !DictFacts.get_set_ne by congruence; reflexivity|]);
    (split; [reflexivity|]); (split; [apply length_set|reflexivity]).
Qed.

(** X27.  After a first request for an identifier that had no pending
    fetch, a second request for it whose options agree with the first by
    [isSameRequest], which compares the [include] option and nothing else,
    gets the promise of the first and leaves the manager as it is.  The
    options of the fetch that stays pending are those of the first request,
    whatever else the second asked for. *)
Theorem scheduleFetch_compares_include_only identifier0 first second m :
  List.find (fun fetch => bool_decide (identifier fetch = identifier0))
    (default [] (Dict.get (type identifier0) (_pendingFetch m))) = None ->
  isSameRequest second first = true ->
  exists promise0 m1,
    scheduleFetch identifier0 first m = Returned promise0 m1
    /\ scheduleFetch identifier0 second m1 = Returned promise0 m1
    /\ map options (default [] (Dict.get (type identifier0) (_pendingFetch m1)))
       = map options (default [] (Dict.get (type identifier0) (_pendingFetch m))) ++ [first].
Proof.
  intros Hnone Hsame.
  destruct (scheduleFetch_new identifier0 first m Hnone) as (m1 & Hrun & Hget).
  exists (S (promises m)), m1. split; [exact Hrun|].
  split.
  - eapply (scheduleFetch_reuses_first_pending identifier0 second m1 _
              {| identifier := identifier0;
                 queryRequest := {| request_op := "findRecord"; recordIdentifier := identifier0;
                                    request_options := first |};
                 resolver := {| deferred_promise := promises m; settlement := None |};
                 options := first; promise := S (promises m) |}).
    + exact Hget.
    + apply find_app_last; [exact Hnone|]. apply bool_decide_eq_true. reflexivity.
    + exact Hsame.
  - rewrite Hget. cbn [default from_option Datatypes.id]. rewrite map_app. reflexivity.
Qed.

Lemma scheduleFetch_compares_include_only_witness :
  reloading "a" <> including "a"
  /\ exists promise0 m1,
       scheduleFetch person_1 (reloading "a") new_FetchManager = Returned promise0 m1
       /\ scheduleFetch person_1 (including "a") m1 = Returned promise0 m1.
Proof.
  split; [discriminate|].
  destruct (scheduleFetch_compares_include_only person_1 (reloading "a") (including "a")
              new_FetchManager) as (promise0 & m1 & H1 & H2 & _).
  - reflexivity.
  - reflexivity.
  - exists promise0, m1. split; assumption.
Defined.




End FetchMoreFacts.
